(** * Materials-KnowledgeBase: a shallow embedding of the retrieval core

    The development follows the Python sources, one module per class:
    - [core/chunker.py], class [TextChunker]
    - [core/vector_store.py], class [FAISSVectorStore]
    - [core/database.py], class [ChunkDatabase]
    - [core/embedder.py], class [BGEEmbedder]
    - [core/retriever.py], class [Retriever]
    - [tools/utils.py], in [Module Summaries]
    - [common/constants.py], class [StatusCode]
    - [domains/chembrain/server/server.py], class [StructuredSearchSystem]
      (the reply text it parses is in [Module FilterText])
    - [domains/stainless_steel/server/server.py], class [RAGSystem]

    Python values are modelled as follows.  An [int] is a [Z].  A [str] is
    a list of Unicode code points ([pystr]); [len] is the length of that
    list, as in Python.  A dict keyed by strings is a [gmap pystr _].
    Exceptions are values of [exn]; a function that can raise returns
    [exn + A], and a method that also assigns to [self] returns the object
    it leaves behind.  External collaborators (the embedding model, the
    FAISS search kernel, the HTTP endpoint, the relational store, the thread
    pool) are functions passed as arguments.

    The definitions come first, then the inputs of the examples and the
    vocabulary of the statements, then the proofs. *)

From Stdlib Require Import ZArith NArith List Lia Bool String Ascii DecimalString.
From stdpp Require Import gmap list sorting.

From Stdlib Require DecimalZ DecimalPos.

Local Open Scope Z_scope.

(** ** Python strings *)

Module Py.

Definition char := N.
Definition pystr := list char.

(** UTF-8 decoding of a source literal into code points. *)
Fixpoint utf8_decode (bs : list N) : pystr :=
  match bs with
  | [] => []
  | b0 :: r0 =>
    if (b0 <? 0x80)%N then b0 :: utf8_decode r0
    else if (b0 <? 0xE0)%N then
      match r0 with
      | b1 :: r1 => ((b0 - 0xC0) * 64 + (b1 - 0x80))%N :: utf8_decode r1
      | _ => []
      end
    else if (b0 <? 0xF0)%N then
      match r0 with
      | b1 :: b2 :: r2 =>
        ((b0 - 0xE0) * 4096 + (b1 - 0x80) * 64 + (b2 - 0x80))%N :: utf8_decode r2
      | _ => []
      end
    else
      match r0 with
      | b1 :: b2 :: b3 :: r3 =>
        ((b0 - 0xF0) * 262144 + (b1 - 0x80) * 4096 + (b2 - 0x80) * 64 + (b3 - 0x80))%N
          :: utf8_decode r3
      | _ => []
      end
  end.

Definition lit (s : string) : pystr :=
  utf8_decode (map N_of_ascii (list_ascii_of_string s)).

(** [str(n)] for an [int]. *)
Definition str_of_int (z : Z) : pystr :=
  lit (NilZero.string_of_int (Z.to_int z)).

Definition len (s : pystr) : Z := Z.of_nat (length s).

Definition char_eqb (a b : char) : bool := N.eqb a b.

Fixpoint str_eqb (a b : pystr) : bool :=
  match a, b with
  | [], [] => true
  | x :: a', y :: b' => char_eqb x y && str_eqb a' b'
  | _, _ => false
  end.

(** Truthiness of a [str]. *)
Definition nonempty {A} (l : list A) : bool :=
  match l with [] => false | _ => true end.

(** [str.isspace] on one code point (CPython's [_PyUnicode_IsWhitespace]);
    the class [\s] of [re] on [str] patterns is the same set. *)
Definition isspace (c : char) : bool :=
  ((0x09 <=? c) && (c <=? 0x0D) || (0x1C <=? c) && (c <=? 0x20)
   || (c =? 0x85) || (c =? 0xA0) || (c =? 0x1680)
   || (0x2000 <=? c) && (c <=? 0x200A)
   || (c =? 0x2028) || (c =? 0x2029) || (c =? 0x202F) || (c =? 0x205F)
   || (c =? 0x3000))%N.

Fixpoint lstrip (s : pystr) : pystr :=
  match s with
  | c :: s' => if isspace c then lstrip s' else s
  | [] => []
  end.

Definition rstrip (s : pystr) : pystr := rev (lstrip (rev s)).

Definition strip (s : pystr) : pystr := rstrip (lstrip s).

(** [sep.join(parts)] *)
Fixpoint join (sep : pystr) (parts : list pystr) : pystr :=
  match parts with
  | [] => []
  | [p] => p
  | p :: rest => p ++ sep ++ join sep rest
  end.

Fixpoint startswith (s pre : pystr) : bool :=
  match pre, s with
  | [], _ => true
  | p :: pre', c :: s' => char_eqb p c && startswith s' pre'
  | _ :: _, [] => false
  end.

(** Index normalisation of slices and of the [start] argument of [find]:
    a negative index counts from the end, then the index is clamped. *)
Definition clamp_index (s : pystr) (i : Z) : nat :=
  let i' := if i <? 0 then Z.max 0 (i + len s) else Z.min i (len s) in
  Z.to_nat i'.

(** [s[a:b]] *)
Definition slice (s : pystr) (a b : Z) : pystr :=
  let a' := clamp_index s a in
  let b' := clamp_index s b in
  firstn (b' - a') (skipn a' s).

(** [s[a:]] *)
Definition slice_from (s : pystr) (a : Z) : pystr :=
  skipn (clamp_index s a) s.

(** First occurrence of [sub] in [s], counting positions from [i]. *)
Fixpoint find_at (s sub : pystr) (i : Z) : Z :=
  if startswith s sub then i
  else match s with
       | [] => -1
       | _ :: s' => find_at s' sub (i + 1)
       end.

(** [s.find(sub, start)] *)
Definition find (s sub : pystr) (start : Z) : Z :=
  let st := if start <? 0 then Z.max 0 (start + len s) else start in
  if st >? len s then -1
  else find_at (skipn (Z.to_nat st) s) sub st.

(** Last occurrence of [sub] in [s], counting positions from [i]. *)
Fixpoint rfind_at (s sub : pystr) (i : Z) : Z :=
  match s with
  | [] => if startswith s sub then i else -1
  | _ :: s' =>
    let r := rfind_at s' sub (i + 1) in
    if 0 <=? r then r else if startswith s sub then i else -1
  end.

(** [s.rfind(sub)] *)
Definition rfind (s sub : pystr) : Z := rfind_at s sub 0.

(** [re.split(pattern, s)] for a pattern that never matches the empty
    string.  [matcher s] is the length of the match anchored at the head of
    [s], if there is one.  With [capture] the matched text is returned
    between the pieces, as for a pattern wrapped in one group.  [skip]
    counts the characters of the current match still to be consumed and
    [cur] holds the current piece, reversed. *)
Fixpoint re_split_aux (matcher : pystr -> option nat) (capture : bool)
    (s : pystr) (skip : nat) (cur : pystr) : list pystr :=
  match s with
  | [] => [rev cur]
  | c :: s' =>
    match skip with
    | S k => re_split_aux matcher capture s' k cur
    | O =>
      match matcher s with
      | Some (S m) =>
        rev cur ::
          (if capture then [firstn (S m) s] else []) ++
          re_split_aux matcher capture s' m []
      | _ => re_split_aux matcher capture s' 0%nat (c :: cur)
      end
    end
  end.

Definition re_split (matcher : pystr -> option nat) (capture : bool)
    (s : pystr) : list pystr :=
  re_split_aux matcher capture s 0 [].

Fixpoint take_while (p : char -> bool) (s : pystr) : pystr :=
  match s with
  | c :: s' => if p c then c :: take_while p s' else []
  | [] => []
  end.

(** Index of the last [c] in [s]. *)
Fixpoint last_index (c : char) (s : pystr) : option nat :=
  match s with
  | [] => None
  | x :: s' =>
    match last_index c s' with
    | Some j => Some (S j)
    | None => if char_eqb x c then Some O else None
    end
  end.

End Py.

Import Py.

(** ** core/chunker.py *)

Module TextChunker.

Definition NL : char := 10%N.

(** Anchored match of [\n\s*\n]: a newline, then the greedy whitespace run
    backtracked to its last newline. *)
Definition match_blank_line (s : pystr) : option nat :=
  match s with
  | c :: rest =>
    if char_eqb c NL then
      match last_index NL (take_while isspace rest) with
      | Some j => Some (S (S j))
      | None => None
      end
    else None
  | [] => None
  end.

(** The class [[.!?。！？]]. *)
Definition is_terminator (c : char) : bool :=
  ((c =? 46) || (c =? 33) || (c =? 63)
   || (c =? 0x3002) || (c =? 0xFF01) || (c =? 0xFF1F))%N.

(** Anchored match of [[.!?。！？]\s*]. *)
Definition match_sentence_end (s : pystr) : option nat :=
  match s with
  | c :: rest =>
    if is_terminator c then Some (S (length (take_while isspace rest)))
    else None
  | [] => None
  end.

Record config := {
  chunk_size : Z;
  overlap_size : Z;
  min_chunk_size : Z
}.

(** [TextChunker()] with the default arguments. *)
Definition default_config : config :=
  {| chunk_size := 768; overlap_size := 120; min_chunk_size := 200 |}.

(** [int(len(text) * 0.75)]: 0.75 is a dyadic fraction, so the float
    product is exact and truncation is the integer quotient. *)
Definition _estimate_tokens (text : pystr) : Z :=
  len text * 3 / 4.

Definition _split_into_paragraphs (text : pystr) : list pystr :=
  List.filter nonempty
         (map strip (re_split match_blank_line false text)).

(** The loop [for i in range(0, len(sentences) - 1, 2)] of
    [_split_into_sentences]: inside the loop [i + 1 < len(sentences)]
    always holds, so an unpaired last element is never appended. *)
Fixpoint pair_up (sentences : list pystr) : list pystr :=
  match sentences with
  | a :: b :: rest => (a ++ b) :: pair_up rest
  | _ => []
  end.

Definition _split_into_sentences (text : pystr) : list pystr :=
  List.filter nonempty
         (map strip (pair_up (re_split match_sentence_end true text))).

(** [int(overlap_tokens / 0.75)]: the quotient [4n/3] truncated towards
    zero. *)
Definition overlap_chars_of (overlap_tokens : Z) : Z :=
  Z.quot (4 * overlap_tokens) 3.

(** [pos > len(s) * 0.3], decided on integers. *)
Definition beyond_30_percent (pos : Z) (s : pystr) : bool :=
  10 * pos >? 3 * len s.

Definition _get_overlap_text (text : pystr) (start_pos overlap_tokens : Z) : pystr :=
  if start_pos <=? 0 then []
  else
    let overlap_chars := overlap_chars_of overlap_tokens in
    let overlap_start := Z.max 0 (start_pos - overlap_chars) in
    let overlap_text := slice text overlap_start start_pos in
    let para_start := rfind overlap_text [NL; NL] in
    let overlap_text :=
      if beyond_30_percent para_start overlap_text
      then slice_from overlap_text (para_start + 2)
      else
        let sent_start :=
          Z.max (rfind overlap_text [0x3002%N])
          (Z.max (rfind overlap_text [46%N])
          (Z.max (rfind overlap_text [0xFF01%N])
          (Z.max (rfind overlap_text [33%N])
          (Z.max (rfind overlap_text [0xFF1F%N])
                 (rfind overlap_text [63%N]))))) in
        if beyond_30_percent sent_start overlap_text
        then slice_from overlap_text (sent_start + 1)
        else overlap_text in
    strip overlap_text.

Record chunk := {
  chunk_id : pystr;
  file_id : pystr;
  chunk_index : Z;
  text : pystr;
  start_char : Z;
  end_char : Z;
  token_count : Z
}.

Definition _create_chunk_dict (file_id : pystr) (chunk_index : Z) (text : pystr)
    (start_char end_char token_count : Z) : chunk :=
  {| chunk_id := file_id ++ lit "_chunk_" ++ str_of_int chunk_index;
     file_id := file_id;
     chunk_index := chunk_index;
     text := text;
     start_char := start_char;
     end_char := end_char;
     token_count := token_count |}.

(** The local variables of [chunk_text]. *)
Record locals := {
  chunks : list chunk;
  current_chunk : list pystr;
  current_chunk_tokens : Z;
  current_start : Z;
  next_index : Z;
  last_chunk_end : Z
}.

Definition init_locals : locals :=
  {| chunks := []; current_chunk := []; current_chunk_tokens := 0;
     current_start := 0; next_index := 0; last_chunk_end := 0 |}.

Definition SEP : pystr := [NL; NL].

(** Append the buffer as a chunk, set [last_chunk_end], bump the index. *)
Definition emit (fid : pystr) (st : locals) : locals :=
  let chunk_text := join SEP (current_chunk st) in
  let chunk_dict :=
    _create_chunk_dict fid (next_index st) chunk_text
      (current_start st) (current_start st + len chunk_text)
      (current_chunk_tokens st) in
  {| chunks := chunks st ++ [chunk_dict];
     current_chunk := current_chunk st;
     current_chunk_tokens := current_chunk_tokens st;
     current_start := current_start st;
     next_index := next_index st + 1;
     last_chunk_end := current_start st + len chunk_text |}.

(** Start the next buffer from the overlap window. *)
Definition seed_overlap (cfg : config) (text : pystr) (st : locals) : locals :=
  let overlap_text := _get_overlap_text text (last_chunk_end st) (overlap_size cfg) in
  {| chunks := chunks st;
     current_chunk := if nonempty overlap_text then [overlap_text] else [];
     current_chunk_tokens := _estimate_tokens overlap_text;
     current_start :=
       if nonempty overlap_text then last_chunk_end st - len overlap_text
       else last_chunk_end st;
     next_index := next_index st;
     last_chunk_end := last_chunk_end st |}.

(** Start the next buffer empty. *)
Definition reset_buffer (new_start : Z) (st : locals) : locals :=
  {| chunks := chunks st;
     current_chunk := [];
     current_chunk_tokens := 0;
     current_start := new_start;
     next_index := next_index st;
     last_chunk_end := last_chunk_end st |}.

(** [current_chunk.append(unit); current_chunk_tokens += unit_tokens] *)
Definition push_unit (unit : pystr) (unit_tokens : Z) (st : locals) : locals :=
  {| chunks := chunks st;
     current_chunk := current_chunk st ++ [unit];
     current_chunk_tokens := current_chunk_tokens st + unit_tokens;
     current_start := current_start st;
     next_index := next_index st;
     last_chunk_end := last_chunk_end st |}.

Definition set_start (new_start : Z) (st : locals) : locals :=
  {| chunks := chunks st;
     current_chunk := current_chunk st;
     current_chunk_tokens := current_chunk_tokens st;
     current_start := new_start;
     next_index := next_index st;
     last_chunk_end := last_chunk_end st |}.

(** Body of the loop over the sentences of an oversized paragraph. *)
Definition sentence_step (cfg : config) (text fid : pystr)
    (st : locals) (sentence : pystr) : locals :=
  let sent_tokens := _estimate_tokens sentence in
  let st1 :=
    if current_chunk_tokens st + sent_tokens >? chunk_size cfg then
      if nonempty (current_chunk st) then
        let st' := emit fid st in
        if nonempty (chunks st') && (last_chunk_end st' >? 0)
        then seed_overlap cfg text st'
        else reset_buffer (last_chunk_end st') st'
      else st
    else st in
  let st2 := push_unit sentence sent_tokens st1 in
  if current_start st2 =? 0 then set_start (find text sentence 0) st2 else st2.

(** Body of the loop over the paragraphs. *)
Definition paragraph_step (cfg : config) (text fid : pystr)
    (st : locals) (para : pystr) : locals :=
  let para_tokens := _estimate_tokens para in
  if para_tokens >? chunk_size cfg then
    let st1 :=
      if nonempty (current_chunk st)
      then reset_buffer (current_start st) (emit fid st)
      else st in
    fold_left (sentence_step cfg text fid) (_split_into_sentences para) st1
  else if current_chunk_tokens st + para_tokens <=? chunk_size cfg then
    let st1 := push_unit para para_tokens st in
    if negb (nonempty (current_chunk st1)) || (current_start st1 =? 0)
    then set_start (find text para (last_chunk_end st1)) st1
    else st1
  else
    let st1 :=
      if nonempty (current_chunk st)
      then seed_overlap cfg text (emit fid st)
      else st in
    let st2 := push_unit para para_tokens st1 in
    if current_start st2 =? 0
    then set_start (find text para (last_chunk_end st2)) st2
    else st2.

(** The state when the [while] loop ends. *)
Definition run_loop (cfg : config) (text fid : pystr) : locals :=
  fold_left (paragraph_step cfg text fid) (_split_into_paragraphs text) init_locals.

(** The trailing buffer, kept only above the minimum size. *)
Definition finish (cfg : config) (fid : pystr) (st : locals) : list chunk :=
  if nonempty (current_chunk st) then
    let chunk_text := join SEP (current_chunk st) in
    if _estimate_tokens chunk_text >=? min_chunk_size cfg
    then chunks (emit fid st)
    else chunks st
  else chunks st.

Definition chunk_text (cfg : config) (text fid : pystr) : list chunk :=
  finish cfg fid (run_loop cfg text fid).

End TextChunker.

(** ** Exceptions *)

Module Exn.

Inductive exn_class :=
  | ValueError | TypeError | IndexError | AttributeError | AssertionError
  | MemoryError | RuntimeError | OSError | UnpicklingError
  | OverflowError | UnicodeEncodeError
  | RequestException | OtherException.

Record exn := { cls : exn_class; msg : pystr }.

(** [str(e)] *)
Definition str_of_exn (e : exn) : pystr := msg e.

Definition raise {A} (c : exn_class) (m : pystr) : exn + A :=
  inl {| cls := c; msg := m |}.

End Exn.

Import Exn.

(** ** core/vector_store.py *)

Module FAISSVectorStore.

Section WithFloat.

(** Array elements and distances are floats; only the conversions applied
    by the code are named. *)
Variable float : Type.
Variable astype_float32 : float -> float.

(** A two-dimensional [np.ndarray] of shape [(len rows, ncols)]. *)
Record ndarray := {
  ncols : Z;
  rows : list (list float)
}.

Definition astype (a : ndarray) : ndarray :=
  {| ncols := ncols a; rows := map (map astype_float32) (rows a) |}.

(** A [faiss.IndexFlatL2]: its dimension and the stored vectors. *)
Record faiss_index := {
  d : Z;
  xb : list (list float)
}.

Definition ntotal (i : faiss_index) : Z := Z.of_nat (length (xb i)).

Definition IndexFlatL2 (dim : Z) : faiss_index := {| d := dim; xb := [] |}.

(** [index.add(x)]; faiss asserts that the width of [x] is [index.d]. *)
Definition faiss_add (i : faiss_index) (x : ndarray) : exn + faiss_index :=
  if ncols x =? d i then inr {| d := d i; xb := xb i ++ rows x |}
  else raise AssertionError [].

Record store := {
  embedding_dim : Z;
  index : option faiss_index;
  chunk_ids : list pystr
}.

(** [FAISSVectorStore(embedding_dim)] *)
Definition new_store (embedding_dim : Z) : store :=
  {| embedding_dim := embedding_dim; index := None; chunk_ids := [] |}.

Definition set_index (i : faiss_index) (s : store) : store :=
  {| embedding_dim := embedding_dim s; index := Some i; chunk_ids := chunk_ids s |}.

Definition set_chunk_ids (ids : list pystr) (s : store) : store :=
  {| embedding_dim := embedding_dim s; index := index s; chunk_ids := ids |}.

(** A method returns the store it leaves behind and its outcome. *)
Definition method (A : Type) : Type := (store * (exn + A))%type.

Definition build_index (s : store) (embeddings : ndarray) (ids : list pystr)
    : method unit :=
  if negb (Z.of_nat (length (rows embeddings)) =? Z.of_nat (length ids)) then
    (s, raise ValueError (lit "embeddings和chunk_ids长度不匹配"))
  else if negb (ncols embeddings =? embedding_dim s) then
    (s, raise ValueError
          (lit "embedding维度不匹配: 期望" ++ str_of_int (embedding_dim s)
           ++ lit ", 实际" ++ str_of_int (ncols embeddings)))
  else
    let embeddings := astype embeddings in
    let s1 := set_index (IndexFlatL2 (embedding_dim s)) s in
    match faiss_add (IndexFlatL2 (embedding_dim s)) embeddings with
    | inl e => (s1, inl e)
    | inr i => (set_chunk_ids ids (set_index i s1), inr tt)
    end.

Definition get_total_vectors (s : store) : Z :=
  match index s with
  | None => 0
  | Some i => ntotal i
  end.

Definition add_vectors (s : store) (embeddings : ndarray) (ids : list pystr)
    : method unit :=
  match index s with
  | None => build_index s embeddings ids
  | Some i =>
    if negb (Z.of_nat (length (rows embeddings)) =? Z.of_nat (length ids)) then
      (s, raise ValueError (lit "embeddings和chunk_ids长度不匹配"))
    else
      match faiss_add i (astype embeddings) with
      | inl e => (s, inl e)
      | inr i' => (set_chunk_ids (chunk_ids s ++ ids) (set_index i' s), inr tt)
      end
  end.

(** [l[i]] on a list: a negative index counts from the end. *)
Definition getitem {A} (l : list A) (i : Z) : exn + A :=
  let j := if i <? 0 then i + Z.of_nat (length l) else i in
  if j <? 0 then raise IndexError (lit "list index out of range")
  else match nth_error l (Z.to_nat j) with
       | Some x => inr x
       | None => raise IndexError (lit "list index out of range")
       end.

(** The query argument of [search]: one- or two-dimensional. *)
Inductive query_vector :=
  | Vec1 (v : list float)
  | Vec2 (a : ndarray).

(** [query_vector.reshape(1, -1)] when [ndim == 1], then [astype]. *)
Definition as_row (q : query_vector) : ndarray :=
  astype match q with
         | Vec1 v => {| ncols := Z.of_nat (length v); rows := [v] |}
         | Vec2 a => a
         end.

(** [index.search(q, k)]: for the first query row, the pairs
    [(distances[0][i], indices[0][i])].  The kernel is external. *)
Variable faiss_search : faiss_index -> ndarray -> Z -> exn + list (float * Z).

(** The loop of [search] over [enumerate(indices[0])]. *)
Fixpoint collect_results (ids : list pystr) (hits : list (float * Z))
    : exn + list (pystr * float) :=
  match hits with
  | [] => inr []
  | (distance, idx) :: rest =>
    if idx <? Z.of_nat (length ids) then
      match getitem ids idx with
      | inl e => inl e
      | inr chunk_id =>
        match collect_results ids rest with
        | inl e => inl e
        | inr results => inr ((chunk_id, distance) :: results)
        end
      end
    else collect_results ids rest
  end.

Definition search (s : store) (q : query_vector) (k : Z)
    : exn + list (pystr * float) :=
  match index s with
  | None => raise ValueError (lit "索引未构建，请先调用build_index")
  | Some i =>
    match faiss_search i (as_row q) (Z.min k (Z.of_nat (length (chunk_ids s)))) with
    | inl e => inl e
    | inr hits => collect_results (chunk_ids s) hits
    end
  end.

(** Persisted artifacts: what [faiss.write_index] and [pickle.dump] leave
    on disk. *)
Inductive file :=
  | IndexFile (i : faiss_index)
  | PickleFile (ids : list pystr).

Definition filesystem := gmap pystr file.

Definition save (s : store) (fs : filesystem) (index_path metadata_path : pystr)
    : filesystem * (exn + unit) :=
  match index s with
  | None => (fs, raise ValueError (lit "索引未构建"))
  | Some i =>
    let fs1 := <[index_path := IndexFile i]> fs in
    (<[metadata_path := PickleFile (chunk_ids s)]> fs1, inr tt)
  end.

(** [faiss.read_index(path)] *)
Definition read_index (fs : filesystem) (path : pystr) : exn + faiss_index :=
  match fs !! path with
  | Some (IndexFile i) => inr i
  | _ => raise RuntimeError (lit "could not read index")
  end.

(** [pickle.load(open(path, 'rb'))] *)
Definition pickle_load (fs : filesystem) (path : pystr) : exn + list pystr :=
  match fs !! path with
  | Some (PickleFile ids) => inr ids
  | Some (IndexFile _) => raise UnpicklingError (lit "invalid load key")
  | None => raise OSError (lit "No such file or directory")
  end.

(** [load], given what the two reads yield.  The index is assigned before
    the identifier list is read. *)
Definition load_from (s : store)
    (read : exn + faiss_index) (unpickled : exn + list pystr) : method unit :=
  match read with
  | inl e =>
    match cls e with
    | MemoryError =>
      (s, raise MemoryError
            (lit "索引文件太大，无法在当前内存限制下加载。建议增加内存或使用更小的索引。"))
    | _ => (s, inl e)
    end
  | inr i =>
    let s1 := set_index i s in
    match unpickled with
    | inl e => (s1, inl e)
    | inr ids => (set_chunk_ids ids s1, inr tt)
    end
  end.

Definition load (s : store) (fs : filesystem) (index_path metadata_path : pystr)
    : method unit :=
  load_from s (read_index fs index_path) (pickle_load fs metadata_path).

End WithFloat.

End FAISSVectorStore.

(** ** core/database.py *)

Module ChunkDatabase.

(** The columns of table [chunks] other than the primary key. *)
Record row := {
  r_file_id : pystr;
  r_chunk_index : Z;
  r_text : pystr;
  r_start_char : Z;
  r_end_char : Z;
  r_token_count : Z
}.

(** Table [chunks]: [chunk_id TEXT PRIMARY KEY] maps to the other columns. *)
Abbreviation table := (gmap pystr row).

Definition row_of (c : TextChunker.chunk) : row :=
  {| r_file_id := TextChunker.file_id c;
     r_chunk_index := TextChunker.chunk_index c;
     r_text := TextChunker.text c;
     r_start_char := TextChunker.start_char c;
     r_end_char := TextChunker.end_char c;
     r_token_count := TextChunker.token_count c |}.

(** The dict built from one selected row. *)
Definition chunk_of (kv : pystr * row) : TextChunker.chunk :=
  {| TextChunker.chunk_id := kv.1;
     TextChunker.file_id := r_file_id kv.2;
     TextChunker.chunk_index := r_chunk_index kv.2;
     TextChunker.text := r_text kv.2;
     TextChunker.start_char := r_start_char kv.2;
     TextChunker.end_char := r_end_char kv.2;
     TextChunker.token_count := r_token_count kv.2 |}.

(** The statement [INSERT OR REPLACE INTO chunks ...] run on parameters
    that are bound: the row replaces the one stored under the same key.
    The binding is [bind_parameters] and the methods as they are called,
    binding included, are [try_insert_chunk] and
    [try_insert_chunks_batch]. *)
Definition insert_chunk (db : table) (c : TextChunker.chunk) : table :=
  <[TextChunker.chunk_id c := row_of c]> db.

Definition insert_chunks_batch (db : table) (cs : list TextChunker.chunk) : table :=
  fold_left insert_chunk cs db.

Definition get_chunk (db : table) (id : pystr) : option TextChunker.chunk :=
  match db !! id with
  | Some r => Some (chunk_of (id, r))
  | None => None
  end.

(** [SELECT ... WHERE chunk_id IN (...)]: the rows whose key is listed, in
    the order in which the table enumerates them. *)
Definition get_chunks_by_ids (db : table) (ids : list pystr) : list TextChunker.chunk :=
  match ids with
  | [] => []
  | _ => map chunk_of (List.filter (fun kv => bool_decide (kv.1 ∈ ids)) (map_to_list db))
  end.

Definition get_total_chunks (db : table) : Z := Z.of_nat (size db).

Definition clear_all (db : table) : table := ∅.

(** [sqlite3] binds an [int] as a signed 64-bit integer and a [str]
    through its UTF-8 encoding, which lone surrogates do not have. *)
Definition fits_int64 (z : Z) : bool :=
  (- 2 ^ 63 <=? z) && (z <? 2 ^ 63).

Definition is_surrogate (c : char) : bool :=
  ((0xD800 <=? c) && (c <=? 0xDFFF))%N.

Definition encodable (s : pystr) : bool :=
  forallb (fun c => negb (is_surrogate c)) s.

Definition bind_int (z : Z) : exn + unit :=
  if fits_int64 z then inr tt
  else raise OverflowError (lit "Python int too large to convert to SQLite INTEGER").

Definition hex_digit (n : N) : char :=
  (if n <? 10 then 48 + n else 87 + n)%N.

(** [%04x] of a character of the basic plane. *)
Definition hex4 (c : char) : pystr :=
  [hex_digit (c / 4096 mod 16); hex_digit (c / 256 mod 16);
   hex_digit (c / 16 mod 16); hex_digit (c mod 16)]%N.

(** The message of the codec, which reports the first run of surrogates by
    its positions. *)
Fixpoint surrogates_not_allowed (s : pystr) (position : Z) : pystr :=
  match s with
  | [] => []
  | c :: rest =>
    if is_surrogate c then
      let run := len (take_while is_surrogate rest) in
      if run =? 0 then
        lit "'utf-8' codec can't encode character '\u" ++ hex4 c
        ++ lit "' in position " ++ str_of_int position
        ++ lit ": surrogates not allowed"
      else
        lit "'utf-8' codec can't encode characters in position "
        ++ str_of_int position ++ lit "-" ++ str_of_int (position + run)
        ++ lit ": surrogates not allowed"
    else surrogates_not_allowed rest (position + 1)
  end.

Definition bind_str (s : pystr) : exn + unit :=
  if encodable s then inr tt
  else raise UnicodeEncodeError (surrogates_not_allowed s 0).

(** The seven parameters are bound in the order of the column list; the
    first one that cannot be bound raises. *)
Definition bind_parameters (c : TextChunker.chunk) : exn + unit :=
  fold_right (fun (bound : exn + unit) (rest : exn + unit) =>
                match bound with
                | inl e => inl e
                | inr _ => rest
                end)
             (inr tt)
             [bind_str (TextChunker.chunk_id c);
              bind_str (TextChunker.file_id c);
              bind_int (TextChunker.chunk_index c);
              bind_str (TextChunker.text c);
              bind_int (TextChunker.start_char c);
              bind_int (TextChunker.end_char c);
              bind_int (TextChunker.token_count c)].

(** [insert_chunk] as it is called: a parameter that cannot be bound raises
    before anything is written. *)
Definition try_insert_chunk (db : table) (c : TextChunker.chunk)
    : table * (exn + unit) :=
  match bind_parameters c with
  | inl e => (db, inl e)
  | inr _ => (insert_chunk db c, inr tt)
  end.

(** [insert_chunks_batch] as it is called: [executemany] binds and writes
    row after row, so the rows before the first one that cannot be bound
    are written (in the open transaction of the connection) when it
    raises. *)
Fixpoint try_insert_chunks_batch (db : table) (cs : list TextChunker.chunk)
    : table * (exn + unit) :=
  match cs with
  | [] => (db, inr tt)
  | c :: rest =>
    match bind_parameters c with
    | inl e => (db, inl e)
    | inr _ => try_insert_chunks_batch (insert_chunk db c) rest
    end
  end.





End ChunkDatabase.

(** ** core/embedder.py *)

Module BGEEmbedder.

Section WithModel.

Variable float : Type.

(** Tokenizer, transformer, mean pooling and optional normalisation applied
    to one batch of texts: one vector of width [hidden_size] per text. *)
Variable model_batch : list pystr -> Z -> bool -> list (list float).
Variable hidden_size : Z.

Abbreviation ndarray := (FAISSVectorStore.ndarray float).

(** The slices [texts[i:i + batch_size]] for [i] in
    [range(0, len(texts), batch_size)], for a positive [batch_size]. *)
Fixpoint batches (fuel : nat) (batch_size : nat) (texts : list pystr)
    : list (list pystr) :=
  match fuel with
  | O => []
  | S fuel' =>
    match texts with
    | [] => []
    | _ => firstn batch_size texts :: batches fuel' batch_size (skipn batch_size texts)
    end
  end.

(** [np.vstack] *)
Definition vstack (arrays : list (list (list float))) : exn + ndarray :=
  match arrays with
  | [] => raise ValueError (lit "need at least one array to concatenate")
  | _ => inr {| FAISSVectorStore.ncols := hidden_size; FAISSVectorStore.rows := concat arrays |}
  end.

(** [encode]; [texts] is a single [str] or a list. *)
Definition encode (texts : pystr + list pystr)
    (batch_size max_length : Z) (normalize : bool) : exn + ndarray :=
  let texts := match texts with inl t => [t] | inr l => l end in
  if batch_size =? 0 then raise ValueError (lit "range() arg 3 must not be zero")
  else
    let slices :=
      if batch_size <? 0 then []
      else batches (length texts) (Z.to_nat batch_size) texts in
    vstack (map (fun batch_texts => model_batch batch_texts max_length normalize) slices).

Definition instruction : pystr := lit "为这个句子生成表示以用于检索相关文章：".

Definition encode_query (query : pystr) (normalize : bool) : exn + ndarray :=
  let query_with_instruction := instruction ++ query in
  encode (inl query_with_instruction) 32 512 normalize.

Definition get_embedding_dim (model_name_is_large : bool) : Z :=
  if model_name_is_large then 1024 else 768.

End WithModel.

End BGEEmbedder.

(** ** core/retriever.py *)

Module Retriever.

Section WithFloat.

Variable float : Type.
(** [a <= b] on distances, and [float('inf')]. *)
Variable fle : float -> float -> bool.
Variable inf : float.
Variable astype_float32 : float -> float.
Variable faiss_search :
  FAISSVectorStore.faiss_index float -> FAISSVectorStore.ndarray float -> Z -> exn + list (float * Z).
Variable model_batch : list pystr -> Z -> bool -> list (list float).
Variable hidden_size : Z.

(** A chunk dict after [chunk['distance'] = ...]. *)
Record hit := {
  chunk : TextChunker.chunk;
  distance : float
}.

(** [{chunk_id: distance for chunk_id, distance in search_results}]: a later
    pair replaces an earlier one with the same key. *)
Definition distance_map (search_results : list (pystr * float)) : gmap pystr float :=
  fold_left (fun m kv => <[kv.1 := kv.2]> m) search_results ∅.

(** [list.sort(key=...)] is stable: an element goes before the first one
    whose key is not smaller than its own. *)
Fixpoint insert_by (key : hit -> float) (x : hit) (l : list hit) : list hit :=
  match l with
  | [] => [x]
  | y :: l' => if fle (key x) (key y) then x :: l else y :: insert_by key x l'
  end.

Definition sort_by (key : hit -> float) (l : list hit) : list hit :=
  foldr (insert_by key) [] l.

Definition retrieve (vs : FAISSVectorStore.store float) (db : ChunkDatabase.table)
    (query : pystr) (k : Z) : exn + list hit :=
  match BGEEmbedder.encode_query float model_batch hidden_size query true with
  | inl e => inl e
  | inr query_vector =>
    match FAISSVectorStore.search float astype_float32 faiss_search vs
            (FAISSVectorStore.Vec2 float query_vector) k with
    | inl e => inl e
    | inr search_results =>
      let chunk_ids := map fst search_results in
      let chunks := ChunkDatabase.get_chunks_by_ids db chunk_ids in
      let dm := distance_map search_results in
      let chunks :=
        map (fun c => {| chunk := c;
                         distance := default inf (dm !! TextChunker.chunk_id c) |})
            chunks in
      inr (sort_by distance chunks)
    end
  end.

End WithFloat.

End Retriever.

(** ** tools/utils.py *)

Module Summaries.

(** What one [requests.post(...)] followed by [raise_for_status], [json] and
    the extraction of the content yields. *)
Inductive attempt_outcome :=
  | Content (text : pystr)
  | RaisesRequestException (e : exn)
  | RaisesOther (e : exn).

(** What can raise inside one attempt, by the statement that raises:
    [requests.post] (no connection, a timeout, a URL that cannot be used),
    [response.raise_for_status()] (a status from 400 to 599),
    [response.json()] (a body that is not JSON), and
    [result['choices'][0]['message']['content']] ([KeyError], [IndexError],
    [TypeError]). *)
Inductive failure :=
  | ConnectionError (message : pystr)
  | ReadTimeout (message : pystr)
  | InvalidURL (message : pystr)
  | HTTPError (status_code : Z) (message : pystr)
  | JSONDecodeError (message : pystr)
  | LookupFailure (e : exn).

(** [isinstance(e, requests.exceptions.RequestException)]: the exceptions of
    [requests], [HTTPError] and its own [JSONDecodeError] included, derive
    from it; those of the lookup do not. *)
Definition is_request_exception (f : failure) : bool :=
  match f with
  | LookupFailure _ => false
  | _ => true
  end.

Definition exn_of_failure (f : failure) : exn :=
  match f with
  | ConnectionError message | ReadTimeout message | InvalidURL message
  | HTTPError _ message | JSONDecodeError message =>
    {| cls := RequestException; msg := message |}
  | LookupFailure e => e
  end.

(** The [except] clause a failure ends in. *)
Definition raised (f : failure) : attempt_outcome :=
  if is_request_exception f then RaisesRequestException (exn_of_failure f)
  else RaisesOther (exn_of_failure f).

(** An attempt that yields the content or fails. *)
Definition attempt (r : pystr + failure) : attempt_outcome :=
  match r with
  | inl text => Content text
  | inr f => raised f
  end.

(** The observable actions of [call_llm_api]. *)
Inductive event :=
  | Post (attempt : Z)
  | Sleep (seconds : Z).

(** [range(a, b)] *)
Definition range (a b : Z) : list Z :=
  map (fun i => a + Z.of_nat i) (seq 0 (Z.to_nat (b - a))).

(** [raise None] *)
Definition raise_none : exn :=
  {| cls := TypeError; msg := lit "exceptions must derive from BaseException" |}.

(** The [for attempt in ...] loop of [call_llm_api] and the final [raise].
    [post n] is the outcome of the request made at attempt [n]. *)
Fixpoint retry_loop (post : Z -> attempt_outcome) (max_retries : Z)
    (attempts : list Z) (last_exception : option exn)
    : list event * (exn + pystr) :=
  match attempts with
  | [] => ([], inl (default raise_none last_exception))
  | attempt :: rest =>
    match post attempt with
    | Content text => ([Post attempt], inr text)
    | RaisesRequestException e =>
      let backoff := if attempt <? max_retries then [Sleep (1 * attempt)] else [] in
      let (trace, outcome) := retry_loop post max_retries rest (Some e) in
      (Post attempt :: backoff ++ trace, outcome)
    | RaisesOther e => ([Post attempt], inl e)
    end
  end.

Definition call_llm_api (post : Z -> attempt_outcome) (max_retries : Z)
    : list event * (exn + pystr) :=
  retry_loop post max_retries (range 1 (max_retries + 1)) None.

Record request := {
  system_prompt : pystr;
  user_prompt : pystr;
  timeout : Z
}.

Record summary_entry := {
  file_id : pystr;
  summary : pystr;
  generation_time : pystr
}.

Section WithEndpoint.

(** The endpoint: for the task of a document and the request it sends, the
    outcome of each attempt. *)
Variable endpoint : pystr -> request -> Z -> attempt_outcome.

(** Wall-clock duration of the task of a document, and [f"{t:.2f}s"]. *)
Variable seconds : Type.
Variable elapsed : pystr -> seconds.
Variable format_seconds : seconds -> pystr.

Definition generate_single_literature_summary
    (file_id fulltext question system_prompt : pystr)
    (get_user_prompt_func : pystr -> pystr -> exn + pystr)
    (timeout max_retries : Z) : pystr * pystr * seconds :=
  let attempt :=
    match get_user_prompt_func question fulltext with
    | inl e => inl e
    | inr user_prompt =>
      snd (call_llm_api
             (endpoint file_id {| system_prompt := system_prompt;
                                  user_prompt := user_prompt;
                                  timeout := timeout |})
             max_retries)
    end in
  match attempt with
  | inr summary => (file_id, summary, elapsed file_id)
  | inl e => (file_id, lit "生成总结时出错: " ++ str_of_exn e, elapsed file_id)
  end.

(** A submitted task: the key it is filed under and what [future.result()]
    gives. *)
Definition future : Type := (pystr * (exn + pystr * pystr * seconds))%type.

(** The order in which [as_completed] yields the futures. *)
Variable as_completed : list future -> list future.

Definition collect (f : future) : summary_entry :=
  match f.2 with
  | inr (result_file_id, summary, generation_time) =>
    {| file_id := result_file_id;
       summary := summary;
       generation_time := format_seconds generation_time |}
  | inl e =>
    {| file_id := f.1;
       summary := lit "处理时出错: " ++ str_of_exn e;
       generation_time := lit "0.00s" |}
  end.

(** The documents whose full text could be read. *)
Definition literature_data (file_ids : list pystr)
    (read_fulltext_func : pystr -> pystr) : list (pystr * pystr) :=
  flat_map (fun file_id =>
              let fulltext := read_fulltext_func file_id in
              if nonempty fulltext then [(file_id, fulltext)] else [])
           file_ids.

Definition generate_literature_summaries_parallel
    (file_ids : list pystr) (question system_prompt : pystr)
    (get_user_prompt_func : pystr -> pystr -> exn + pystr)
    (read_fulltext_func : pystr -> pystr)
    (max_workers timeout max_retries : Z) : exn + list summary_entry :=
  match literature_data file_ids read_fulltext_func with
  | [] => inr []
  | data =>
    (* ThreadPoolExecutor(max_workers=max_workers) *)
    if max_workers <=? 0
    then raise ValueError (lit "max_workers must be greater than 0")
    else
      let futures :=
        map (fun d : pystr * pystr =>
               (d.1, inr (generate_single_literature_summary d.1 d.2 question
                            system_prompt get_user_prompt_func timeout max_retries)))
            data in
      inr (map collect (as_completed futures))
  end.

End WithEndpoint.

End Summaries.

(** ** common/constants.py *)

Module StatusCode.

Definition SUCCESS : Z := 0.
Definition NO_RESULTS : Z := 1.
Definition NO_LITERATURE : Z := 2.
Definition REPORT_FAILED : Z := 3.
Definition OTHER_ERROR : Z := 4.

End StatusCode.

(** ** domains/chembrain/server/server.py *)

Module StructuredSearchSystem.

(** What [json.loads] returns. *)
#[local] Unset Elimination Schemes.
Inductive json :=
  | JNull
  | JBool (b : bool)
  | JNum (z : Z)
  | JStr (s : pystr)
  | JArr (items : list json)
  | JObj (members : list (pystr * json)).
#[local] Set Elimination Schemes.

(** Truthiness. *)
Definition truthy (j : json) : bool :=
  match j with
  | JNull => false
  | JBool b => b
  | JNum z => negb (z =? 0)
  | JStr s => nonempty s
  | JArr l => nonempty l
  | JObj m => nonempty m
  end.

Fixpoint assoc (key : pystr) (members : list (pystr * json)) : option json :=
  match members with
  | [] => None
  | (k, v) :: rest => if str_eqb k key then Some v else assoc key rest
  end.

Definition is_str (key : pystr) (j : json) : bool :=
  match j with
  | JStr s => str_eqb s key
  | _ => false
  end.

(** [key in j] for a [str] key. *)
Definition contains (key : pystr) (j : json) : exn + bool :=
  match j with
  | JObj m => inr (match assoc key m with Some _ => true | None => false end)
  | JArr l => inr (existsb (is_str key) l)
  | JStr s => inr (0 <=? find s key 0)
  | _ => raise TypeError (lit "argument is not iterable")
  end.

(** [j.get(key, dflt)] *)
Definition get (key : pystr) (dflt : json) (j : json) : exn + json :=
  match j with
  | JObj m => inr (default dflt (assoc key m))
  | _ => raise AttributeError (lit "object has no attribute 'get'")
  end.

(** The values a [for] loop over [j] binds. *)
Definition iterate (j : json) : exn + list json :=
  match j with
  | JArr l => inr l
  | JObj m => inr (map (fun kv => JStr kv.1) m)
  | JStr s => inr (map (fun c => JStr [c]) s)
  | _ => raise TypeError (lit "object is not iterable")
  end.

Definition DEFAULT_TABLE : json := JStr (lit "polym00").

(** The tail of [_convert_query_to_filters]: a reply without [tables] that
    carries [filters] or [type] is wrapped as a one-table query. *)
Definition wrap_legacy (filters : json) : exn + json :=
  match contains (lit "tables") filters with
  | inl e => inl e
  | inr true => inr filters
  | inr false =>
    let legacy :=
      match contains (lit "filters") filters with
      | inl e => inl e
      | inr true => inr true
      | inr false => contains (lit "type") filters
      end in
    match legacy with
    | inl e => inl e
    | inr false => inr filters
    | inr true =>
      match get (lit "filters") filters filters with
      | inl e => inl e
      | inr inner =>
        inr (JObj [(lit "tables",
                    JArr [JObj [(lit "table_name", DEFAULT_TABLE);
                                (lit "filters", inner)]])])
      end
    end
  end.

(** [_convert_query_to_filters], given the parsed reply of the model or the
    exception raised on the way to it; any exception gives [None]. *)
Definition _convert_query_to_filters (reply : exn + json) : option json :=
  match reply with
  | inl _ => None
  | inr filters =>
    match wrap_legacy filters with
    | inl _ => None
    | inr filters => Some filters
    end
  end.

(** A cell of the relational store. *)
Inductive scalar :=
  | SNull
  | SInt (z : Z)
  | SStr (s : pystr).

Definition scalar_truthy (v : scalar) : bool :=
  match v with
  | SNull => false
  | SInt z => negb (z =? 0)
  | SStr s => nonempty s
  end.

(** [str(v)] *)
Definition str_of_scalar (v : scalar) : pystr :=
  match v with
  | SNull => lit "None"
  | SInt z => str_of_int z
  | SStr s => s
  end.

(** A result row: column name to cell. *)
Abbreviation item := (gmap pystr scalar).

(** A key of the row dicts.  Rows are filed under the value of a cell
    that passed a truth test, which is an [int] other than 0 or a [str]
    other than the empty one, or under a formatted [str]. *)
Definition dict_key : Type := (Z + pystr)%type.

(** [item.get(col)] when it is truthy. *)
Definition truthy_cell (it : item) (col : pystr) : option dict_key :=
  match it !! col with
  | Some (SInt z) => if z =? 0 then None else Some (inl z)
  | Some (SStr s) => if nonempty s then Some (inr s) else None
  | _ => None
  end.

(** [str(k)] *)
Definition str_of_key (k : dict_key) : pystr :=
  match k with
  | inl z => str_of_int z
  | inr s => s
  end.

(** The reply of the store's [query_table]: an [error] entry, or the
    [papers] identifiers with the [result] rows. *)
Inductive table_reply :=
  | QError (message : pystr)
  | QRows (papers : list pystr) (result : list item).

Record QueryResult := {
  summaries : list pystr;
  code : Z
}.

Definition MAX_FULLTEXT_SUMMARIES : nat := 20.

Definition EPOXY_TABLE : pystr := lit "677df00".
Definition METADATA_TABLE : json := JStr (lit "690hd00").

(** [{"type": 1, "field": "doi", "operator": "in", "value": dois[:100]}] *)
Definition paper_metadata_filters (dois : list pystr) : json :=
  JObj [(lit "type", JNum 1);
        (lit "field", JStr (lit "doi"));
        (lit "operator", JStr (lit "in"));
        (lit "value", JArr (map JStr (firstn 100 dois)))].

(** The rows of a metadata reply, keyed by [doi]. *)
Definition index_by_doi (result : list item) : gmap dict_key item :=
  fold_left (fun (m : gmap dict_key item) paper =>
               match truthy_cell paper (lit "doi") with
               | Some doi => <[doi := paper]> m
               | None => m
               end)
            result ∅.

Section WithStore.

(** [query_table(table_name, filters_json, None, 1, 100)] of the external
    database manager. *)
Variable query_table : json -> json -> exn + table_reply.

(** The key under which [_query_database] files a row, if any. *)
Definition row_key (table_name : json) (it : item) : option dict_key :=
  match truthy_cell it (lit "doi") with
  | Some doi => Some doi
  | None =>
    if is_str EPOXY_TABLE table_name then
      match it !! lit "formulation_id" with
      | Some SNull | None =>
        match truthy_cell it (lit "_id") with
        | Some _id => Some (inr (lit "epoxy_" ++ str_of_key _id))
        | None => None
        end
      | Some formulation_id =>
        Some (inr (lit "epoxy_" ++ str_of_scalar formulation_id))
      end
    else None
  end.

Definition _query_database (filters table_name : json)
    : list pystr * gmap dict_key item * gmap dict_key item :=
  match query_table table_name filters with
  | inl _ => ([], ∅, ∅)
  | inr (QError _) => ([], ∅, ∅)
  | inr (QRows dois result) =>
    let query_data_dict :=
      fold_left (fun (m : gmap dict_key item) it =>
                   match row_key table_name it with
                   | Some key => <[key := it]> m
                   | None => m
                   end)
                result ∅ in
    match dois with
    | [] => (dois, query_data_dict, ∅)
    | _ =>
      match query_table METADATA_TABLE (paper_metadata_filters dois) with
      | inl _ => ([], ∅, ∅)
      | inr (QError _) => (dois, query_data_dict, ∅)
      | inr (QRows _ rows) => (dois, query_data_dict, index_by_doi rows)
      end
    end
  end.

(** The filters of one entry of [tables]: a list is unwrapped or folded into
    an AND group. *)
Definition table_filters_of (table_filters : json) : json :=
  match table_filters with
  | JArr [single] => single
  | JArr [] => JObj []
  | JArr l =>
    JObj [(lit "type", JNum 2);
          (lit "groupOperator", JStr (lit "and"));
          (lit "sub", JArr l)]
  | other => other
  end.

Definition candidates : Type :=
  (list pystr * gmap dict_key item * gmap dict_key item)%type.

(** The loop over [filters['tables']]. *)
Fixpoint query_tables (tables : list json) (acc : candidates) : exn + candidates :=
  match tables with
  | [] => inr acc
  | table_query :: rest =>
    match get (lit "table_name") DEFAULT_TABLE table_query with
    | inl e => inl e
    | inr table_name =>
      match get (lit "filters") (JObj []) table_query with
      | inl e => inl e
      | inr table_filters =>
        let '(table_dois, table_query_data, table_metadata) :=
          _query_database (table_filters_of table_filters) table_name in
        let '(all_dois, query_data_dict, metadata_dict) := acc in
        query_tables rest
          (all_dois ++ table_dois,
           table_query_data ∪ query_data_dict,
           table_metadata ∪ metadata_dict)
      end
    end
  end.

(** Step 2 of [query]: the identifiers, in the order [list(set(...))] gives
    for the multi-table form, and the two row maps. *)
Definition find_candidates (filters : json) : exn + candidates :=
  match filters with
  | JObj m =>
    match assoc (lit "tables") m with
    | Some tables =>
      match iterate tables with
      | inl e => inl e
      | inr table_list =>
        match query_tables table_list ([], ∅, ∅) with
        | inl e => inl e
        | inr (all_dois, query_data_dict, metadata_dict) =>
          inr (elements (list_to_set all_dois : gset pystr),
               query_data_dict, metadata_dict)
        end
      end
    | None => inr (_query_database (default filters (assoc (lit "filters") m)) DEFAULT_TABLE)
    end
  | _ => inr (_query_database filters DEFAULT_TABLE)
  end.

(** [k.startswith('epoxy_')]; only a [str] has the method. *)
Definition is_epoxy_key (k : dict_key) : bool :=
  match k with
  | inr s => startswith s (lit "epoxy_")
  | inl _ => false
  end.

Definition is_str_key (k : dict_key) : bool :=
  match k with
  | inr _ => true
  | inl _ => false
  end.

(** [{k: v for k, v in query_data_dict.items() if k.startswith('epoxy_')}];
    a key that is no [str] ends the comprehension with [AttributeError]. *)
Definition epoxy_entries_of (query_data_dict : gmap dict_key item)
    : exn + gmap dict_key item :=
  if forallb is_str_key (map fst (map_to_list query_data_dict))
  then inr (filter (fun kv => is_epoxy_key kv.1 = true) query_data_dict)
  else raise AttributeError (lit "'int' object has no attribute 'startswith'").

Variable read_literature_fulltext : pystr -> pystr.
Variable _generate_metadata_summary : pystr -> item -> pystr -> pystr.

(** The generation endpoint and the scheduler of [tools/utils.py]. *)
Variable endpoint : pystr -> Summaries.request -> Z -> Summaries.attempt_outcome.
Variable seconds : Type.
Variable elapsed : pystr -> seconds.
Variable format_seconds : seconds -> pystr.
Variable as_completed : list (Summaries.future seconds) -> list (Summaries.future seconds).

(** [prompts.py] and [config.py]. *)
Variable LITERATURE_SUMMARY_SYSTEM_PROMPT : pystr.
Variable get_literature_summary_user_prompt : pystr -> pystr -> exn + pystr.
Variable MAX_WORKERS LLM_API_TIMEOUT LLM_MAX_RETRIES : Z.

(** Step 5: rows for identifiers the first queries returned no data for. *)
Definition refill (missing_dois : list pystr)
    (query_data_dict metadata_dict : gmap dict_key item)
    : exn + gmap dict_key item * gmap dict_key item :=
  match missing_dois with
  | [] => inr (query_data_dict, metadata_dict)
  | _ =>
    match query_table METADATA_TABLE (paper_metadata_filters missing_dois) with
    | inl e => inl e
    | inr (QError _) => inr (query_data_dict, metadata_dict)
    | inr (QRows _ rows) =>
      inr (fold_left
             (fun (acc : gmap dict_key item * gmap dict_key item) paper =>
                match truthy_cell paper (lit "doi") with
                | Some doi =>
                  match acc.1 !! doi with
                  | None => (<[doi := paper]> acc.1, <[doi := paper]> acc.2)
                  | Some _ => acc
                  end
                | None => acc
                end)
             rows (query_data_dict, metadata_dict))
    end
  end.

(** [entry.get('formulation_id') or entry.get('_id', key)], as text. *)
Definition epoxy_identifier (key : dict_key) (entry : item) : pystr :=
  match entry !! lit "formulation_id" with
  | Some v =>
    if scalar_truthy v then str_of_scalar v
    else match entry !! lit "_id" with
         | Some _id => str_of_scalar _id
         | None => str_of_key key
         end
  | None => match entry !! lit "_id" with
            | Some _id => str_of_scalar _id
            | None => str_of_key key
            end
  end.

(** Step 4: the summaries of the documents that have a full text, at most
    [MAX_FULLTEXT_SUMMARIES] of them. *)
Definition fulltext_summaries (query_description : pystr)
    (dois_with_fulltext : list pystr) : exn + list pystr :=
  match dois_with_fulltext with
  | [] => inr []
  | _ =>
    match Summaries.generate_literature_summaries_parallel
            endpoint seconds elapsed format_seconds as_completed
            (firstn MAX_FULLTEXT_SUMMARIES dois_with_fulltext) query_description
            LITERATURE_SUMMARY_SYSTEM_PROMPT get_literature_summary_user_prompt
            read_literature_fulltext MAX_WORKERS LLM_API_TIMEOUT LLM_MAX_RETRIES with
    | inl e => inl e
    | inr literature_summaries => inr (map Summaries.summary literature_summaries)
    end
  end.

(** Steps 3 to 6 and the final status, for a candidate set that passed the
    emptiness test. *)
Definition summarise_candidates (query_description : pystr)
    (dois : list pystr)
    (query_data_dict metadata_dict epoxy_entries : gmap dict_key item)
    : exn + QueryResult :=
  let check_results :=
    map (fun doi => (doi, nonempty (read_literature_fulltext doi))) dois in
  let dois_with_fulltext :=
    map fst (List.filter (fun r : pystr * bool => r.2) check_results) in
  let dois_without_fulltext :=
    map fst (List.filter (fun r : pystr * bool => negb r.2) check_results) in
  match fulltext_summaries query_description dois_with_fulltext with
  | inl e => inl e
  | inr full =>
    let missing_dois :=
      List.filter (fun doi : pystr => bool_decide (query_data_dict !! inr doi = None))
                  dois_without_fulltext in
    match refill missing_dois query_data_dict metadata_dict with
    | inl e => inl e
    | inr (query_data_dict, metadata_dict) =>
      let digest (doi : pystr) :=
        let query_data := default ∅ (query_data_dict !! inr doi) in
        let paper_metadata := default ∅ (metadata_dict !! inr doi) in
        _generate_metadata_summary doi (paper_metadata ∪ query_data) query_description in
      let digests := List.filter nonempty (map digest dois_without_fulltext) in
      let epoxy :=
        List.filter nonempty
          (map (fun kv : dict_key * item =>
                  _generate_metadata_summary
                    (lit "环氧表条目_" ++ epoxy_identifier kv.1 kv.2) kv.2 query_description)
               (map_to_list epoxy_entries)) in
      let summary_texts := full ++ digests ++ epoxy in
      match summary_texts with
      | [] => inr {| summaries := []; code := StatusCode.NO_LITERATURE |}
      | _ => inr {| summaries := summary_texts; code := StatusCode.SUCCESS |}
      end
    end
  end.

(** The body of the [try] of [query]. *)
Definition query_body (query_description : pystr) (filters : option json)
    : exn + QueryResult :=
  match filters with
  | None => inr {| summaries := []; code := StatusCode.OTHER_ERROR |}
  | Some filters =>
    if negb (truthy filters)
    then inr {| summaries := []; code := StatusCode.OTHER_ERROR |}
    else
      match find_candidates filters with
      | inl e => inl e
      | inr (dois, query_data_dict, metadata_dict) =>
        match epoxy_entries_of query_data_dict with
        | inl e => inl e
        | inr epoxy_entries =>
          if negb (nonempty dois) && bool_decide (epoxy_entries = ∅)
          then inr {| summaries := []; code := StatusCode.NO_RESULTS |}
          else summarise_candidates query_description dois
                 query_data_dict metadata_dict epoxy_entries
        end
      end
  end.

(** [query]: any exception becomes [OTHER_ERROR].  [reply] is what the
    translation request of [_convert_query_to_filters] produced. *)
Definition query (query_description : pystr) (reply : exn + json) : QueryResult :=
  match query_body query_description (_convert_query_to_filters reply) with
  | inr result => result
  | inl _ => {| summaries := []; code := StatusCode.OTHER_ERROR |}
  end.

End WithStore.

End StructuredSearchSystem.

(** ** The reply text handed to [json.loads] in [_convert_query_to_filters] *)

Module FilterText.

(** A literal separator as a matcher: it matches where the text starts
    with it. *)
Definition literal_matcher (sep : pystr) (t : pystr) : option nat :=
  if startswith t sep then Some (length sep) else None.

(** [s.split(sep)] for a non-empty [sep]. *)
Definition split (s sep : pystr) : list pystr :=
  re_split (literal_matcher sep) false s.

Definition FENCE : pystr := lit "```".

(** The statements between [result['choices'][0]['message']['content']] and
    [json.loads]: a leading markdown fence and its [json] tag are removed. *)
Definition filters_text (content : pystr) : exn + pystr :=
  let filters_text := strip content in
  if startswith filters_text FENCE then
    match FAISSVectorStore.getitem (split filters_text FENCE) 1 with
    | inl e => inl e
    | inr filters_text =>
      let filters_text :=
        if startswith filters_text (lit "json") then slice_from filters_text 4
        else filters_text in
      inr (strip filters_text)
    end
  else inr filters_text.

End FilterText.

(** ** domains/stainless_steel/server/server.py *)

Module RAGSystem.

Record QueryResult := {
  summaries : list pystr;
  code : Z
}.

Section WithComponents.

(** The retrieval components. *)
Variable float : Type.
Variable fle : float -> float -> bool.
Variable inf : float.
Variable astype_float32 : float -> float.
Variable faiss_search :
  FAISSVectorStore.faiss_index float -> FAISSVectorStore.ndarray float -> Z
  -> exn + list (float * Z).
Variable model_batch : list pystr -> Z -> bool -> list (list float).
Variable hidden_size : Z.

(** The generation endpoint and the scheduler of [tools/utils.py]. *)
Variable endpoint : pystr -> Summaries.request -> Z -> Summaries.attempt_outcome.
Variable seconds : Type.
Variable elapsed : pystr -> seconds.
Variable format_seconds : seconds -> pystr.
Variable as_completed : list (Summaries.future seconds) -> list (Summaries.future seconds).

(** [prompts.py], [utils.py] and [config.py] of the domain. *)
Variable LITERATURE_SUMMARY_SYSTEM_PROMPT : pystr.
Variable get_literature_summary_user_prompt : pystr -> pystr -> exn + pystr.
Variable read_literature_fulltext : pystr -> pystr.
Variables MAX_WORKERS LLM_API_TIMEOUT LLM_MAX_RETRIES : Z.

(** The store and the chunk table loaded by [__init__]. *)
Variable vector_store : FAISSVectorStore.store float.
Variable database : ChunkDatabase.table.

(** [list(set([chunk['file_id'] for chunk in chunks]))] *)
Definition unique_file_ids (chunks : list (Retriever.hit float)) : list pystr :=
  elements (list_to_set (map (fun chunk => TextChunker.file_id (Retriever.chunk float chunk))
                             chunks) : gset pystr).

(** The body of the [try] of [query]. *)
Definition query_try (question : pystr) (top_k : Z) : exn + QueryResult :=
  match Retriever.retrieve float fle inf astype_float32 faiss_search model_batch
          hidden_size vector_store database question top_k with
  | inl e => inl e
  | inr chunks =>
    if negb (nonempty chunks)
    then inr {| summaries := []; code := StatusCode.NO_RESULTS |}
    else
      match Summaries.generate_literature_summaries_parallel
              endpoint seconds elapsed format_seconds as_completed
              (unique_file_ids chunks) question
              LITERATURE_SUMMARY_SYSTEM_PROMPT get_literature_summary_user_prompt
              read_literature_fulltext MAX_WORKERS LLM_API_TIMEOUT LLM_MAX_RETRIES with
      | inl e => inl e
      | inr literature_summaries =>
        if negb (nonempty literature_summaries)
        then inr {| summaries := []; code := StatusCode.NO_LITERATURE |}
        else inr {| summaries := map Summaries.summary literature_summaries;
                    code := StatusCode.SUCCESS |}
      end
  end.

(** [query]: any exception becomes [OTHER_ERROR]. *)
Definition query (question : pystr) (top_k : Z) : QueryResult :=
  match query_try question top_k with
  | inr result => result
  | inl _ => {| summaries := []; code := StatusCode.OTHER_ERROR |}
  end.

(** The MCP tool. *)
Definition query_steelkb_literature (question : pystr) (top_k : Z) : QueryResult :=
  let top_k := Z.min top_k 20 in
  query question top_k.

End WithComponents.

End RAGSystem.

(** ** Concrete inputs used by the examples below *)

Module Examples.

Import TextChunker.

(** A chunker with small windows, so that short texts already overflow. *)
Definition small_config : config :=
  {| chunk_size := 4; overlap_size := 3; min_chunk_size := 0 |}.

(** Seven paragraphs; the first three are repeated at the end. *)
Definition repeated_text : pystr := lit "
a

b

cccccc

xx

a

b

cccccc".

Definition short_text : pystr := lit "first paragraph

second paragraph".

Definition doc : pystr := lit "doc".

(** Artifacts written by different runs: two vectors, one identifier. *)
Definition index_path : pystr := lit "faiss.index".
Definition metadata_path : pystr := lit "chunk_ids.pkl".

Definition two_vectors : FAISSVectorStore.faiss_index Z :=
  {| FAISSVectorStore.d := 2; FAISSVectorStore.xb := [[1; 2]; [3; 4]] |}.

Definition mismatched_files : FAISSVectorStore.filesystem Z :=
  <[metadata_path := FAISSVectorStore.PickleFile Z [lit "doc_chunk_0"]]>
    (<[index_path := FAISSVectorStore.IndexFile Z two_vectors]> ∅).

Definition two_rows : FAISSVectorStore.ndarray Z :=
  {| FAISSVectorStore.ncols := 2; FAISSVectorStore.rows := [[1; 2]; [3; 4]] |}.

Definition two_ids : list pystr := [lit "doc_chunk_0"; lit "doc_chunk_1"].

(** A stand-in for the embedding model: one coordinate, the length of the
    text it is given. *)
Definition length_model (texts : list pystr) (max_length : Z) (normalize : bool)
    : list (list Z) :=
  map (fun t => [len t]) texts.

(** An endpoint that fails twice with a network error, then answers. *)
Definition timed_out : exn :=
  {| cls := RequestException; msg := lit "Read timed out." |}.

Definition flaky_post (attempt : Z) : Summaries.attempt_outcome :=
  if attempt <? 3 then Summaries.RaisesRequestException timed_out
  else Summaries.Content (lit "summary").

(** An endpoint that is down for document [b] and answers for the others. *)
Definition down_for_b (file_id : pystr) (r : Summaries.request) (attempt : Z)
    : Summaries.attempt_outcome :=
  if str_eqb file_id (lit "b") then Summaries.RaisesRequestException timed_out
  else Summaries.Content (lit "summary of " ++ file_id).

Definition prompt_of (question fulltext : pystr) : exn + pystr :=
  inr (question ++ fulltext).

Definition fulltext_of (file_id : pystr) : pystr :=
  if str_eqb file_id (lit "c") then [] else lit "full text of " ++ file_id.

End Examples.

(** ** Vocabulary of the statements about [core/chunker.py] *)

Module ChunkSpec.

Import TextChunker.

(** Sum of the per-unit estimates of a buffer. *)
Definition units_tokens (units : list pystr) : Z :=
  fold_right Z.add 0 (map _estimate_tokens units).

Definition span_ok (c : chunk) : Prop :=
  end_char c - start_char c = len (text c).

(** What the loop records: the chunk's text is the join of some units and
    its count is the sum of their estimates. *)
Definition tokens_ok (c : chunk) : Prop :=
  exists units, text c = join SEP units /\ token_count c = units_tokens units.

Definition tokens_inv (st : locals) : Prop :=
  Forall tokens_ok (chunks st)
  /\ current_chunk_tokens st = units_tokens (current_chunk st).

(** Length of the join, counting a separator after every unit. *)
Definition padded_length (units : list pystr) : nat :=
  fold_right (fun u acc => length u + 2 + acc)%nat 0%nat units.

End ChunkSpec.

(** ** Vocabulary of the statements about [core/vector_store.py] *)

Module StoreSpec.

Import FAISSVectorStore.

(** The pairing the comment on [chunk_ids] describes: one identifier per
    stored vector. *)
Definition aligned {float : Type} (s : store float) : Prop :=
  get_total_vectors float s = Z.of_nat (length (chunk_ids float s)).

End StoreSpec.

(** A store of three vectors, a chunk table that lacks the third chunk, and
    a search kernel that reports fixed hits, with the integers standing in
    for floats. *)
Module RetrievalExample.

Definition c0 : pystr := lit "doc_chunk_0".
Definition c1 : pystr := lit "doc_chunk_1".
Definition c2 : pystr := lit "doc_chunk_2".

Definition vs : FAISSVectorStore.store Z :=
  {| FAISSVectorStore.embedding_dim := 1;
     FAISSVectorStore.index :=
       Some {| FAISSVectorStore.d := 1; FAISSVectorStore.xb := [[1]; [2]; [3]] |};
     FAISSVectorStore.chunk_ids := [c0; c1; c2] |}.

Definition row_with (t : pystr) : ChunkDatabase.row :=
  {| ChunkDatabase.r_file_id := Examples.doc; ChunkDatabase.r_chunk_index := 0;
     ChunkDatabase.r_text := t; ChunkDatabase.r_start_char := 0;
     ChunkDatabase.r_end_char := len t; ChunkDatabase.r_token_count := 0 |}.

Definition db : ChunkDatabase.table :=
  <[c1 := row_with (lit "beta")]> (<[c0 := row_with (lit "alpha")]> ∅).

Definition fixed_hits (i : FAISSVectorStore.faiss_index Z) (q : FAISSVectorStore.ndarray Z)
    (k : Z) : exn + list (Z * Z) :=
  inr [(5, 1); (7, 2); (2, 0)].

End RetrievalExample.

(** ** Vocabulary of the statements about the structured query *)

Module QuerySpec.

Import StructuredSearchSystem.

(** A reply that contributes no candidate: an exception, an [error] entry,
    or neither identifiers nor rows. *)
Definition silent (reply : exn + table_reply) : Prop :=
  match reply with
  | inr (QRows papers result) => papers = [] /\ result = []
  | _ => True
  end.

End QuerySpec.

(** A relational store without any matching row, and a translated query
    in the legacy single-filter form. *)
Module QueryExample.

Definition empty_store (table_name filters : StructuredSearchSystem.json)
    : exn + StructuredSearchSystem.table_reply :=
  inr (StructuredSearchSystem.QRows [] []).

Definition legacy_reply : exn + StructuredSearchSystem.json :=
  inr (StructuredSearchSystem.JObj [(lit "type", StructuredSearchSystem.JNum 1);
                    (lit "field", StructuredSearchSystem.JStr (lit "polymer_type"));
                    (lit "operator", StructuredSearchSystem.JStr (lit "like"));
                    (lit "value", StructuredSearchSystem.JStr (lit "epoxy"))]).

Definition no_digest (doi : pystr) (entry : StructuredSearchSystem.item) (query : pystr) : pystr :=
  lit "digest".

(** A store that matches one row in every table: no [doi], an integer
    [_id], and no paper identifier. *)
Definition numbered_row : StructuredSearchSystem.item :=
  <[lit "_id" := StructuredSearchSystem.SInt 7]>
    (<[lit "doi" := StructuredSearchSystem.SNull]> ∅).

Definition one_row_store (table_name filters : StructuredSearchSystem.json)
    : exn + StructuredSearchSystem.table_reply :=
  inr (StructuredSearchSystem.QRows [] [numbered_row]).

(** A store that matches two rows in every table, the numbered one and
    one with a [doi], and reports no paper identifier. *)
Definition doi_row : StructuredSearchSystem.item :=
  <[lit "doi" := StructuredSearchSystem.SStr (lit "10.1000/resin")]> ∅.

Definition rows_without_papers (table_name filters : StructuredSearchSystem.json)
    : exn + StructuredSearchSystem.table_reply :=
  inr (StructuredSearchSystem.QRows [] [numbered_row; doi_row]).

(** A translated query on the table of epoxy formulations. *)
Definition epoxy_reply : exn + StructuredSearchSystem.json :=
  inr (StructuredSearchSystem.JObj
         [(lit "tables",
           StructuredSearchSystem.JArr
             [StructuredSearchSystem.JObj
                [(lit "table_name", StructuredSearchSystem.JStr (lit "677df00"));
                 (lit "filters", StructuredSearchSystem.JObj [])]])]).

End QueryExample.

(** ** Vocabulary of the statements about [tools/utils.py] *)

Module RetryTrace.

Import Summaries.

Definition is_post (e : event) : bool :=
  match e with Post _ => true | Sleep _ => false end.

(** Number of requests sent. *)
Definition attempts_made (trace : list event) : nat :=
  length (List.filter is_post trace).

(** Attempts [a], ..., [k - 1], each followed by a sleep of as many seconds
    as its index. *)
Definition retries_before (a k : Z) : list event :=
  flat_map (fun j => [Post j; Sleep j]) (range a k).

(** The failures the specification calls fatal and not to be retried,
    authentication and validation failures: the statuses by which an
    endpoint rejects the key (401, 403) or the request (400, 422). *)
Definition fatal (f : failure) : bool :=
  match f with
  | HTTPError status_code _ =>
    (status_code =? 400) || (status_code =? 401) || (status_code =? 403)
    || (status_code =? 422)
  | _ => false
  end.

(** An endpoint that rejects the API key at every attempt. *)
Definition unauthorized : failure :=
  HTTPError 401 (lit "401 Client Error: Unauthorized for url").

(** An endpoint that times out twice, then answers. *)
Definition flaky_reply (attempt : Z) : pystr + failure :=
  if attempt <? 3 then inr (ReadTimeout (lit "Read timed out."))
  else inl (lit "summary").

End RetryTrace.

(** ** Inputs and vocabulary of the further properties *)

Module MoreExamples.

Import TextChunker.

Definition blank_text : pystr := lit "

   ".

(** Two paragraphs without any sentence punctuation. *)
Definition unpunctuated_text : pystr := lit "aaaaaaaa

bbbbbbbbbbbb".

(** A chunk whose token count does not fit a 64-bit integer. *)
Definition oversized_count : TextChunker.chunk :=
  {| chunk_id := lit "doc_chunk_9"; file_id := Examples.doc; chunk_index := 9;
     text := lit "omega"; start_char := 0; end_char := 5;
     token_count := 2 ^ 63 |}.

(** A search kernel that reports the first [k] of three fixed hits. *)
Definition nearest_hits (i : FAISSVectorStore.faiss_index Z)
    (q : FAISSVectorStore.ndarray Z) (k : Z) : exn + list (Z * Z) :=
  inr (firstn (Z.to_nat k) [(2, 0); (5, 1); (7, 2)]).

End MoreExamples.

Module MoreSpec.

Import TextChunker.

(** The chunks recorded so far are numbered from 0 and named after the
    document. *)
Definition numbered (fid : pystr) (st : locals) : Prop :=
  next_index st = Z.of_nat (length (chunks st))
  /\ map chunk_index (chunks st) = map Z.of_nat (seq 0 (length (chunks st)))
  /\ Forall (fun c => file_id c = fid
                      /\ chunk_id c = fid ++ lit "_chunk_" ++ str_of_int (chunk_index c))
            (chunks st).

(** A chunk all of whose columns [sqlite3] can bind. *)
Definition bindable (c : TextChunker.chunk) : Prop :=
  ChunkDatabase.encodable (chunk_id c) = true
  /\ ChunkDatabase.encodable (file_id c) = true
  /\ ChunkDatabase.encodable (text c) = true
  /\ Forall (fun z => - 2 ^ 63 <= z < 2 ^ 63)
            [chunk_index c; start_char c; end_char c; token_count c].

(** A chunk of text columns that bind and an integer column that does not
    fit 64 bits. *)
Definition overflows (c : TextChunker.chunk) : Prop :=
  ChunkDatabase.encodable (chunk_id c) = true
  /\ ChunkDatabase.encodable (file_id c) = true
  /\ ChunkDatabase.encodable (text c) = true
  /\ Exists (fun z => ~ (- 2 ^ 63 <= z < 2 ^ 63))
            [chunk_index c; start_char c; end_char c; token_count c].

(** The last chunk of a batch written under a key. *)
Definition last_with_id (id : pystr) (cs : list TextChunker.chunk)
    : option TextChunker.chunk :=
  List.find (fun c => bool_decide (TextChunker.chunk_id c = id)) (rev cs).

(** One call of a mutator of the vector store. *)
Inductive update (float : Type) :=
  | Build (embeddings : FAISSVectorStore.ndarray float) (ids : list pystr)
  | Add (embeddings : FAISSVectorStore.ndarray float) (ids : list pystr).

(** The store a call leaves behind, whether it returns or raises. *)
Definition apply_update {float : Type} (astype_float32 : float -> float)
    (s : FAISSVectorStore.store float) (u : update float)
    : FAISSVectorStore.store float :=
  match u with
  | Build _ embeddings ids =>
    (FAISSVectorStore.build_index float astype_float32 s embeddings ids).1
  | Add _ embeddings ids =>
    (FAISSVectorStore.add_vectors float astype_float32 s embeddings ids).1
  end.

(** Seconds slept in a trace of [call_llm_api]. *)
Definition total_sleep (trace : list Summaries.event) : Z :=
  fold_right (fun e acc => match e with
                           | Summaries.Sleep seconds => seconds + acc
                           | Summaries.Post _ => acc
                           end) 0 trace.

(** The three ways a reply can be empty, and the one way it is not. *)
Definition well_formed_reply (r : StructuredSearchSystem.QueryResult) : Prop :=
  (StructuredSearchSystem.code r = StatusCode.SUCCESS
   /\ StructuredSearchSystem.summaries r <> [])
  \/ (StructuredSearchSystem.summaries r = []
      /\ (StructuredSearchSystem.code r = StatusCode.NO_RESULTS
          \/ StructuredSearchSystem.code r = StatusCode.NO_LITERATURE
          \/ StructuredSearchSystem.code r = StatusCode.OTHER_ERROR)).

(** The character a markdown fence is made of. *)
Definition backtick : char := 96%N.

End MoreSpec.

(** * Properties of the chunker *)

Module ChunkerProofs.

Import TextChunker ChunkSpec.

(** The estimate is monotone in the length and never negative. *)
Lemma estimate_nonneg s : 0 <= _estimate_tokens s.
Proof.
  unfold _estimate_tokens, len. apply Z.div_pos; lia.
Qed.

Lemma estimate_mono s t :
  (length s <= length t)%nat -> _estimate_tokens s <= _estimate_tokens t.
Proof.
  intros H. unfold _estimate_tokens, len.
  apply Z.div_le_mono; lia.
Qed.

Lemma estimate_app s t :
  _estimate_tokens s + _estimate_tokens t <= _estimate_tokens (s ++ t).
Proof.
  unfold _estimate_tokens, len. rewrite length_app.
  apply Z.div_le_lower_bound; [lia|].
  pose proof (Z.mul_div_le (Z.of_nat (length s) * 3) 4).
  pose proof (Z.mul_div_le (Z.of_nat (length t) * 3) 4).
  lia.
Qed.

Lemma units_tokens_app a b :
  units_tokens (a ++ b) = units_tokens a + units_tokens b.
Proof.
  unfold units_tokens. induction a as [|x a IH]; simpl; [lia|].
  fold (units_tokens (a ++ b)) in *. unfold units_tokens in *. lia.
Qed.

Lemma units_tokens_nonneg units : 0 <= units_tokens units.
Proof.
  unfold units_tokens. induction units as [|u units IH]; simpl; [lia|].
  pose proof (estimate_nonneg u). lia.
Qed.

Lemma join_cons sep p q rest :
  join sep (p :: q :: rest) = p ++ sep ++ join sep (q :: rest).
Proof. reflexivity. Qed.

(** The running total never exceeds the estimate of the joined text. *)
Lemma units_tokens_le_join units :
  units_tokens units <= _estimate_tokens (join SEP units).
Proof.
  induction units as [|p [|q rest] IH].
  - apply (estimate_nonneg []).
  - change (_estimate_tokens p + 0 <= _estimate_tokens p). lia.
  - rewrite join_cons.
    change (units_tokens (p :: q :: rest))
      with (_estimate_tokens p + units_tokens (q :: rest)).
    pose proof (estimate_app p (SEP ++ join SEP (q :: rest))).
    pose proof (estimate_mono (join SEP (q :: rest)) (SEP ++ join SEP (q :: rest))) as Hm.
    rewrite length_app in Hm. specialize (Hm ltac:(lia)). lia.
Qed.

(** *** A generic invariant of the chunking loop *)

Section LoopInvariant.

Variable Inv : locals -> Prop.
Hypothesis Inv_emit : forall fid st, Inv st -> Inv (emit fid st).
Hypothesis Inv_seed : forall cfg text st, Inv st -> Inv (seed_overlap cfg text st).
Hypothesis Inv_reset : forall z st, Inv st -> Inv (reset_buffer z st).
Hypothesis Inv_push :
  forall u st, Inv st -> Inv (push_unit u (_estimate_tokens u) st).
Hypothesis Inv_start : forall z st, Inv st -> Inv (set_start z st).

Lemma Inv_sentence_step cfg text fid st sentence :
  Inv st -> Inv (sentence_step cfg text fid st sentence).
Proof using All.
  intros H. unfold sentence_step.
  match goal with |- context [push_unit _ _ ?s] => assert (Inv s) as H1 end.
  { repeat match goal with |- context [if ?b then _ else _] => destruct b end;
      auto. }
  destruct (_ =? 0); auto.
Qed.

Lemma Inv_sentences cfg text fid sentences st :
  Inv st -> Inv (fold_left (sentence_step cfg text fid) sentences st).
Proof using All.
  revert st. induction sentences as [|s rest IH]; simpl; intros st H; [exact H|].
  apply IH, Inv_sentence_step, H.
Qed.

Lemma Inv_paragraph_step cfg text fid st para :
  Inv st -> Inv (paragraph_step cfg text fid st para).
Proof using All.
  intros H. unfold paragraph_step.
  destruct (_ >? _).
  - apply Inv_sentences. destruct (nonempty _); auto.
  - destruct (_ <=? _).
    + destruct (_ || _); auto.
    + match goal with |- context [push_unit _ _ ?s] => assert (Inv s) as H1 end.
      { destruct (nonempty _); auto. }
      destruct (_ =? 0); auto.
Qed.

Lemma Inv_run_loop cfg text fid :
  Inv init_locals -> Inv (run_loop cfg text fid).
Proof using All.
  unfold run_loop. generalize (_split_into_paragraphs text), init_locals.
  intros ps. induction ps as [|p ps IH]; simpl; intros st H; [exact H|].
  apply IH, Inv_paragraph_step, H.
Qed.

End LoopInvariant.

(** The chunks returned are those of the loop, possibly with one more
    emitted from a state the loop reached. *)
Lemma finish_chunks cfg fid st :
  finish cfg fid st = chunks st \/ finish cfg fid st = chunks (emit fid st).
Proof.
  unfold finish. destruct (nonempty _); auto. destruct (_ >=? _); auto.
Qed.

Lemma chunk_text_invariant (P : chunk -> Prop) (Inv : locals -> Prop) :
  (forall fid st, Inv st -> Inv (emit fid st)) ->
  (forall cfg text st, Inv st -> Inv (seed_overlap cfg text st)) ->
  (forall z st, Inv st -> Inv (reset_buffer z st)) ->
  (forall u st, Inv st -> Inv (push_unit u (_estimate_tokens u) st)) ->
  (forall z st, Inv st -> Inv (set_start z st)) ->
  Inv init_locals ->
  (forall st, Inv st -> Forall P (chunks st)) ->
  forall cfg text fid, Forall P (chunk_text cfg text fid).
Proof.
  intros He Hs Hr Hp Hst H0 HP cfg text fid. unfold chunk_text.
  pose proof (Inv_run_loop Inv He Hs Hr Hp Hst cfg text fid H0) as Hl.
  destruct (finish_chunks cfg fid (run_loop cfg text fid)) as [-> | ->]; auto.
Qed.

(** *** Recorded spans *)

(** C10: for every chunk emitted by [chunk_text], for every input text and
    every parameter setting, [end_char - start_char] equals the number of
    characters of the chunk's [text]. *)
Theorem chunk_span_matches_text cfg doc_text fid c :
  In c (chunk_text cfg doc_text fid) ->
  end_char c - start_char c = len (text c).
Proof.
  intros Hin.
  cut (Forall span_ok (chunk_text cfg doc_text fid)).
  { intros HF. rewrite List.Forall_forall in HF. exact (HF c Hin). }
  apply chunk_text_invariant with (Inv := fun st => Forall span_ok (chunks st));
    try (intros; assumption); try (intros; simpl; assumption).
  - intros fid' st H. simpl. apply Forall_app. split; [exact H|].
    constructor; [|constructor]. unfold span_ok. simpl. lia.
  - constructor.
Qed.

Lemma chunk_span_matches_text_witness :
  exists c, In c (chunk_text Examples.small_config Examples.repeated_text Examples.doc)
            /\ start_char c = 9 /\ end_char c = 23
            /\ end_char c - start_char c = len (text c).
Proof.
  eexists. split; [vm_compute; right; left; reflexivity|].
  split; [reflexivity|]. split; [reflexivity|].
  apply (chunk_span_matches_text Examples.small_config Examples.repeated_text Examples.doc).
  vm_compute. right; left; reflexivity.
Defined.

(** *** Token counts *)

Lemma tokens_inv_emit fid st : tokens_inv st -> tokens_inv (emit fid st).
Proof.
  intros [HF Hb]. split; simpl; [|exact Hb].
  apply Forall_app. split; [exact HF|].
  constructor; [|constructor].
  exists (current_chunk st). simpl. auto.
Qed.

Lemma tokens_inv_seed cfg doc_text st :
  tokens_inv st -> tokens_inv (seed_overlap cfg doc_text st).
Proof.
  intros [HF Hb]. split; simpl; [exact HF|].
  destruct (_get_overlap_text _ _ _) as [|c ov]; simpl.
  - reflexivity.
  - unfold units_tokens. simpl. lia.
Qed.

Lemma tokens_inv_push u st :
  tokens_inv st -> tokens_inv (push_unit u (_estimate_tokens u) st).
Proof.
  intros [HF Hb]. split; simpl; [exact HF|].
  rewrite units_tokens_app, Hb. unfold units_tokens. simpl. lia.
Qed.

Lemma chunk_text_tokens cfg doc_text fid :
  Forall tokens_ok (chunk_text cfg doc_text fid).
Proof.
  apply chunk_text_invariant with (Inv := tokens_inv).
  - apply tokens_inv_emit.
  - apply tokens_inv_seed.
  - intros z st [HF Hb]. split; simpl; auto.
  - apply tokens_inv_push.
  - intros z st [HF Hb]. split; simpl; auto.
  - split; [constructor | reflexivity].
  - intros st [HF _]. exact HF.
Qed.

(** C3, as the code has it: the [token_count] of every emitted chunk is
    non-negative and is the sum of the estimates [int(len(u) * 0.75)] of the
    units [u] (overlap seed, paragraphs, sentences) whose join is the
    chunk's text; it never exceeds the estimate of the text itself. *)
Theorem token_count_sums_unit_estimates cfg doc_text fid c :
  In c (chunk_text cfg doc_text fid) ->
  0 <= token_count c
  /\ (exists units, text c = join SEP units
                    /\ token_count c = units_tokens units)
  /\ token_count c <= _estimate_tokens (text c).
Proof.
  intros Hin.
  pose proof (chunk_text_tokens cfg doc_text fid) as HF.
  rewrite List.Forall_forall in HF.
  destruct (HF c Hin) as (units & Ht & Hc).
  split; [rewrite Hc; apply units_tokens_nonneg|].
  split; [exists units; auto|].
  rewrite Hc, Ht. apply units_tokens_le_join.
Qed.

Lemma token_count_sums_unit_estimates_witness :
  exists c, In c (chunk_text Examples.small_config Examples.repeated_text Examples.doc)
            /\ token_count c = 7
            /\ 0 <= token_count c
            /\ (exists units, text c = join SEP units
                              /\ token_count c = units_tokens units)
            /\ token_count c <= _estimate_tokens (text c).
Proof.
  eexists. split; [vm_compute; right; right; left; reflexivity|].
  split; [reflexivity|].
  apply (token_count_sums_unit_estimates
           Examples.small_config Examples.repeated_text Examples.doc).
  vm_compute. right; right; left; reflexivity.
Defined.

(** C3 as stated fails: one call emits two chunks with the same text and
    different counts (4 and 7), neither of them the estimate of that text
    (9). *)
Lemma equal_text_different_token_count :
  let cs := chunk_text Examples.small_config Examples.repeated_text Examples.doc in
  exists c1 c2,
    nth_error cs 0 = Some c1 /\ nth_error cs 2 = Some c2
    /\ text c1 = text c2
    /\ token_count c1 = 4 /\ token_count c2 = 7
    /\ _estimate_tokens (text c1) = 9.
Proof.
  vm_compute. do 2 eexists. repeat split; reflexivity.
Qed.

(** *** The trailing buffer *)

Lemma lstrip_length s : (length (lstrip s) <= length s)%nat.
Proof.
  induction s as [|c s IH]; simpl; [lia|].
  destruct (isspace c); simpl; lia.
Qed.

Lemma strip_length s : (length (strip s) <= length s)%nat.
Proof.
  unfold strip, rstrip. rewrite length_rev.
  pose proof (lstrip_length (rev (lstrip s))) as H.
  rewrite length_rev in H. pose proof (lstrip_length s). lia.
Qed.

Lemma take_while_length p s : (length (take_while p s) <= length s)%nat.
Proof.
  induction s as [|c s IH]; simpl; [lia|].
  destruct (p c); simpl; lia.
Qed.

Lemma last_index_lt c s j : last_index c s = Some j -> (j < length s)%nat.
Proof.
  revert j. induction s as [|x s IH]; simpl; intros j H; [discriminate|].
  destruct (last_index c s) as [k|].
  - injection H as <-. specialize (IH k eq_refl). lia.
  - destruct (char_eqb x c); [injection H as <-; lia | discriminate].
Qed.

(** A blank-line separator has at least two characters and lies within the
    text. *)
Lemma match_blank_line_bounds s n :
  match_blank_line s = Some n -> (2 <= n <= length s)%nat.
Proof.
  unfold match_blank_line. destruct s as [|c rest]; [discriminate|].
  destruct (char_eqb c NL); [|discriminate].
  destruct (last_index NL (take_while isspace rest)) as [j|] eqn:E; [|discriminate].
  intros [= <-]. apply last_index_lt in E.
  pose proof (take_while_length isspace rest). simpl. lia.
Qed.

Lemma join_padded units :
  units <> [] -> (length (join SEP units) + 2 = padded_length units)%nat.
Proof.
  induction units as [|p [|q rest] IH]; intros Hne; [congruence| simpl; lia |].
  rewrite join_cons, !length_app.
  change (padded_length (p :: q :: rest))
    with (length p + 2 + padded_length (q :: rest))%nat.
  specialize (IH ltac:(discriminate)). simpl length at 2. lia.
Qed.

Lemma padded_filter f units :
  (padded_length (List.filter f units) <= padded_length units)%nat.
Proof.
  induction units as [|u units IH]; simpl; [lia|].
  destruct (f u); simpl; lia.
Qed.

Lemma padded_strip units :
  (padded_length (map strip units) <= padded_length units)%nat.
Proof.
  induction units as [|u units IH]; simpl; [lia|].
  pose proof (strip_length u). lia.
Qed.

Lemma padded_re_split s : forall skip cur,
  (padded_length (re_split_aux match_blank_line false s skip cur)
   <= length cur + (length s - skip) + 2)%nat.
Proof.
  induction s as [|c s IH]; intros skip cur.
  - simpl. rewrite length_rev. lia.
  - cbn [re_split_aux]. destruct skip as [|k].
    + destruct (match_blank_line (c :: s)) as [[|m]|] eqn:E.
      * specialize (IH 0%nat (c :: cur)). simpl in *. lia.
      * apply match_blank_line_bounds in E.
        specialize (IH m []).
        cbn [app padded_length fold_right]. fold (padded_length (re_split_aux match_blank_line false s m [])).
        rewrite length_rev. simpl in *. lia.
      * specialize (IH 0%nat (c :: cur)). simpl in *. lia.
    + specialize (IH k cur). simpl in *. lia.
Qed.

(** The paragraphs, joined again, are no longer than the text. *)
Lemma paragraphs_join_length doc_text :
  (length (join SEP (_split_into_paragraphs doc_text)) <= length doc_text)%nat.
Proof.
  destruct (_split_into_paragraphs doc_text) as [|p ps] eqn:E; [simpl; lia|].
  pose proof (join_padded (p :: ps) ltac:(discriminate)) as Hj.
  rewrite <- E in *. unfold _split_into_paragraphs in *.
  pose proof (padded_filter nonempty (map strip (re_split match_blank_line false doc_text))).
  pose proof (padded_strip (re_split match_blank_line false doc_text)).
  pose proof (padded_re_split doc_text 0 []) as Hs.
  unfold re_split in *. simpl in Hs. unfold pystr, char in *. lia.
Qed.

(** While everything fits into one buffer, the loop only appends. *)
Lemma loop_only_appends cfg doc_text fid : forall todo st,
  chunks st = [] ->
  current_chunk_tokens st = units_tokens (current_chunk st) ->
  units_tokens (current_chunk st ++ todo) <= chunk_size cfg ->
  let st' := fold_left (paragraph_step cfg doc_text fid) todo st in
  chunks st' = [] /\ current_chunk st' = current_chunk st ++ todo.
Proof.
  induction todo as [|p todo IH]; intros st Hc Ht Hfit; simpl.
  - rewrite app_nil_r. auto.
  - rewrite units_tokens_app in Hfit.
    change (units_tokens (p :: todo))
      with (_estimate_tokens p + units_tokens todo) in Hfit.
    pose proof (units_tokens_nonneg todo).
    pose proof (units_tokens_nonneg (current_chunk st)).
    pose proof (estimate_nonneg p).
    assert (exists st1, paragraph_step cfg doc_text fid st p = st1
              /\ chunks st1 = []
              /\ current_chunk st1 = current_chunk st ++ [p]
              /\ current_chunk_tokens st1 = current_chunk_tokens st + _estimate_tokens p)
      as (st1 & -> & Hc1 & Hb1 & Ht1).
    { eexists. split; [reflexivity|]. unfold paragraph_step.
      rewrite Z.gtb_ltb.
      destruct (Z.ltb_spec (chunk_size cfg) (_estimate_tokens p)); [lia|].
      destruct (Z.leb_spec (current_chunk_tokens st + _estimate_tokens p) (chunk_size cfg));
        [|lia].
      destruct (_ || _); simpl; auto. }
    specialize (IH st1 Hc1).
    rewrite Hb1, <- app_assoc in IH. simpl in IH. apply IH.
    + rewrite Ht1, Ht, units_tokens_app. unfold units_tokens. simpl. lia.
    + rewrite units_tokens_app.
      change (units_tokens (p :: todo))
        with (_estimate_tokens p + units_tokens todo). lia.
Qed.

(** A text whose estimate is below the minimum and within the chunk size
    produces nothing. *)
Lemma small_text_no_chunks cfg doc_text fid :
  _estimate_tokens doc_text < min_chunk_size cfg ->
  _estimate_tokens doc_text <= chunk_size cfg ->
  chunk_text cfg doc_text fid = [].
Proof.
  intros Hmin Hsize.
  pose proof (paragraphs_join_length doc_text) as Hlen.
  pose proof (estimate_mono _ _ Hlen) as Hest.
  pose proof (units_tokens_le_join (_split_into_paragraphs doc_text)) as Hsum.
  destruct (loop_only_appends cfg doc_text fid (_split_into_paragraphs doc_text)
              init_locals eq_refl eq_refl) as [Hc Hb].
  { simpl. lia. }
  unfold chunk_text, run_loop, finish. simpl in Hb. rewrite Hb, Hc.
  destruct (nonempty _); [|reflexivity].
  rewrite Z.geb_leb.
  destruct (Z.leb_spec (min_chunk_size cfg)
              (_estimate_tokens (join SEP (_split_into_paragraphs doc_text))));
    [lia | reflexivity].
Qed.

(** C2: the buffer left when the loop ends is emitted as one more chunk when
    its estimated token count reaches [min_chunk_size] and is discarded
    otherwise; with [chunk_size=768], [overlap_size=120],
    [min_chunk_size=200], a text whose estimate is below 200 yields no
    chunk. *)
Theorem trailing_buffer_needs_min_size :
  (forall cfg doc_text fid,
     let st := run_loop cfg doc_text fid in
     let buffer := join SEP (current_chunk st) in
     (current_chunk st <> [] ->
      min_chunk_size cfg <= _estimate_tokens buffer ->
      chunk_text cfg doc_text fid =
        chunks st ++
        [_create_chunk_dict fid (next_index st) buffer (current_start st)
           (current_start st + len buffer) (current_chunk_tokens st)])
     /\ (_estimate_tokens buffer < min_chunk_size cfg ->
         chunk_text cfg doc_text fid = chunks st))
  /\ (forall doc_text fid,
        _estimate_tokens doc_text < 200 ->
        chunk_text default_config doc_text fid = []).
Proof.
  split.
  - intros cfg doc_text fid st buffer. unfold chunk_text, finish.
    fold st. fold buffer. rewrite Z.geb_leb. split.
    + intros Hne Hmin.
      assert (nonempty (current_chunk st) = true) as ->
        by (destruct (current_chunk st); [congruence | reflexivity]).
      destruct (Z.leb_spec (min_chunk_size cfg) (_estimate_tokens buffer)); [|lia].
      reflexivity.
    + intros Hlt. destruct (nonempty _); [|reflexivity].
      destruct (Z.leb_spec (min_chunk_size cfg) (_estimate_tokens buffer)); [lia|].
      reflexivity.
  - intros doc_text fid H. apply small_text_no_chunks; simpl; lia.
Qed.

Lemma trailing_buffer_needs_min_size_witness :
  _estimate_tokens Examples.short_text = 24
  /\ _split_into_paragraphs Examples.short_text
     = [lit "first paragraph"; lit "second paragraph"]
  /\ chunk_text default_config Examples.short_text Examples.doc = [].
Proof.
  split; [reflexivity|]. split; [reflexivity|].
  apply (proj2 trailing_buffer_needs_min_size Examples.short_text Examples.doc).
  vm_compute. reflexivity.
Defined.

End ChunkerProofs.

(** * Properties of the vector store *)

Module VectorStoreProofs.

Import FAISSVectorStore StoreSpec.

Section WithFloat.

Context {float : Type} (astype_float32 : float -> float).

Lemma load_from_success (s : store float) i ids :
  load_from float s (inr i) (inr ids)
  = ({| embedding_dim := embedding_dim float s; index := Some i; chunk_ids := ids |},
     inr tt).
Proof. reflexivity. Qed.

(** [load] compares nothing: whatever the two files hold is installed. *)
Lemma load_installs_both (s : store float) fs ip mp i ids :
  fs !! ip = Some (IndexFile float i) ->
  fs !! mp = Some (PickleFile float ids) ->
  exists s', load float s fs ip mp = (s', inr tt)
             /\ get_total_vectors float s' = ntotal float i
             /\ chunk_ids float s' = ids.
Proof.
  intros Hi Hm. unfold load, read_index, pickle_load. rewrite Hi, Hm.
  eexists. split; [reflexivity|]. split; reflexivity.
Qed.

(** The mutators keep vectors and identifiers paired. *)
Lemma build_index_aligned (s s' : store float) embeddings ids :
  build_index float astype_float32 s embeddings ids = (s', inr tt) -> aligned s'.
Proof.
  unfold build_index.
  destruct (Z.eqb_spec (Z.of_nat (length (rows float embeddings)))
              (Z.of_nat (length ids))) as [Hl|Hl]; simpl; [|discriminate].
  destruct (Z.eqb_spec (ncols float embeddings) (embedding_dim float s)) as [Hw|Hw];
    simpl; [|discriminate].
  unfold faiss_add, IndexFlatL2, astype. simpl. rewrite Hw, Z.eqb_refl.
  intros [= <-]. unfold aligned, get_total_vectors, ntotal. simpl.
  rewrite !length_map. exact Hl.
Qed.

Lemma add_vectors_aligned (s s' : store float) embeddings ids :
  aligned s ->
  add_vectors float astype_float32 s embeddings ids = (s', inr tt) -> aligned s'.
Proof.
  unfold add_vectors. intros Ha.
  destruct (index float s) as [i|] eqn:Ei; [|apply build_index_aligned].
  destruct (Z.eqb_spec (Z.of_nat (length (rows float embeddings)))
              (Z.of_nat (length ids))) as [Hl|Hl]; simpl; [|discriminate].
  unfold faiss_add, astype. simpl.
  destruct (ncols float embeddings =? d float i); [|discriminate].
  intros [= <-]. unfold aligned, get_total_vectors, ntotal in *. rewrite Ei in Ha.
  simpl. rewrite !length_app, !length_map. unfold ntotal in Ha. lia.
Qed.

(** What [save] writes, [load] reads back. *)
Lemma save_then_load (s s0 : store float) fs ip mp i :
  index float s = Some i -> ip <> mp ->
  load float s0 (save float s fs ip mp).1 ip mp
  = ({| embedding_dim := embedding_dim float s0;
        index := Some i;
        chunk_ids := chunk_ids float s |}, inr tt).
Proof.
  intros Hi Hne. unfold save, load, read_index, pickle_load. rewrite Hi. simpl.
  unfold filesystem.
  rewrite lookup_insert_ne by congruence. rewrite !lookup_insert_eq.
  reflexivity.
Qed.

(** After a load the store is aligned exactly when the two files were. *)
Lemma load_aligned_iff (s : store float) fs ip mp i ids :
  fs !! ip = Some (IndexFile float i) ->
  fs !! mp = Some (PickleFile float ids) ->
  aligned (load float s fs ip mp).1 <-> ntotal float i = Z.of_nat (length ids).
Proof.
  intros Hi Hm. unfold load, read_index, pickle_load. rewrite Hi, Hm. reflexivity.
Qed.

(** C8: [build_index] raises [ValueError] (the spec's DimensionMismatch)
    when the number of vectors differs from the number of identifiers or the
    width differs from the configured dimension, leaving the store as it
    was; otherwise it succeeds and the store holds a fresh index with
    exactly the given vectors (as float32), paired by position with the
    given identifiers, whatever it held before. *)
Theorem build_index_checks_then_replaces
    (s : store float) (embeddings : ndarray float) (ids : list pystr) :
  (length (rows float embeddings) <> length ids
   \/ ncols float embeddings <> embedding_dim float s ->
   exists m,
     build_index float astype_float32 s embeddings ids
     = (s, inl {| cls := ValueError; msg := m |}))
  /\ (length (rows float embeddings) = length ids ->
      ncols float embeddings = embedding_dim float s ->
      exists s',
        build_index float astype_float32 s embeddings ids = (s', inr tt)
        /\ embedding_dim float s' = embedding_dim float s
        /\ index float s'
           = Some {| d := embedding_dim float s;
                     xb := map (map astype_float32) (rows float embeddings) |}
        /\ chunk_ids float s' = ids
        /\ get_total_vectors float s' = Z.of_nat (length ids)
        /\ (forall (n : nat) id, nth_error ids n = Some id ->
             exists v, nth_error (rows float embeddings) n = Some v
                       /\ nth_error (map (map astype_float32) (rows float embeddings)) n
                          = Some (map astype_float32 v))).
Proof.
  unfold build_index. split.
  - intros Hbad.
    destruct (Z.eqb_spec (Z.of_nat (length (rows float embeddings)))
                (Z.of_nat (length ids))) as [Hl|Hl]; simpl.
    + destruct (Z.eqb_spec (ncols float embeddings) (embedding_dim float s)) as [Hw|Hw];
        simpl; [|eexists; reflexivity].
      destruct Hbad as [Hbad|Hbad]; [lia | congruence].
    + eexists; reflexivity.
  - intros Hl Hw.
    rewrite Hl, Z.eqb_refl, Hw, Z.eqb_refl. simpl.
    unfold faiss_add, IndexFlatL2, astype. simpl. rewrite Hw, Z.eqb_refl.
    eexists. split; [reflexivity|]. simpl.
    repeat split.
    + unfold get_total_vectors, ntotal. simpl. rewrite !length_map. lia.
    + intros n id Hn.
      destruct (nth_error (rows float embeddings) n) as [v|] eqn:Ev.
      * exists v. split; [reflexivity|]. apply map_nth_error, Ev.
      * apply nth_error_None in Ev.
        assert (n < length ids)%nat by (apply nth_error_Some; congruence). lia.
Qed.

End WithFloat.

Lemma build_index_checks_then_replaces_witness :
  (exists m,
     build_index Z Z.succ (new_store Z 3) Examples.two_rows Examples.two_ids
     = (new_store Z 3, inl {| cls := ValueError; msg := m |}))
  /\ (exists s',
        build_index Z Z.succ (new_store Z 2) Examples.two_rows Examples.two_ids
        = (s', inr tt)
        /\ index Z s' = Some {| d := 2; xb := [[2; 3]; [4; 5]] |}
        /\ chunk_ids Z s' = Examples.two_ids).
Proof.
  split.
  - apply (proj1 (build_index_checks_then_replaces Z.succ (new_store Z 3)
                    Examples.two_rows Examples.two_ids)).
    right. simpl. lia.
  - destruct (proj2 (build_index_checks_then_replaces Z.succ (new_store Z 2)
                       Examples.two_rows Examples.two_ids) eq_refl eq_refl)
      as (s' & Hb & _ & Hi & Hc & _).
    exists s'. auto.
Defined.

(** C1 on the code: a vector file with two vectors and an identifier file
    with one identifier load without any error, and the store is left with
    two vectors and one identifier. *)
Theorem load_accepts_mismatched_artifacts :
  exists s,
    load Z (new_store Z 2) Examples.mismatched_files
         Examples.index_path Examples.metadata_path = (s, inr tt)
    /\ get_total_vectors Z s = 2
    /\ Z.of_nat (length (chunk_ids Z s)) = 1.
Proof.
  destruct (load_installs_both (new_store Z 2) Examples.mismatched_files
              Examples.index_path Examples.metadata_path
              Examples.two_vectors [lit "doc_chunk_0"])
    as (s & Hl & Ht & Hc).
  - vm_compute. reflexivity.
  - vm_compute. reflexivity.
  - exists s. rewrite Hl, Ht, Hc. repeat split.
Qed.

End VectorStoreProofs.

(** * Properties of the embedder *)

Module EmbedderProofs.

Import BGEEmbedder.

Section WithModel.

Context {float : Type}.
Variable model_batch : list pystr -> Z -> bool -> list (list float).
Variable hidden_size : Z.

(** The slices cover the input texts, in order and unchanged. *)
Lemma batches_concat (batch_size : nat) : forall fuel texts,
  (0 < batch_size)%nat -> (length texts <= fuel)%nat ->
  concat (batches fuel batch_size texts) = texts.
Proof.
  induction fuel as [|fuel IH]; intros texts Hb Hf.
  - destruct texts; [reflexivity | simpl in Hf; lia].
  - destruct texts as [|t texts]; [reflexivity|].
    cbn [batches concat]. rewrite IH; [apply firstn_skipn | exact Hb |].
    rewrite length_skipn. simpl in *. lia.
Qed.

Lemma encode_single text batch_size max_length normalize :
  0 < batch_size ->
  encode float model_batch hidden_size (inl text) batch_size max_length normalize
  = inr {| FAISSVectorStore.ncols := hidden_size;
           FAISSVectorStore.rows := model_batch [text] max_length normalize |}.
Proof.
  intros Hb. unfold encode.
  destruct (Z.eqb_spec batch_size 0); [lia|].
  destruct (Z.ltb_spec batch_size 0); [lia|].
  destruct (Z.to_nat batch_size) as [|k] eqn:E; [lia|].
  simpl. rewrite firstn_nil, app_nil_r. reflexivity.
Qed.

Lemma encode_query_value q normalize :
  encode_query float model_batch hidden_size q normalize
  = inr {| FAISSVectorStore.ncols := hidden_size;
           FAISSVectorStore.rows := model_batch [instruction ++ q] 512 normalize |}.
Proof. unfold encode_query. apply encode_single. lia. Qed.

(** C9: [encode_query q] is [encode] applied to the fixed instruction
    followed by [q], so the model sees the prefixed query; [encode] itself
    hands the model exactly the texts it is given, in order, with nothing
    added. *)
Theorem query_prefixed_chunks_plain :
  (forall q normalize,
     encode_query float model_batch hidden_size q normalize
     = encode float model_batch hidden_size (inl (instruction ++ q)) 32 512 normalize
     /\ encode_query float model_batch hidden_size q normalize
        = inr {| FAISSVectorStore.ncols := hidden_size;
                 FAISSVectorStore.rows := model_batch [instruction ++ q] 512 normalize |})
  /\ instruction = lit "为这个句子生成表示以用于检索相关文章："
  /\ length instruction = 19%nat
  /\ (forall texts batch_size max_length normalize,
        0 < batch_size -> texts <> [] ->
        exists slices,
          concat slices = texts
          /\ encode float model_batch hidden_size (inr texts) batch_size max_length normalize
             = inr {| FAISSVectorStore.ncols := hidden_size;
                      FAISSVectorStore.rows :=
                        concat (map (fun b => model_batch b max_length normalize) slices) |})
  /\ (forall text batch_size max_length normalize,
        0 < batch_size ->
        encode float model_batch hidden_size (inl text) batch_size max_length normalize
        = inr {| FAISSVectorStore.ncols := hidden_size;
                 FAISSVectorStore.rows := model_batch [text] max_length normalize |}).
Proof.
  split; [|split; [|split; [|split]]].
  - intros q normalize. split; [reflexivity | apply encode_query_value].
  - reflexivity.
  - vm_compute. reflexivity.
  - intros texts batch_size max_length normalize Hb Hne.
    exists (batches (length texts) (Z.to_nat batch_size) texts). split.
    + apply batches_concat; lia.
    + unfold encode.
      destruct (Z.eqb_spec batch_size 0); [lia|].
      destruct (Z.ltb_spec batch_size 0); [lia|].
      unfold vstack.
      destruct texts as [|t texts]; [congruence|]. reflexivity.
  - intros. apply encode_single. assumption.
Qed.

End WithModel.

Lemma query_prefixed_chunks_plain_witness :
  encode Z Examples.length_model 1 (inl (lit "steel")) 32 512 true
  = inr {| FAISSVectorStore.ncols := 1; FAISSVectorStore.rows := [[5]] |}
  /\ encode_query Z Examples.length_model 1 (lit "steel") true
     = inr {| FAISSVectorStore.ncols := 1; FAISSVectorStore.rows := [[24]] |}.
Proof.
  split.
  - apply (proj2 (proj2 (proj2 (proj2
             (query_prefixed_chunks_plain Examples.length_model 1))))
             (lit "steel") 32 512 true).
    lia.
  - apply (proj2 (proj1 (query_prefixed_chunks_plain Examples.length_model 1)
                    (lit "steel") true)).
Defined.

End EmbedderProofs.

(** * Properties of the summarisation helpers *)

Module SummariesProofs.

Import Summaries RetryTrace.

Lemma range_nil a b : b <= a -> range a b = [].
Proof.
  intros H. unfold range. replace (Z.to_nat (b - a)) with 0%nat by lia. reflexivity.
Qed.

Lemma range_cons a b : a < b -> range a b = a :: range (a + 1) b.
Proof.
  intros H. unfold range.
  replace (Z.to_nat (b - a)) with (S (Z.to_nat (b - (a + 1)))) by lia.
  cbn [seq map]. f_equal; [lia|].
  rewrite <- seq_shift, map_map. apply map_ext. intros i. lia.
Qed.

Lemma range_length a b : length (range a b) = Z.to_nat (b - a).
Proof. unfold range. rewrite length_map, length_seq. reflexivity. Qed.

Lemma retries_before_nil a : retries_before a a = [].
Proof. unfold retries_before. rewrite range_nil by lia. reflexivity. Qed.

Lemma retries_before_cons a k :
  a < k -> retries_before a k = Post a :: Sleep a :: retries_before (a + 1) k.
Proof. intros H. unfold retries_before. rewrite range_cons by lia. reflexivity. Qed.

Section Loop.

Variable post : Z -> attempt_outcome.
Variable max_retries : Z.

(** One request per element of the attempt list, at most. *)
Lemma retry_loop_attempts attempts : forall last,
  (attempts_made (retry_loop post max_retries attempts last).1 <= length attempts)%nat.
Proof.
  unfold attempts_made.
  induction attempts as [|a rest IH]; intros last; simpl; [lia|].
  destruct (post a) as [t|e|e]; simpl; try lia.
  specialize (IH (Some e)).
  destruct (retry_loop post max_retries rest (Some e)) as [trace outcome].
  simpl in *.
  destruct (a <? max_retries); simpl; lia.
Qed.

(** The loop runs through the transient failures before attempt [k] and
    ends at [k] when that attempt does not fail transiently. *)
Lemma retry_loop_stops : forall (n : nat) a last k,
  k = a + Z.of_nat n -> k <= max_retries ->
  (forall j, a <= j < k -> exists e, post j = RaisesRequestException e) ->
  (forall t, post k = Content t ->
     retry_loop post max_retries (range a (max_retries + 1)) last
     = (retries_before a k ++ [Post k], inr t))
  /\ (forall e, post k = RaisesOther e ->
        retry_loop post max_retries (range a (max_retries + 1)) last
        = (retries_before a k ++ [Post k], inl e)).
Proof.
  induction n as [|n IH]; intros a last k Hk Hle Hfail.
  - assert (k = a) as -> by lia.
    rewrite range_cons by lia. rewrite retries_before_nil.
    split; intros r Hr; simpl; rewrite Hr; reflexivity.
  - destruct (Hfail a ltac:(lia)) as [e He].
    rewrite range_cons by lia. rewrite retries_before_cons by lia.
    destruct (IH (a + 1) (Some e) k ltac:(lia) Hle) as [IHc IHo].
    { intros j Hj. apply Hfail. lia. }
    split; intros r Hr; simpl; rewrite He.
    + rewrite (IHc r Hr).
      destruct (Z.ltb_spec a max_retries); [|lia].
      rewrite Z.mul_1_l. reflexivity.
    + rewrite (IHo r Hr).
      destruct (Z.ltb_spec a max_retries); [|lia].
      rewrite Z.mul_1_l. reflexivity.
Qed.

(** When every attempt fails transiently, the loop sleeps between them (not
    after the last) and the last exception is raised. *)
Lemma retry_loop_exhausts : forall (n : nat) a last,
  a + Z.of_nat n = max_retries ->
  (forall j, a <= j <= max_retries -> exists e, post j = RaisesRequestException e) ->
  exists e, post max_retries = RaisesRequestException e
    /\ retry_loop post max_retries (range a (max_retries + 1)) last
       = (retries_before a max_retries ++ [Post max_retries], inl e).
Proof.
  induction n as [|n IH]; intros a last Ha Hfail.
  - assert (a = max_retries) as -> by lia.
    destruct (Hfail max_retries ltac:(lia)) as [e He]. exists e. split; [exact He|].
    rewrite range_cons by lia. rewrite (range_nil (max_retries + 1)) by lia.
    rewrite retries_before_nil. simpl. rewrite He.
    destruct (Z.ltb_spec max_retries max_retries); [lia|]. reflexivity.
  - destruct (Hfail a ltac:(lia)) as [e He].
    destruct (IH (a + 1) (Some e) ltac:(lia)) as (e' & He' & Hloop).
    { intros j Hj. apply Hfail. lia. }
    exists e'. split; [exact He'|].
    rewrite range_cons by lia. rewrite retries_before_cons by lia.
    simpl. rewrite He, Hloop.
    destruct (Z.ltb_spec a max_retries); [|lia].
    rewrite Z.mul_1_l. reflexivity.
Qed.

(** With no attempt allowed, or after transient failures only, the call
    fails. *)
Lemma call_fails_when_all_fail :
  (forall j, 1 <= j <= max_retries -> exists e, post j = RaisesRequestException e) ->
  exists e, (call_llm_api post max_retries).2 = inl e
    /\ (1 <= max_retries -> post max_retries = RaisesRequestException e).
Proof.
  intros Hfail. unfold call_llm_api.
  destruct (Z.le_gt_cases 1 max_retries) as [Hpos|Hnone].
  - destruct (retry_loop_exhausts (Z.to_nat (max_retries - 1)) 1 None ltac:(lia) Hfail)
      as (e & He & Hloop).
    exists e. rewrite Hloop. auto.
  - rewrite range_nil by lia. exists raise_none. split; [reflexivity | lia].
Qed.

(** The loop in terms of its two [except] clauses: at most [max_retries]
    requests; a request is repeated only after a [RequestException],
    attempt [j] being followed by a sleep of [j] seconds before attempt
    [j + 1]; an answer or any other exception at attempt [k] ends the call
    there, the exception propagating unchanged; and when all [max_retries]
    attempts raise [RequestException] the last one is raised, with no sleep
    after it. *)
Lemma retry_policy_of_except_clauses :
  (attempts_made (call_llm_api post max_retries).1 <= Z.to_nat max_retries)%nat
  /\ (forall k,
        1 <= k <= max_retries ->
        (forall j, 1 <= j < k -> exists e, post j = RaisesRequestException e) ->
        (forall t, post k = Content t ->
           call_llm_api post max_retries = (retries_before 1 k ++ [Post k], inr t))
        /\ (forall e, post k = RaisesOther e ->
              call_llm_api post max_retries = (retries_before 1 k ++ [Post k], inl e)))
  /\ (1 <= max_retries ->
      (forall j, 1 <= j <= max_retries -> exists e, post j = RaisesRequestException e) ->
      exists e, post max_retries = RaisesRequestException e
        /\ call_llm_api post max_retries
           = (retries_before 1 max_retries ++ [Post max_retries], inl e)).
Proof.
  split; [|split].
  - unfold call_llm_api.
    pose proof (retry_loop_attempts (range 1 (max_retries + 1)) None) as H.
    rewrite range_length in H. lia.
  - intros k Hk Hfail. unfold call_llm_api.
    apply (retry_loop_stops (Z.to_nat (k - 1)) 1 None k); [lia | lia | exact Hfail].
  - intros Hpos Hfail. unfold call_llm_api.
    apply (retry_loop_exhausts (Z.to_nat (max_retries - 1)) 1 None); [lia | exact Hfail].
Qed.

End Loop.

Section Failures.

Variable reply : Z -> pystr + failure.
Variable max_retries : Z.

Lemma raised_request_exception (f : failure) :
  is_request_exception f = true -> raised f = RaisesRequestException (exn_of_failure f).
Proof. intros H. unfold raised. rewrite H. reflexivity. Qed.

Lemma raised_other (f : failure) :
  is_request_exception f = false -> raised f = RaisesOther (exn_of_failure f).
Proof. intros H. unfold raised. rewrite H. reflexivity. Qed.

Lemma attempts_fail_in_clause (a b : Z) :
  (forall j, a <= j <= b ->
     exists f, reply j = inr f /\ is_request_exception f = true) ->
  forall j, a <= j <= b ->
    exists e, attempt (reply j) = RaisesRequestException e.
Proof.
  intros H j Hj. destruct (H j Hj) as (f & -> & Hf).
  exists (exn_of_failure f). apply raised_request_exception, Hf.
Qed.

(** C5 as amended: [call_llm_api] sends at most [max_retries] requests.
    It repeats a request after every failure that is a
    [requests.exceptions.RequestException], which is every failure of the
    request, of the status check and of the JSON decoding (so also an HTTP
    401 or 400, a body that is not JSON, an unusable URL), attempt [j]
    being followed by a sleep of [j] seconds; an answer at attempt [k] ends
    the call, a failure of the lookup in the decoded reply propagates at
    once; and when all [max_retries] attempts fail with a
    [RequestException] the last one is raised, with no sleep after it. *)
Theorem call_llm_api_retries_request_exceptions :
  (attempts_made (call_llm_api (fun j => attempt (reply j)) max_retries).1
   <= Z.to_nat max_retries)%nat
  /\ (forall k,
        1 <= k <= max_retries ->
        (forall j, 1 <= j < k ->
           exists f, reply j = inr f /\ is_request_exception f = true) ->
        (forall t, reply k = inl t ->
           call_llm_api (fun j => attempt (reply j)) max_retries
           = (retries_before 1 k ++ [Post k], inr t))
        /\ (forall f, reply k = inr f -> is_request_exception f = false ->
              call_llm_api (fun j => attempt (reply j)) max_retries
              = (retries_before 1 k ++ [Post k], inl (exn_of_failure f))))
  /\ (1 <= max_retries ->
      (forall j, 1 <= j <= max_retries ->
         exists f, reply j = inr f /\ is_request_exception f = true) ->
      exists f,
        reply max_retries = inr f
        /\ call_llm_api (fun j => attempt (reply j)) max_retries
           = (retries_before 1 max_retries ++ [Post max_retries],
              inl (exn_of_failure f)))
  /\ (forall f, is_request_exception f = true <-> forall e, f <> LookupFailure e).
Proof.
  destruct (retry_policy_of_except_clauses (fun j => attempt (reply j)) max_retries)
    as (Hcount & Hstop & Hlast).
  split; [exact Hcount|]. split; [|split].
  - intros k Hk Hfail.
    destruct (Hstop k Hk) as [Hanswer Hother].
    { intros j Hj. apply (attempts_fail_in_clause 1 (k - 1)); [|lia].
      intros i Hi. apply Hfail. lia. }
    split.
    + intros t Ht. apply Hanswer. rewrite Ht. reflexivity.
    + intros f Hf Hclass. apply Hother. rewrite Hf. apply raised_other, Hclass.
  - intros Hpos Hfail.
    destruct (Hlast Hpos (attempts_fail_in_clause 1 max_retries Hfail))
      as (e & He & Hcall).
    destruct (Hfail max_retries ltac:(lia)) as (f & Hf & Hclass).
    exists f. split; [exact Hf|]. rewrite Hcall.
    simpl in He. rewrite Hf in He. simpl in He.
    rewrite (raised_request_exception f Hclass) in He. injection He as <-.
    reflexivity.
  - intros f. destruct f; simpl; split; intros H; try reflexivity; try discriminate.
    exfalso. apply (H e). reflexivity.
Qed.

End Failures.

Lemma call_llm_api_retries_request_exceptions_witness :
  call_llm_api (fun j => attempt (flaky_reply j)) 3
  = ([Post 1; Sleep 1; Post 2; Sleep 2; Post 3], inr (lit "summary"))
  /\ exists f,
       flaky_reply 2 = inr f
       /\ call_llm_api (fun j => attempt (flaky_reply j)) 2
          = ([Post 1; Sleep 1; Post 2], inl (exn_of_failure f)).
Proof.
  assert (forall j, j < 3 ->
            exists f, flaky_reply j = inr f /\ is_request_exception f = true) as Hflaky.
  { intros j Hj. eexists. unfold flaky_reply.
    destruct (Z.ltb_spec j 3); [|lia]. split; reflexivity. }
  split.
  - destruct (call_llm_api_retries_request_exceptions flaky_reply 3)
      as (_ & Hstop & _).
    destruct (Hstop 3) as [Hanswer _]; [lia | |apply Hanswer; reflexivity].
    intros j Hj. apply Hflaky. lia.
  - destruct (call_llm_api_retries_request_exceptions flaky_reply 2)
      as (_ & _ & Hlast & _).
    apply Hlast; [lia|]. intros j Hj. apply Hflaky. lia.
Defined.

(** C5 as first stated fails: an HTTP 401, an authentication failure that
    the specification calls fatal and not retried, is caught by the
    retrying clause; the call sleeps and sends the request twice more. *)
Lemma auth_failure_is_retried :
  fatal unauthorized = true
  /\ call_llm_api (fun _ => attempt (inr unauthorized)) 3
     = ([Post 1; Sleep 1; Post 2; Sleep 2; Post 3],
        inl (exn_of_failure unauthorized)).
Proof. split; vm_compute; reflexivity. Qed.

Section Batch.

Variable endpoint : pystr -> request -> Z -> attempt_outcome.
Variable seconds : Type.
Variable elapsed : pystr -> seconds.
Variable format_seconds : seconds -> pystr.
Variable as_completed : list (future seconds) -> list (future seconds).

(** Every submitted future completes, once. *)
Hypothesis as_completed_permutes : forall futures, Permutation (as_completed futures) futures.

Variables question system_prompt : pystr.
Variable get_user_prompt_func : pystr -> pystr -> exn + pystr.
Variable read_fulltext_func : pystr -> pystr.
Variables max_workers timeout max_retries : Z.

Let single (d : pystr * pystr) : pystr * pystr * seconds :=
  generate_single_literature_summary endpoint seconds elapsed
    d.1 d.2 question system_prompt get_user_prompt_func timeout max_retries.

Let entry_of (d : pystr * pystr) : summary_entry :=
  collect seconds format_seconds (d.1, inr (single d)).

Let batch (file_ids : list pystr) : exn + list summary_entry :=
  generate_literature_summaries_parallel endpoint seconds elapsed format_seconds
    as_completed file_ids question system_prompt get_user_prompt_func
    read_fulltext_func max_workers timeout max_retries.

(** With a worker pool, the batch returns one entry per readable document,
    in completion order. *)
Lemma batch_permutes file_ids :
  0 < max_workers ->
  exists out,
    batch file_ids = inr out
    /\ Permutation out (map entry_of (literature_data file_ids read_fulltext_func)).
Proof using as_completed_permutes.
  intros Hw. unfold batch, generate_literature_summaries_parallel.
  destruct (literature_data file_ids read_fulltext_func) as [|d data];
    [exists []; split; reflexivity|].
  destruct (Z.leb_spec max_workers 0); [lia|].
  eexists. split; [reflexivity|].
  rewrite as_completed_permutes, map_map. reflexivity.
Qed.

(** Without one, [ThreadPoolExecutor] raises before any task is submitted,
    unless there is nothing to summarise. *)
Lemma batch_needs_workers file_ids :
  max_workers <= 0 ->
  literature_data file_ids read_fulltext_func <> [] ->
  exists m, batch file_ids = inl {| cls := ValueError; msg := m |}.
Proof.
  intros Hw Hdata. unfold batch, generate_literature_summaries_parallel.
  destruct (literature_data file_ids read_fulltext_func) as [|d data]; [congruence|].
  destruct (Z.leb_spec max_workers 0); [|lia]. eexists. reflexivity.
Qed.

Lemma entry_of_file_id d : file_id (entry_of d) = d.1.
Proof.
  unfold entry_of, single, collect, generate_single_literature_summary. simpl.
  destruct (get_user_prompt_func _ _); [reflexivity|].
  destruct (call_llm_api _ _).2; reflexivity.
Qed.

(** C4: in a batch run on a worker pool ([0 < max_workers]), a document
    whose generation call still fails after [max_retries] attempts gets an
    entry whose text is the message [生成总结时出错: ...] built from the
    exception; the batch function returns normally, with one entry for
    every document whose full text was read, and every document that was
    answered keeps its answer.  With [max_workers <= 0] the pool cannot be
    created: the batch raises [ValueError] before any generation call is
    made. *)
Theorem batch_absorbs_failed_generation file_ids :
  let data := literature_data file_ids read_fulltext_func in
  (0 < max_workers ->
   exists out,
     batch file_ids = inr out
     /\ Permutation (map file_id out) (map fst data)
     /\ (forall fid fulltext prompt,
           In (fid, fulltext) data ->
           get_user_prompt_func question fulltext = inr prompt ->
           (forall j, 1 <= j <= max_retries ->
              exists e, endpoint fid {| Summaries.system_prompt := system_prompt;
                                        user_prompt := prompt;
                                        Summaries.timeout := timeout |} j
                        = RaisesRequestException e) ->
           exists e,
             In {| file_id := fid;
                   summary := lit "生成总结时出错: " ++ str_of_exn e;
                   generation_time := format_seconds (elapsed fid) |}
                out
             /\ (1 <= max_retries ->
                 endpoint fid {| Summaries.system_prompt := system_prompt;
                                 user_prompt := prompt;
                                 Summaries.timeout := timeout |} max_retries
                 = RaisesRequestException e))
     /\ (forall fid fulltext prompt answer,
           In (fid, fulltext) data ->
           get_user_prompt_func question fulltext = inr prompt ->
           (call_llm_api
              (endpoint fid {| Summaries.system_prompt := system_prompt;
                               user_prompt := prompt;
                               Summaries.timeout := timeout |}) max_retries).2
           = inr answer ->
           In {| file_id := fid;
                 summary := answer;
                 generation_time := format_seconds (elapsed fid) |}
              out))
  /\ (max_workers <= 0 -> data <> [] ->
      exists m, batch file_ids = inl {| cls := ValueError; msg := m |}).
Proof using as_completed_permutes.
  intros data. split; [|apply batch_needs_workers].
  intros Hw. destruct (batch_permutes file_ids Hw) as (out & Hout & Hperm).
  fold data in Hperm. exists out. split; [exact Hout|].
  split; [|split].
  - rewrite Hperm, map_map. apply Permutation_refl'.
    apply map_ext. intros d. apply entry_of_file_id.
  - intros fid fulltext prompt Hin Hprompt Hfail.
    destruct (call_fails_when_all_fail _ _ Hfail) as (e & Hcall & Hlast).
    exists e. split; [|exact Hlast].
    apply (Permutation_in _ (Permutation_sym Hperm)).
    apply in_map_iff. exists (fid, fulltext). split; [|exact Hin].
    unfold entry_of, single, collect, generate_single_literature_summary. simpl.
    rewrite Hprompt, Hcall. reflexivity.
  - intros fid fulltext prompt answer Hin Hprompt Hcall.
    apply (Permutation_in _ (Permutation_sym Hperm)).
    apply in_map_iff. exists (fid, fulltext). split; [|exact Hin].
    unfold entry_of, single, collect, generate_single_literature_summary. simpl.
    rewrite Hprompt, Hcall. reflexivity.
Qed.

End Batch.

Lemma batch_absorbs_failed_generation_witness :
  exists out,
    generate_literature_summaries_parallel Examples.down_for_b Z (fun _ => 0)
      str_of_int (@rev _) [lit "a"; lit "b"; lit "c"; lit "d"] (lit "q") (lit "sys")
      Examples.prompt_of Examples.fulltext_of 20 300 3 = inr out
    /\ Permutation (map file_id out) [lit "a"; lit "b"; lit "d"]
    /\ In {| file_id := lit "b";
             summary := lit "生成总结时出错: Read timed out.";
             generation_time := lit "0" |} out
    /\ In {| file_id := lit "d";
             summary := lit "summary of d";
             generation_time := lit "0" |} out.
Proof.
  destruct (proj1 (batch_absorbs_failed_generation Examples.down_for_b Z (fun _ => 0)
                     str_of_int (@rev _) (fun l => Permutation_sym (Permutation_rev l))
                     (lit "q") (lit "sys") Examples.prompt_of Examples.fulltext_of
                     20 300 3 [lit "a"; lit "b"; lit "c"; lit "d"]))
    as (out & Hout & Hids & Hfailed & Hanswered); [lia|].
  exists out. split; [exact Hout|]. split; [exact Hids|]. split.
  - destruct (Hfailed (lit "b") (lit "full text of b") (lit "qfull text of b"))
      as (e & Hin & Hlast).
    + vm_compute. right; left; reflexivity.
    + reflexivity.
    + intros j Hj. exists Examples.timed_out. reflexivity.
    + specialize (Hlast ltac:(lia)). injection Hlast as <-. exact Hin.
  - apply (Hanswered (lit "d") (lit "full text of d") (lit "qfull text of d")).
    + vm_compute. right; right; left; reflexivity.
    + reflexivity.
    + reflexivity.
Defined.

End SummariesProofs.

(** * Properties of the retriever *)

Module RetrieverProofs.

Import Retriever.

(** The chunk table never yields two rows with one key. *)
Lemma NoDup_map_filter {A B} (g : A -> B) (f : A -> bool) (l : list A) :
  List.NoDup (map g l) -> List.NoDup (map g (List.filter f l)).
Proof.
  induction l as [|x l IH]; simpl; intros Hnd; [constructor|].
  apply List.NoDup_cons_iff in Hnd as [Hx Hl].
  destruct (f x); simpl; [|auto].
  constructor; [|auto].
  intros Hin. apply Hx. apply List.in_map_iff in Hin as (y & Hy & Hin).
  apply List.filter_In in Hin as [Hin _].
  apply List.in_map_iff. eauto.
Qed.

Lemma fmap_is_map {A B} (f : A -> B) (l : list A) : f <$> l = map f l.
Proof. induction l as [|x l IH]; simpl; [reflexivity | f_equal; exact IH]. Qed.

Lemma get_chunks_by_ids_keys (db : ChunkDatabase.table) ids :
  List.NoDup (map TextChunker.chunk_id (ChunkDatabase.get_chunks_by_ids db ids)).
Proof.
  unfold ChunkDatabase.get_chunks_by_ids. destruct ids as [|i ids]; [constructor|].
  rewrite map_map. simpl.
  apply (NoDup_map_filter fst). rewrite <- fmap_is_map.
  apply NoDup_ListNoDup, NoDup_fst_map_to_list.
Qed.

(** Exactly the listed keys that have a row are returned. *)
Lemma get_chunks_by_ids_spec (db : ChunkDatabase.table) ids id :
  In id (map TextChunker.chunk_id (ChunkDatabase.get_chunks_by_ids db ids))
  <-> In id ids /\ is_Some (db !! id).
Proof.
  unfold ChunkDatabase.get_chunks_by_ids. destruct ids as [|i ids].
  { simpl. tauto. }
  rewrite map_map. simpl map. rewrite List.in_map_iff. split.
  - intros ([k r] & <- & Hin). apply List.filter_In in Hin as [Hin Hk].
    apply bool_decide_eq_true, list_elem_of_In in Hk.
    apply list_elem_of_In, elem_of_map_to_list in Hin.
    split; [exact Hk | eauto].
  - intros [Hin [r Hr]]. exists (id, r). split; [reflexivity|].
    apply List.filter_In. split.
    + apply list_elem_of_In, elem_of_map_to_list, Hr.
    + simpl. apply bool_decide_eq_true, list_elem_of_In, Hin.
Qed.

Section WithFloat.

Context {float : Type}.
Variable fle : float -> float -> bool.
Variable inf : float.
Variable astype_float32 : float -> float.
Variable faiss_search :
  FAISSVectorStore.faiss_index float -> FAISSVectorStore.ndarray float -> Z -> exn + list (float * Z).
Variable model_batch : list pystr -> Z -> bool -> list (list float).
Variable hidden_size : Z.

(** Distances are ordered floats: any two compare, transitively (no NaN). *)
Hypothesis fle_total : forall a b, fle a b = true \/ fle b a = true.
Hypothesis fle_trans : forall a b c, fle a b = true -> fle b c = true -> fle a c = true.


Lemma insert_by_perm x l :
  Permutation (insert_by float fle (distance float) x l) (x :: l).
Proof.
  induction l as [|y l IH]; simpl; [reflexivity|].
  destruct (fle _ _); [reflexivity|].
  rewrite IH. apply perm_swap.
Qed.

Lemma sort_by_perm l : Permutation (sort_by float fle (distance float) l) l.
Proof.
  induction l as [|x l IH]; simpl; [reflexivity|].
  unfold sort_by in *. simpl. rewrite insert_by_perm, IH. reflexivity.
Qed.




End WithFloat.


End RetrieverProofs.

(** * Properties of the structured query *)

Module ServerProofs.

Import StructuredSearchSystem QuerySpec.

Section WithStore.

Variable query_table : json -> json -> exn + table_reply.
Variable read_literature_fulltext : pystr -> pystr.
Variable _generate_metadata_summary : pystr -> item -> pystr -> pystr.
Variable endpoint : pystr -> Summaries.request -> Z -> Summaries.attempt_outcome.
Variable seconds : Type.
Variable elapsed : pystr -> seconds.
Variable format_seconds : seconds -> pystr.
Variable as_completed : list (Summaries.future seconds) -> list (Summaries.future seconds).
Variable LITERATURE_SUMMARY_SYSTEM_PROMPT : pystr.
Variable get_literature_summary_user_prompt : pystr -> pystr -> exn + pystr.
Variables MAX_WORKERS LLM_API_TIMEOUT LLM_MAX_RETRIES : Z.

(** A store that matches nothing yields the empty candidate set, whatever
    tables the translated query names. *)
Section SilentStore.

Hypothesis store_silent : forall table_name filters, silent (query_table table_name filters).

Lemma query_database_silent filters table_name :
  _query_database query_table filters table_name = ([], ∅, ∅).
Proof using store_silent.
  unfold _query_database.
  pose proof (store_silent table_name filters) as H.
  destruct (query_table table_name filters) as [e|[m|papers result]]; try reflexivity.
  destruct H as [-> ->]. reflexivity.
Qed.

Lemma query_tables_silent tables c :
  query_tables query_table tables ([], ∅, ∅) = inr c -> c = ([], ∅, ∅).
Proof using store_silent.
  induction tables as [|t tables IH]; simpl; [congruence|].
  destruct (get _ _ t) as [e|table_name]; [discriminate|].
  destruct (get _ _ t) as [e|table_filters]; [discriminate|].
  rewrite query_database_silent. simpl.
  rewrite !(left_id_L ∅ (∪)). exact IH.
Qed.

End SilentStore.

Lemma epoxy_entries_of_empty : epoxy_entries_of (∅ : gmap dict_key item) = inr ∅.
Proof.
  unfold epoxy_entries_of. rewrite map_to_list_empty. simpl.
  rewrite map_filter_empty. reflexivity.
Qed.

Lemma find_candidates_silent filters dois query_data_dict metadata_dict :
  (forall table_name filters, silent (query_table table_name filters)) ->
  find_candidates query_table filters = inr (dois, query_data_dict, metadata_dict) ->
  dois = [] /\ epoxy_entries_of query_data_dict = inr ∅.
Proof.
  intros store_silent. unfold find_candidates.
  destruct filters as [| | | |l|m];
    try (rewrite (query_database_silent store_silent); intros [= <- <- <-];
         split; [reflexivity | apply epoxy_entries_of_empty]).
  destruct (assoc _ m) as [tables|];
    [|rewrite (query_database_silent store_silent); intros [= <- <- <-];
      split; [reflexivity | apply epoxy_entries_of_empty]].
  destruct (iterate tables) as [e|table_list]; [discriminate|].
  destruct (query_tables query_table table_list ([], ∅, ∅)) as [e|c] eqn:E; [discriminate|].
  apply (query_tables_silent store_silent) in E as ->. intros [= <- <- <-].
  split; [apply elements_empty | apply epoxy_entries_of_empty].
Qed.

(** The key test yields the empty dict exactly when every row is filed
    under a text key that does not start with [epoxy_]. *)
Lemma no_epoxy_entries_iff (query_data_dict : gmap dict_key item) :
  epoxy_entries_of query_data_dict = inr ∅
  <-> forall k it, query_data_dict !! k = Some it ->
        exists s, k = inr s /\ startswith s (lit "epoxy_") = false.
Proof.
  unfold epoxy_entries_of.
  destruct (forallb is_str_key (map fst (map_to_list query_data_dict))) eqn:Ef.
  - rewrite forallb_forall in Ef. split.
    + intros [= Hempty] k it Hk.
      assert (is_str_key k = true) as Hs.
      { apply Ef, List.in_map_iff. exists (k, it). split; [reflexivity|].
        apply list_elem_of_In, elem_of_map_to_list, Hk. }
      destruct k as [z|s]; [discriminate|]. exists s. split; [reflexivity|].
      destruct (startswith s (lit "epoxy_")) eqn:E; [|reflexivity].
      assert (filter (fun kv : dict_key * item => is_epoxy_key kv.1 = true)
                     query_data_dict !! (inr s : dict_key) = Some it) as Hin.
      { apply map_lookup_filter_Some. split; [exact Hk | exact E]. }
      rewrite Hempty, lookup_empty in Hin. discriminate.
    + intros H. f_equal. apply map_empty. intros k.
      apply map_lookup_filter_None. right. intros it Hk.
      destruct (H k it Hk) as (s & -> & Hs). simpl. rewrite Hs. discriminate.
  - split; [discriminate|]. intros H. exfalso.
    assert (forallb is_str_key (map fst (map_to_list query_data_dict)) = true) as Ht.
    { apply forallb_forall. intros k Hk.
      apply List.in_map_iff in Hk as ([k' it] & <- & Hin).
      apply list_elem_of_In, elem_of_map_to_list in Hin.
      destruct (H k' it Hin) as (s & -> & _). reflexivity. }
    congruence.
Qed.

(** C7: when the translated query is usable and the database step produces
    no document identifier and no [epoxy_] entry, [query] returns
    [summaries = []] with [code = NO_RESULTS = 1].  The rows may be filed
    under any truthy [doi], [formulation_id] or [_id], integers included;
    the entries are empty when the key test of the code yields the empty
    dict, that is when every row filed has a text key without the prefix
    [epoxy_]. *)
Theorem empty_candidates_give_no_results
    (query_description : pystr) (reply : exn + json) (filters : json)
    (query_data_dict metadata_dict : gmap dict_key item) :
  _convert_query_to_filters reply = Some filters ->
  truthy filters = true ->
  find_candidates query_table filters = inr ([], query_data_dict, metadata_dict) ->
  (epoxy_entries_of query_data_dict = inr ∅
   \/ forall k it, query_data_dict !! k = Some it ->
        exists s, k = inr s /\ startswith s (lit "epoxy_") = false) ->
  query query_table read_literature_fulltext _generate_metadata_summary
        endpoint seconds elapsed format_seconds as_completed
        LITERATURE_SUMMARY_SYSTEM_PROMPT get_literature_summary_user_prompt
        MAX_WORKERS LLM_API_TIMEOUT LLM_MAX_RETRIES query_description reply
  = {| summaries := []; code := StatusCode.NO_RESULTS |}
  /\ StatusCode.NO_RESULTS = 1.
Proof.
  intros Hconv Htruthy Hcand Hepoxy. split; [|reflexivity].
  assert (epoxy_entries_of query_data_dict = inr ∅) as He.
  { destruct Hepoxy as [H|H]; [exact H | apply no_epoxy_entries_iff, H]. }
  unfold query, query_body. rewrite Hconv, Htruthy, Hcand. simpl negb.
  rewrite He. simpl. rewrite bool_decide_eq_true_2 by reflexivity. reflexivity.
Qed.

End WithStore.

Lemma empty_candidates_give_no_results_witness :
  find_candidates QueryExample.rows_without_papers
    (JObj [(lit "type", JNum 1);
           (lit "field", JStr (lit "polymer_type"));
           (lit "operator", JStr (lit "like"));
           (lit "value", JStr (lit "epoxy"))])
  = inr ([], <[inr (lit "10.1000/resin") := QueryExample.doi_row]> ∅, ∅)
  /\ query QueryExample.rows_without_papers Examples.fulltext_of QueryExample.no_digest
        Examples.down_for_b Z (fun _ => 0) str_of_int (@rev _)
        (lit "sys") Examples.prompt_of 20 300 3
        (lit "epoxy resins") QueryExample.legacy_reply
     = {| summaries := []; code := 1 |}.
Proof.
  assert (find_candidates QueryExample.rows_without_papers
            (JObj [(lit "type", JNum 1);
                   (lit "field", JStr (lit "polymer_type"));
                   (lit "operator", JStr (lit "like"));
                   (lit "value", JStr (lit "epoxy"))])
          = inr ([], <[inr (lit "10.1000/resin") := QueryExample.doi_row]> ∅, ∅))
    as Hcand by (vm_compute; reflexivity).
  split; [exact Hcand|].
  refine (proj1 (empty_candidates_give_no_results QueryExample.rows_without_papers
                   Examples.fulltext_of QueryExample.no_digest
                   Examples.down_for_b Z (fun _ => 0) str_of_int (@rev _)
                   (lit "sys") Examples.prompt_of 20 300 3
                   (lit "epoxy resins") QueryExample.legacy_reply _ _ ∅
                   eq_refl eq_refl Hcand _)).
  left. vm_compute. reflexivity.
Defined.

(** The same row matched in the table of epoxy formulations is filed under
    [epoxy_7] and makes the query succeed with its digest. *)
Lemma integer_id_is_an_epoxy_entry :
  row_key (JStr (lit "677df00")) QueryExample.numbered_row = Some (inr (lit "epoxy_7"))
  /\ query QueryExample.one_row_store Examples.fulltext_of QueryExample.no_digest
        Examples.down_for_b Z (fun _ => 0) str_of_int (@rev _)
        (lit "sys") Examples.prompt_of 20 300 3
        (lit "epoxy resins") QueryExample.epoxy_reply
     = {| summaries := [lit "digest"]; code := 0 |}.
Proof. split; vm_compute; reflexivity. Qed.

End ServerProofs.

(** * Further properties of the chunker *)

Module ChunkerExtras.

Import TextChunker ChunkSpec MoreSpec.

(** *** Splitting *)

Lemma re_split_pieces (P : char -> Prop) matcher capture : forall s skip cur,
  Forall P s -> Forall P cur ->
  Forall (Forall P) (re_split_aux matcher capture s skip cur).
Proof.
  induction s as [|c s IH]; intros skip cur Hs Hcur.
  - constructor; [|constructor]. apply Forall_rev, Hcur.
  - apply Forall_cons in Hs as [Hc Hs]. cbn [re_split_aux].
    destruct skip as [|k]; [|auto].
    destruct (matcher (c :: s)) as [[|m]|]; [auto | | auto].
    constructor; [apply Forall_rev, Hcur|].
    apply Forall_app. split; [|auto].
    destruct capture; [|constructor].
    constructor; [|constructor].
    apply Forall_take. constructor; assumption.
Qed.

Lemma lstrip_blank s : Forall (fun c => isspace c = true) s -> lstrip s = [].
Proof.
  induction 1 as [|c s Hc _ IH]; simpl; [reflexivity|]. rewrite Hc. exact IH.
Qed.

Lemma strip_blank s : Forall (fun c => isspace c = true) s -> strip s = [].
Proof. intros H. unfold strip. rewrite (lstrip_blank s H). reflexivity. Qed.

Lemma paragraphs_of_blank doc_text :
  Forall (fun c => isspace c = true) doc_text -> _split_into_paragraphs doc_text = [].
Proof.
  intros H. unfold _split_into_paragraphs, re_split.
  pose proof (re_split_pieces _ match_blank_line false doc_text 0 [] H (List.Forall_nil _)) as Hp.
  induction Hp as [|p ps Hp _ IH]; simpl; [reflexivity|].
  rewrite (strip_blank p Hp). exact IH.
Qed.

(** X1: a text that is empty or made of whitespace only yields no chunk,
    for every parameter setting. *)
Theorem blank_text_yields_no_chunk cfg doc_text fid :
  Forall (fun c => isspace c = true) doc_text ->
  chunk_text cfg doc_text fid = [].
Proof.
  intros H. unfold chunk_text, run_loop.
  rewrite (paragraphs_of_blank doc_text H). reflexivity.
Qed.

Lemma blank_text_yields_no_chunk_witness :
  length MoreExamples.blank_text = 5%nat
  /\ chunk_text default_config MoreExamples.blank_text Examples.doc = [].
Proof.
  split; [reflexivity|].
  apply (blank_text_yields_no_chunk default_config MoreExamples.blank_text Examples.doc).
  vm_compute. repeat constructor.
Defined.

Lemma lstrip_idem s : lstrip (lstrip s) = lstrip s.
Proof.
  induction s as [|c s IH]; simpl; [reflexivity|].
  destruct (isspace c) eqn:E; [exact IH|]. simpl. rewrite E. reflexivity.
Qed.

Lemma lstrip_app_nonspace l c :
  isspace c = false -> lstrip (l ++ [c]) = lstrip l ++ [c].
Proof.
  intros Hc. induction l as [|x l IH]; simpl; [rewrite Hc; reflexivity|].
  destruct (isspace x); [exact IH | reflexivity].
Qed.

Lemma rstrip_cons_nonspace c s :
  isspace c = false -> rstrip (c :: s) = c :: rstrip s.
Proof.
  intros Hc. unfold rstrip. simpl rev.
  rewrite (lstrip_app_nonspace _ _ Hc), rev_app_distr. reflexivity.
Qed.

Lemma lstrip_fixed_head c s : lstrip (c :: s) = c :: s -> isspace c = false.
Proof.
  simpl. destruct (isspace c); [|reflexivity].
  intros H. pose proof (ChunkerProofs.lstrip_length s) as Hl.
  rewrite H in Hl. simpl in Hl. lia.
Qed.

Lemma strip_idem s : strip (strip s) = strip s.
Proof.
  unfold strip. set (t := lstrip s).
  assert (lstrip t = t) as Ht by apply lstrip_idem.
  assert (lstrip (rstrip t) = rstrip t) as ->.
  { destruct t as [|c t']; [reflexivity|].
    pose proof (lstrip_fixed_head c t' Ht) as Hc.
    rewrite (rstrip_cons_nonspace c t' Hc). simpl. rewrite Hc. reflexivity. }
  unfold rstrip. rewrite rev_involutive, lstrip_idem. reflexivity.
Qed.

(** X2: every paragraph the splitter returns is non-empty and carries no
    whitespace at either end. *)
Theorem paragraphs_are_stripped doc_text :
  Forall (fun p => p <> [] /\ strip p = p) (_split_into_paragraphs doc_text).
Proof.
  unfold _split_into_paragraphs.
  induction (re_split match_blank_line false doc_text) as [|q qs IH]; simpl;
    [constructor|].
  destruct (strip q) as [|c s] eqn:E; simpl; [exact IH|].
  constructor; [|exact IH].
  split; [discriminate|]. rewrite <- E. apply strip_idem.
Qed.

(** *** Sentences *)

Lemma no_terminator_one_piece s : forall cur,
  Forall (fun c => is_terminator c = false) s ->
  re_split_aux match_sentence_end true s 0 cur = [rev cur ++ s].
Proof.
  induction s as [|c s IH]; intros cur Hs.
  - simpl. rewrite app_nil_r. reflexivity.
  - apply Forall_cons in Hs as [Hc Hs]. cbn [re_split_aux].
    unfold match_sentence_end at 1. rewrite Hc.
    rewrite (IH (c :: cur) Hs). simpl. rewrite <- app_assoc. reflexivity.
Qed.

(** A text without sentence terminator has no sentence at all. *)
Lemma no_terminator_no_sentence s :
  Forall (fun c => is_terminator c = false) s -> _split_into_sentences s = [].
Proof.
  intros H. unfold _split_into_sentences, re_split.
  rewrite (no_terminator_one_piece s [] H). reflexivity.
Qed.

(** *** What follows the last terminator *)

(** Skipping the rest of a separator is dropping as many characters. *)
Lemma re_split_skip matcher capture : forall s k cur,
  re_split_aux matcher capture s k cur
  = re_split_aux matcher capture (skipn k s) 0 cur.
Proof.
  induction s as [|c s IH]; intros k cur.
  - rewrite skipn_nil. destruct k; reflexivity.
  - destruct k as [|k]; [reflexivity|]. cbn [re_split_aux skipn]. apply IH.
Qed.

Lemma take_while_blank (s : pystr) : Forall (fun c => isspace c = true) (take_while isspace s).
Proof.
  induction s as [|c s IH]; simpl; [constructor|].
  destruct (isspace c) eqn:E; constructor; assumption.
Qed.

Lemma take_while_split (s : pystr) :
  exists rest,
    s = take_while isspace s ++ rest
    /\ (rest = [] \/ exists d r, rest = d :: r /\ isspace d = false).
Proof.
  induction s as [|c s (rest & Hs & Hrest)]; simpl.
  - exists []. split; [reflexivity | left; reflexivity].
  - destruct (isspace c) eqn:E.
    + exists rest. split; [simpl; f_equal; exact Hs | exact Hrest].
    + exists (c :: s). split; [reflexivity | right; eauto].
Qed.

Lemma take_while_app_blank (w rest : pystr) :
  Forall (fun c => isspace c = true) w ->
  take_while isspace (w ++ rest) = w ++ take_while isspace rest.
Proof.
  induction 1 as [|c w Hc _ IH]; simpl; [reflexivity|]. rewrite Hc, IH. reflexivity.
Qed.

Lemma take_while_stops (d : char) (r : pystr) :
  isspace d = false -> take_while isspace (d :: r) = [].
Proof. intros H. simpl. rewrite H. reflexivity. Qed.

Lemma firstn_take_while (s : pystr) :
  firstn (length (take_while isspace s)) s = take_while isspace s.
Proof.
  induction s as [|c s IH]; simpl; [reflexivity|].
  destruct (isspace c); simpl; [f_equal; exact IH | reflexivity].
Qed.

Lemma lstrip_blank_app (w s : pystr) :
  Forall (fun c => isspace c = true) w -> lstrip (w ++ s) = lstrip s.
Proof. induction 1 as [|c w Hc _ IH]; simpl; [reflexivity|]. rewrite Hc. exact IH. Qed.

Lemma rstrip_app_blank (s w : pystr) :
  Forall (fun c => isspace c = true) w -> rstrip (s ++ w) = rstrip s.
Proof.
  intros Hw. unfold rstrip. rewrite rev_app_distr, lstrip_blank_app; [reflexivity|].
  apply List.Forall_rev, Hw.
Qed.

(** Trailing whitespace does not survive [strip]. *)
Lemma strip_app_blank (s w : pystr) :
  Forall (fun c => isspace c = true) w -> strip (s ++ w) = strip s.
Proof.
  intros Hw. induction s as [|c s IH].
  - simpl. rewrite (strip_blank w Hw). reflexivity.
  - unfold strip in *. cbn [app lstrip]. destruct (isspace c); [exact IH|].
    apply (rstrip_app_blank (c :: s) w Hw).
Qed.

Lemma non_terminators_skipn (k : nat) (s : pystr) :
  Forall (fun c => is_terminator c = false) s ->
  Forall (fun c => is_terminator c = false) (skipn k s).
Proof.
  intros H. rewrite <- (firstn_skipn k s) in H. apply List.Forall_app in H as [_ H]. exact H.
Qed.

(** The pieces paired into sentences are the same with and without a tail
    that holds no terminator: the tail only lengthens the last separator
    by whitespace, or the last, unpaired piece. *)
Lemma sentences_ignore_tail (tail : pystr) :
  Forall (fun c => is_terminator c = false) tail ->
  forall (n : nat) (s cur : pystr), (length s <= n)%nat ->
  map strip (pair_up (re_split_aux match_sentence_end true (s ++ tail) 0 cur))
  = map strip (pair_up (re_split_aux match_sentence_end true s 0 cur)).
Proof.
  intros Htail. induction n as [|n IH]; intros s cur Hn.
  - destruct s; [|simpl in Hn; lia]. simpl app.
    rewrite (no_terminator_one_piece tail cur Htail). reflexivity.
  - destruct s as [|c s].
    { simpl app. rewrite (no_terminator_one_piece tail cur Htail). reflexivity. }
    simpl in Hn. cbn [app re_split_aux]. unfold match_sentence_end.
    destruct (is_terminator c); [|apply IH; lia].
    rewrite !firstn_cons, !firstn_take_while.
    rewrite (re_split_skip _ _ (s ++ tail)), (re_split_skip _ _ s).
    cbn [app pair_up map].
    destruct (take_while_split s) as (rest & Hs & Hrest).
    pose proof (take_while_blank s) as Hw.
    set (w := take_while isspace s) in *.
    destruct Hrest as [->|(d & r & -> & Hd)].
    + rewrite app_nil_r in Hs.
      assert (take_while isspace (s ++ tail) = w ++ take_while isspace tail) as Htw.
      { rewrite Hs at 1. apply take_while_app_blank, Hw. }
      rewrite Htw. f_equal.
      * rewrite (app_comm_cons w), app_assoc.
        apply strip_app_blank, take_while_blank.
      * assert (length s = length w) as Hlen by (rewrite Hs at 1; reflexivity).
        rewrite length_app, skipn_app.
        rewrite (skipn_all2 s) by lia. rewrite (skipn_all2 s) by lia.
        simpl app.
        rewrite (no_terminator_one_piece _ [] (non_terminators_skipn _ tail Htail)).
        reflexivity.
    + assert (take_while isspace (s ++ tail) = w) as Htw.
      { rewrite Hs at 1. rewrite <- app_assoc, take_while_app_blank by exact Hw.
        simpl. rewrite Hd. apply app_nil_r. }
      rewrite Htw. f_equal.
      assert (skipn (length w) s = d :: r) as Hskip.
      { rewrite Hs at 1. rewrite skipn_app, skipn_all, Nat.sub_diag. reflexivity. }
      assert (skipn (length w) (s ++ tail) = (d :: r) ++ tail) as Hskip'.
      { rewrite skipn_app, Hskip.
        replace (length w - length s)%nat with 0%nat; [reflexivity|].
        assert (length s = length w + length (d :: r))%nat
          by (rewrite Hs at 1; apply length_app).
        lia. }
      rewrite Hskip, Hskip'. apply IH.
      assert (length s = length w + length (d :: r))%nat
        by (rewrite Hs at 1; apply length_app).
      lia.
Qed.

Lemma sentences_drop_tail (s tail : pystr) :
  Forall (fun c => is_terminator c = false) tail ->
  _split_into_sentences (s ++ tail) = _split_into_sentences s.
Proof.
  intros Htail. unfold _split_into_sentences, re_split.
  rewrite (sentences_ignore_tail tail Htail (length s) s [] (le_n _)). reflexivity.
Qed.

(** X3: [_split_into_sentences] drops whatever follows the last of the
    terminators [.!?。！？]: a text gives the same sentences with and without
    a tail that holds none.  So a text whose paragraphs all exceed
    [chunk_size] and hold no terminator yields no chunk at all: such a
    paragraph has no sentence to fold into the buffer, and nothing else
    keeps its text. *)
Theorem text_after_last_terminator_is_lost :
  (forall s tail,
     Forall (fun c => is_terminator c = false) tail ->
     _split_into_sentences (s ++ tail) = _split_into_sentences s)
  /\ (forall cfg doc_text fid,
        Forall (fun p => chunk_size cfg < _estimate_tokens p
                         /\ Forall (fun c => is_terminator c = false) p)
               (_split_into_paragraphs doc_text) ->
        chunk_text cfg doc_text fid = []).
Proof.
  split; [apply sentences_drop_tail|].
  intros cfg doc_text fid H. unfold chunk_text, run_loop.
  assert (fold_left (paragraph_step cfg doc_text fid)
            (_split_into_paragraphs doc_text) init_locals = init_locals) as ->;
    [|reflexivity].
  induction H as [|p ps [Hbig Hterm] _ IH]; simpl; [reflexivity|].
  assert (paragraph_step cfg doc_text fid init_locals p = init_locals) as ->;
    [|exact IH].
  unfold paragraph_step. rewrite Z.gtb_ltb.
  destruct (Z.ltb_spec (chunk_size cfg) (_estimate_tokens p)); [|lia].
  rewrite (no_terminator_no_sentence p Hterm). reflexivity.
Qed.

Lemma text_after_last_terminator_is_lost_witness :
  _split_into_sentences (lit "One. Two! " ++ lit "three")
  = _split_into_sentences (lit "One. Two! ")
  /\ _split_into_sentences (lit "One. Two! ") = [lit "One."; lit "Two!"]
  /\ chunk_text Examples.small_config MoreExamples.unpunctuated_text Examples.doc = [].
Proof.
  split; [|split].
  - apply (proj1 text_after_last_terminator_is_lost).
    vm_compute. repeat constructor.
  - vm_compute. reflexivity.
  - apply (proj2 text_after_last_terminator_is_lost Examples.small_config
             MoreExamples.unpunctuated_text Examples.doc).
    vm_compute. repeat constructor.
Defined.

(** *** The overlap window *)

Lemma lstrip_suffix s : exists pre, s = pre ++ lstrip s.
Proof.
  induction s as [|c s [pre IH]]; [exists []; reflexivity|]. simpl.
  destruct (isspace c); [|exists []; reflexivity].
  exists (c :: pre). simpl. f_equal. exact IH.
Qed.

Lemma rstrip_prefix s : exists post, s = rstrip s ++ post.
Proof.
  unfold rstrip. destruct (lstrip_suffix (rev s)) as [pre H].
  exists (rev pre). rewrite <- rev_app_distr, <- H, rev_involutive. reflexivity.
Qed.

Lemma strip_infix s : exists pre post, s = pre ++ strip s ++ post.
Proof.
  unfold strip. destruct (lstrip_suffix s) as [pre H].
  destruct (rstrip_prefix (lstrip s)) as [post H'].
  exists pre, post. rewrite <- H'. exact H.
Qed.

Lemma rstrip_length s : (length (rstrip s) <= length s)%nat.
Proof.
  unfold rstrip. rewrite length_rev.
  pose proof (ChunkerProofs.lstrip_length (rev s)) as H. rewrite length_rev in H. exact H.
Qed.

(** The window before trimming: the characters of the text from
    [overlap_start] up to [start_pos]. *)
Lemma window_in_text (s : pystr) a b :
  0 <= a -> 0 < b ->
  exists pre post,
    s = pre ++ slice s a b ++ post
    /\ (slice s a b <> [] ->
        Z.of_nat (length pre) + len (slice s a b) <= b)
    /\ len (slice s a b) <= Z.max 0 (b - a).
Proof.
  intros Ha Hb. unfold slice, clamp_index, len.
  destruct (Z.ltb_spec a 0); [lia|]. destruct (Z.ltb_spec b 0); [lia|].
  set (a' := Z.to_nat (Z.min a (Z.of_nat (length s)))).
  set (b' := Z.to_nat (Z.min b (Z.of_nat (length s)))).
  exists (firstn a' s), (skipn (b' - a') (skipn a' s)).
  split; [|split].
  - rewrite firstn_skipn, firstn_skipn. reflexivity.
  - intros Hne.
    assert (a' < b')%nat.
    { destruct (Nat.lt_ge_cases a' b') as [|Hge]; [assumption|].
      exfalso. apply Hne. replace (b' - a')%nat with 0%nat by lia. reflexivity. }
    rewrite length_firstn, length_firstn, length_skipn. subst a' b'. lia.
  - rewrite length_firstn, length_skipn. subst a' b'. lia.
Qed.

Lemma slice_from_suffix (s : pystr) k : exists pre, s = pre ++ slice_from s k.
Proof.
  unfold slice_from. exists (firstn (clamp_index s k) s).
  symmetry. apply firstn_skipn.
Qed.

(** The two trimming steps keep a suffix of the window. *)
Lemma trimmed_suffix (w : pystr) :
  let para_start := rfind w [NL; NL] in
  let sent_start :=
    Z.max (rfind w [0x3002%N])
    (Z.max (rfind w [46%N])
    (Z.max (rfind w [0xFF01%N])
    (Z.max (rfind w [33%N])
    (Z.max (rfind w [0xFF1F%N]) (rfind w [63%N]))))) in
  exists pre,
    w = pre ++ (if beyond_30_percent para_start w
                then slice_from w (para_start + 2)
                else if beyond_30_percent sent_start w
                     then slice_from w (sent_start + 1)
                     else w).
Proof.
  intros para_start sent_start.
  destruct (beyond_30_percent para_start w); [apply slice_from_suffix|].
  destruct (beyond_30_percent sent_start w); [apply slice_from_suffix|].
  exists []. reflexivity.
Qed.

Lemma overlap_in_window text pos o :
  0 < pos ->
  exists pre post,
    slice text (Z.max 0 (pos - overlap_chars_of o)) pos
    = pre ++ _get_overlap_text text pos o ++ post.
Proof.
  intros Hpos. unfold _get_overlap_text.
  destruct (Z.leb_spec pos 0); [lia|].
  set (w := slice text (Z.max 0 (pos - overlap_chars_of o)) pos).
  cbv zeta.
  destruct (trimmed_suffix w) as [p1 H1]. cbv zeta in H1.
  match type of H1 with _ = _ ++ ?t =>
    destruct (strip_infix t) as (p2 & q2 & H2); exists (p1 ++ p2), q2;
    rewrite <- app_assoc; etransitivity; [exact H1 | f_equal; exact H2]
  end.
Qed.

Lemma overlap_chars_nonneg o : 0 <= o -> 0 <= overlap_chars_of o /\ 3 * overlap_chars_of o <= 4 * o.
Proof.
  intros Ho. unfold overlap_chars_of. rewrite Z.quot_div_nonneg by lia.
  split; [apply Z.div_pos; lia | apply Z.mul_div_le; lia].
Qed.

Lemma overlap_chars_nonpos o : o <= 0 -> overlap_chars_of o <= 0.
Proof.
  intros Ho. unfold overlap_chars_of.
  apply Z.le_trans with (Z.quot 0 3); [apply Z.quot_le_mono; lia|].
  change (Z.quot 0 3) with 0. lia.
Qed.

(** X4: the overlap seed is stripped, is empty when nothing precedes the
    position or when [overlap_size] is not positive, and otherwise has at
    most [int(overlap_size / 0.75)] characters, so that its estimate never
    exceeds [overlap_size] tokens. *)
Theorem overlap_within_budget text pos o :
  let ov := _get_overlap_text text pos o in
  strip ov = ov
  /\ (pos <= 0 \/ o <= 0 -> ov = [])
  /\ (0 <= o -> len ov <= overlap_chars_of o /\ _estimate_tokens ov <= o).
Proof.
  intros ov.
  assert (0 < pos -> len ov <= Z.max 0 (Z.min pos (overlap_chars_of o))) as Hlen.
  { intros Hpos. destruct (overlap_in_window text pos o Hpos) as (p & q & Hw).
    fold ov in Hw.
    destruct (window_in_text text (Z.max 0 (pos - overlap_chars_of o)) pos
                ltac:(lia) Hpos) as (_ & _ & _ & _ & Hb).
    rewrite Hw in Hb. unfold len in *. rewrite !length_app in Hb. lia. }
  assert (pos <= 0 -> ov = []) as Hzero.
  { intros Hpos. unfold ov, _get_overlap_text.
    destruct (Z.leb_spec pos 0); [reflexivity | lia]. }
  split; [|split].
  - unfold ov, _get_overlap_text. destruct (pos <=? 0); [reflexivity|].
    cbv zeta. apply strip_idem.
  - intros [Hpos|Ho]; [auto|].
    destruct (Z.le_gt_cases pos 0) as [|Hpos]; [auto|].
    specialize (Hlen Hpos). pose proof (overlap_chars_nonpos o Ho).
    destruct ov; [reflexivity|]. unfold len in Hlen. simpl in Hlen. lia.
  - intros Ho. destruct (overlap_chars_nonneg o Ho) as [Hc0 Hc].
    assert (len ov <= overlap_chars_of o) as Hle.
    { destruct (Z.le_gt_cases pos 0) as [Hpos|Hpos].
      - rewrite (Hzero Hpos). unfold len. simpl. lia.
      - specialize (Hlen Hpos). lia. }
    split; [exact Hle|].
    unfold _estimate_tokens. apply Z.div_le_upper_bound; lia.
Qed.

Lemma overlap_within_budget_witness :
  _get_overlap_text Examples.repeated_text 23 3 = lit "a

b"
  /\ len (_get_overlap_text Examples.repeated_text 23 3) <= overlap_chars_of 3
  /\ _estimate_tokens (_get_overlap_text Examples.repeated_text 23 3) <= 3.
Proof.
  split; [reflexivity|].
  apply (proj2 (proj2 (overlap_within_budget Examples.repeated_text 23 3))). lia.
Defined.

(** X5: the overlap seed is a contiguous piece of the text that ends at or
    before the position it is taken for. *)
Theorem overlap_is_preceding_text text pos o :
  exists pre post,
    text = pre ++ _get_overlap_text text pos o ++ post
    /\ Z.of_nat (length pre) + len (_get_overlap_text text pos o) <= Z.max 0 pos.
Proof.
  destruct (Z.le_gt_cases pos 0) as [Hpos|Hpos].
  { exists [], text. unfold _get_overlap_text.
    destruct (Z.leb_spec pos 0); [|lia]. split; [reflexivity|]. unfold len. simpl. lia. }
  destruct (overlap_in_window text pos o Hpos) as (p & q & Hw).
  destruct (_get_overlap_text text pos o) as [|c ov] eqn:E.
  { exists [], text. split; [reflexivity|]. unfold len. simpl. lia. }
  destruct (window_in_text text (Z.max 0 (pos - overlap_chars_of o)) pos
              ltac:(lia) Hpos) as (p0 & q0 & Ht & Hend & _).
  exists (p0 ++ p), (q ++ q0). split.
  - rewrite Ht at 1. rewrite Hw. rewrite <- !app_assoc. reflexivity.
  - specialize (Hend ltac:(rewrite Hw; destruct p; discriminate)).
    rewrite Hw in Hend. unfold len in *. rewrite !length_app in *. lia.
Qed.

(** *** An invariant of the loop for one document *)

Lemma paragraphs_nonempty doc_text :
  Forall (fun p => p <> []) (_split_into_paragraphs doc_text).
Proof.
  unfold _split_into_paragraphs. apply List.Forall_forall. intros p Hp.
  apply List.filter_In in Hp as [_ Hp]. destruct p; [discriminate Hp | discriminate].
Qed.

Lemma sentences_nonempty s :
  Forall (fun p => p <> []) (_split_into_sentences s).
Proof.
  unfold _split_into_sentences. apply List.Forall_forall. intros p Hp.
  apply List.filter_In in Hp as [_ Hp]. destruct p; [discriminate Hp | discriminate].
Qed.

Section DocumentInvariant.

Variable cfg : config.
Variables doc_text fid : pystr.
Variable Inv : locals -> Prop.

(** Every emission in the code is guarded by [if current_chunk], and every
    unit appended is a non-empty paragraph or sentence. *)
Hypothesis Inv_emit : forall st, Inv st -> current_chunk st <> [] -> Inv (emit fid st).
Hypothesis Inv_seed : forall st, Inv st -> Inv (seed_overlap cfg doc_text st).
Hypothesis Inv_reset : forall z st, Inv st -> Inv (reset_buffer z st).
Hypothesis Inv_push :
  forall u st, u <> [] -> Inv st -> Inv (push_unit u (_estimate_tokens u) st).
Hypothesis Inv_start : forall z st, Inv st -> Inv (set_start z st).

Lemma nonempty_true {A} (l : list A) : nonempty l = true -> l <> [].
Proof. destruct l; [discriminate | discriminate]. Qed.

Lemma guarded_sentence_step st sentence :
  sentence <> [] -> Inv st -> Inv (sentence_step cfg doc_text fid st sentence).
Proof using All.
  intros Hne H. unfold sentence_step.
  match goal with |- context [push_unit _ _ ?s] => assert (Inv s) as H1 end.
  { destruct (_ >? _); [|exact H].
    destruct (nonempty (current_chunk st)) eqn:E; [|exact H].
    apply nonempty_true in E.
    destruct (_ && _); auto. }
  destruct (_ =? 0); auto.
Qed.

Lemma guarded_sentences sentences : forall st,
  Forall (fun s => s <> []) sentences ->
  Inv st -> Inv (fold_left (sentence_step cfg doc_text fid) sentences st).
Proof using All.
  induction sentences as [|s rest IH]; simpl; intros st Hne H; [exact H|].
  apply Forall_cons in Hne as [Hs Hrest].
  apply IH; [exact Hrest|]. apply guarded_sentence_step; assumption.
Qed.

Lemma guarded_paragraph_step st para :
  para <> [] -> Inv st -> Inv (paragraph_step cfg doc_text fid st para).
Proof using All.
  intros Hne H. unfold paragraph_step.
  destruct (_ >? _).
  - apply guarded_sentences; [apply sentences_nonempty|].
    destruct (nonempty (current_chunk st)) eqn:E; [|exact H].
    apply nonempty_true in E. auto.
  - destruct (_ <=? _).
    + destruct (_ || _); auto.
    + match goal with |- context [push_unit _ _ ?s] => assert (Inv s) as H1 end.
      { destruct (nonempty (current_chunk st)) eqn:E; [|exact H].
        apply nonempty_true in E. auto. }
      destruct (_ =? 0); auto.
Qed.

Lemma guarded_run_loop : Inv init_locals -> Inv (run_loop cfg doc_text fid).
Proof using All.
  unfold run_loop. pose proof (paragraphs_nonempty doc_text) as Hne. revert Hne.
  generalize (_split_into_paragraphs doc_text), init_locals.
  intros ps. induction ps as [|p ps IH]; simpl; intros st Hne H; [exact H|].
  apply Forall_cons in Hne as [Hp Hps].
  apply IH; [exact Hps|]. apply guarded_paragraph_step; assumption.
Qed.

(** The result is the chunk list of some state the invariant holds for. *)
Lemma chunk_text_reaches :
  Inv init_locals ->
  exists st, Inv st /\ chunk_text cfg doc_text fid = chunks st.
Proof using All.
  intros H0. pose proof (guarded_run_loop H0) as Hl.
  unfold chunk_text, finish.
  destruct (nonempty (current_chunk (run_loop cfg doc_text fid))) eqn:E; [|eauto].
  apply nonempty_true in E.
  destruct (_ >=? _); eauto.
Qed.

End DocumentInvariant.

(** *** Indices and identifiers *)

Lemma chunk_text_numbered cfg doc_text fid :
  exists st, numbered fid st /\ chunk_text cfg doc_text fid = chunks st.
Proof.
  apply chunk_text_reaches; try (intros; assumption).
  - intros st (Hn & Hi & Hf) _. unfold numbered. simpl.
    rewrite length_app, Nat.add_1_r. split; [lia|]. split.
    + rewrite map_app, seq_S, map_app, Hi, Hn. reflexivity.
    + apply Forall_app. split; [exact Hf|].
      constructor; [|constructor]. split; reflexivity.
  - split; [reflexivity|]. split; [reflexivity | constructor].
Qed.

(** X6: the chunks of a document are numbered 0, 1, 2, ... in the order in
    which they are returned; each carries the document's [file_id] and the
    identifier [file_id + "_chunk_" + str(chunk_index)]. *)
Theorem chunks_numbered_in_order cfg doc_text fid :
  let cs := chunk_text cfg doc_text fid in
  map chunk_index cs = map Z.of_nat (seq 0 (length cs))
  /\ Forall (fun c => file_id c = fid
                      /\ chunk_id c = fid ++ lit "_chunk_" ++ str_of_int (chunk_index c))
            cs.
Proof.
  destruct (chunk_text_numbered cfg doc_text fid) as (st & (_ & Hi & Hf) & ->).
  split; assumption.
Qed.

Lemma join_nonempty units :
  units <> [] -> Forall (fun u => u <> []) units -> join SEP units <> [].
Proof.
  intros Hne Hall. destruct units as [|u rest]; [congruence|].
  apply Forall_cons in Hall as [Hu _].
  destruct u as [|c u]; [congruence|].
  destruct rest; simpl; discriminate.
Qed.

(** X7: no chunk is empty: every emitted chunk has a non-empty text and a
    span with [start_char < end_char]. *)
Theorem chunks_are_nonempty cfg doc_text fid c :
  In c (chunk_text cfg doc_text fid) ->
  text c <> [] /\ start_char c < end_char c.
Proof.
  intros Hin.
  destruct (chunk_text_reaches cfg doc_text fid
              (fun st => Forall (fun c => text c <> [] /\ start_char c < end_char c)
                                (chunks st)
                         /\ Forall (fun u => u <> []) (current_chunk st)))
    as (st & (Hc & _) & Heq).
  - intros st [Hc Hb] Hne. split; [|exact Hb]. simpl.
    apply Forall_app. split; [exact Hc|].
    constructor; [|constructor]. simpl.
    pose proof (join_nonempty _ Hne Hb) as Hj.
    split; [exact Hj|]. unfold len. destruct (join SEP (current_chunk st)); [congruence|].
    simpl. lia.
  - intros st [Hc Hb]. split; [exact Hc|]. simpl.
    destruct (_get_overlap_text _ _ _) eqn:E; simpl; constructor; [discriminate | constructor].
  - intros z st [Hc Hb]. split; [exact Hc | constructor].
  - intros u st Hu [Hc Hb]. split; [exact Hc|]. simpl.
    apply Forall_app. split; [exact Hb|]. constructor; [exact Hu | constructor].
  - intros z st H. exact H.
  - split; constructor.
  - rewrite Heq in Hin. rewrite List.Forall_forall in Hc. exact (Hc c Hin).
Qed.

Lemma chunks_are_nonempty_witness :
  exists c, In c (chunk_text Examples.small_config Examples.repeated_text Examples.doc)
            /\ chunk_index c = 0
            /\ text c <> [] /\ start_char c < end_char c.
Proof.
  eexists. split; [vm_compute; left; reflexivity|]. split; [reflexivity|].
  apply (chunks_are_nonempty Examples.small_config Examples.repeated_text Examples.doc).
  vm_compute. left; reflexivity.
Defined.

(** *** Identifiers are distinct *)

Lemma digits_are_ascii d :
  Forall (fun a => (N_of_ascii a < 128)%N)
         (list_ascii_of_string (NilEmpty.string_of_uint d)).
Proof.
  induction d; simpl; constructor; try assumption; reflexivity.
Qed.

Lemma int_string_is_ascii z :
  Forall (fun a => (N_of_ascii a < 128)%N)
         (list_ascii_of_string (NilZero.string_of_int (Z.to_int z))).
Proof.
  assert (forall d, Forall (fun a => (N_of_ascii a < 128)%N)
                      (list_ascii_of_string (NilZero.string_of_uint d))) as Hu.
  { intros d. destruct d; try apply (digits_are_ascii _).
    simpl. constructor; [reflexivity | constructor]. }
  unfold NilZero.string_of_int. destruct (Z.to_int z) as [d|d]; [apply Hu|].
  simpl. constructor; [reflexivity | apply Hu].
Qed.

Lemma utf8_decode_ascii bs :
  Forall (fun b => (b < 128)%N) bs -> utf8_decode bs = bs.
Proof.
  induction 1 as [|b bs Hb _ IH]; simpl; [reflexivity|].
  destruct (N.ltb_spec b 128); [|lia]. rewrite IH. reflexivity.
Qed.

Lemma lit_ascii s :
  Forall (fun a => (N_of_ascii a < 128)%N) (list_ascii_of_string s) ->
  lit s = map N_of_ascii (list_ascii_of_string s).
Proof.
  intros H. unfold lit. apply utf8_decode_ascii.
  induction H; simpl; constructor; assumption.
Qed.

Lemma N_of_ascii_inj a b : N_of_ascii a = N_of_ascii b -> a = b.
Proof.
  intros H. rewrite <- (ascii_N_embedding a), <- (ascii_N_embedding b), H. reflexivity.
Qed.

(** [str] of an [int] determines the [int]. *)
Lemma str_of_int_inj a b : str_of_int a = str_of_int b -> a = b.
Proof.
  unfold str_of_int. rewrite !lit_ascii by apply int_string_is_ascii.
  intros H.
  assert (list_ascii_of_string (NilZero.string_of_int (Z.to_int a))
          = list_ascii_of_string (NilZero.string_of_int (Z.to_int b))) as Hl.
  { revert H.
    generalize (list_ascii_of_string (NilZero.string_of_int (Z.to_int a))),
               (list_ascii_of_string (NilZero.string_of_int (Z.to_int b))).
    intros l1. induction l1 as [|x l1 IH]; intros [|y l2]; simpl; try discriminate;
      [reflexivity|].
    intros [= Hx Hl]. f_equal; [apply N_of_ascii_inj, Hx | apply IH, Hl]. }
  apply (f_equal string_of_list_ascii) in Hl.
  rewrite !string_of_list_ascii_of_string in Hl.
  assert (forall z, NilZero.int_of_string (NilZero.string_of_int (Z.to_int z))
                    = Some (Z.to_int z)) as Hisi.
  { intros z. apply NilZero.isi; destruct z; simpl; try discriminate;
      intros [= Hp]; exact (DecimalPos.Unsigned.to_uint_nonnil _ Hp). }
  apply (f_equal NilZero.int_of_string) in Hl. rewrite !Hisi in Hl.
  injection Hl as Hl. apply DecimalZ.to_int_inj, Hl.
Qed.

Lemma NoDup_map_injective {A B} (f : A -> B) (l : list A) :
  (forall x y, f x = f y -> x = y) -> List.NoDup l -> List.NoDup (map f l).
Proof.
  intros Hinj. induction 1 as [|x l Hx _ IH]; simpl; constructor; [|exact IH].
  intros Hin. apply List.in_map_iff in Hin as (y & Hy & Hin).
  apply Hinj in Hy as ->. contradiction.
Qed.

Lemma chunk_ids_distinct cfg doc_text fid :
  List.NoDup (map chunk_id (chunk_text cfg doc_text fid)).
Proof.
  destruct (chunk_text_numbered cfg doc_text fid) as (st & (_ & Hi & Hf) & ->).
  assert (map chunk_id (chunks st)
          = map (fun i => fid ++ lit "_chunk_" ++ str_of_int i) (map chunk_index (chunks st)))
    as ->.
  { clear Hi. rewrite map_map.
    induction Hf as [|c cs [_ Hc] _ IH]; simpl; [reflexivity|].
    f_equal; assumption. }
  rewrite Hi, map_map.
  apply NoDup_map_injective; [|apply List.seq_NoDup].
  intros i j H. apply app_inv_head, app_inv_head, str_of_int_inj in H. lia.
Qed.

(** X8: within one document no two chunks share a [chunk_id]. *)
Theorem chunk_ids_are_unique cfg doc_text fid :
  List.NoDup (map chunk_id (chunk_text cfg doc_text fid)).
Proof. apply chunk_ids_distinct. Qed.

End ChunkerExtras.

(** * Further properties of the chunk table *)

Module DatabaseExtras.

Import ChunkDatabase MoreSpec.

Lemma chunk_of_row_of c : chunk_of (TextChunker.chunk_id c, row_of c) = c.
Proof. destruct c; reflexivity. Qed.

Lemma get_chunk_insert_eq (db : table) c :
  get_chunk (insert_chunk db c) (TextChunker.chunk_id c) = Some c.
Proof.
  unfold get_chunk, insert_chunk. rewrite lookup_insert_eq, chunk_of_row_of. reflexivity.
Qed.

Lemma get_chunk_insert_ne (db : table) c id :
  id <> TextChunker.chunk_id c -> get_chunk (insert_chunk db c) id = get_chunk db id.
Proof.
  intros Hne. unfold get_chunk, insert_chunk. rewrite lookup_insert_ne by congruence.
  reflexivity.
Qed.

Lemma fits_int64_iff (z : Z) : fits_int64 z = true <-> - 2 ^ 63 <= z < 2 ^ 63.
Proof. unfold fits_int64. rewrite andb_true_iff, Z.leb_le, Z.ltb_lt. reflexivity. Qed.

Lemma bind_int_fits (z : Z) : - 2 ^ 63 <= z < 2 ^ 63 -> bind_int z = inr tt.
Proof. intros H. unfold bind_int. rewrite (proj2 (fits_int64_iff z) H). reflexivity. Qed.

Lemma bind_int_overflow (z : Z) :
  ~ (- 2 ^ 63 <= z < 2 ^ 63) -> exists m, bind_int z = inl {| cls := OverflowError; msg := m |}.
Proof.
  intros H. unfold bind_int. destruct (fits_int64 z) eqn:E.
  - apply fits_int64_iff in E. contradiction.
  - eexists. reflexivity.
Qed.

Lemma bind_int_cases (z : Z) :
  bind_int z = inr tt \/ exists m, bind_int z = inl {| cls := OverflowError; msg := m |}.
Proof. unfold bind_int. destruct (fits_int64 z); [left | right; eexists]; reflexivity. Qed.

Lemma bind_str_encodable (s : pystr) : encodable s = true -> bind_str s = inr tt.
Proof. intros H. unfold bind_str. rewrite H. reflexivity. Qed.

(** Every column of a bindable chunk is bound. *)
Lemma bindable_binds (c : TextChunker.chunk) : bindable c -> bind_parameters c = inr tt.
Proof.
  intros (H1 & H2 & H3 & Hz). unfold bind_parameters.
  apply Forall_cons in Hz as [Hi Hz]. apply Forall_cons in Hz as [Hs Hz].
  apply Forall_cons in Hz as [He Hz]. apply Forall_cons in Hz as [Ht _].
  cbn [fold_right].
  rewrite !bind_str_encodable, !bind_int_fits by assumption. reflexivity.
Qed.

Lemma binds_bindable (c : TextChunker.chunk) : bind_parameters c = inr tt -> bindable c.
Proof.
  unfold bind_parameters, bindable, bind_str, bind_int. cbn [fold_right].
  destruct (encodable (TextChunker.chunk_id c)); [|discriminate].
  destruct (encodable (TextChunker.file_id c)); [|discriminate].
  destruct (fits_int64 (TextChunker.chunk_index c)) eqn:Ei; [|discriminate].
  destruct (encodable (TextChunker.text c)); [|discriminate].
  destruct (fits_int64 (TextChunker.start_char c)) eqn:Es; [|discriminate].
  destruct (fits_int64 (TextChunker.end_char c)) eqn:Ee; [|discriminate].
  destruct (fits_int64 (TextChunker.token_count c)) eqn:Et; [|discriminate].
  intros _. repeat split; try reflexivity.
  repeat (constructor; [apply fits_int64_iff; assumption|]). constructor.
Qed.

(** An integer out of range raises [OverflowError] when the text columns
    bind. *)
Lemma overflows_raises (c : TextChunker.chunk) :
  overflows c ->
  exists m, bind_parameters c = inl {| cls := OverflowError; msg := m |}.
Proof.
  intros (H1 & H2 & H3 & Hz).
  unfold bind_parameters, bind_str, bind_int. cbn [fold_right].
  rewrite H1, H2, H3.
  destruct (fits_int64 (TextChunker.chunk_index c)) eqn:Ei; [|eexists; reflexivity].
  destruct (fits_int64 (TextChunker.start_char c)) eqn:Es; [|eexists; reflexivity].
  destruct (fits_int64 (TextChunker.end_char c)) eqn:Ee; [|eexists; reflexivity].
  destruct (fits_int64 (TextChunker.token_count c)) eqn:Et; [|eexists; reflexivity].
  exfalso. apply fits_int64_iff in Ei, Es, Ee, Et.
  apply Exists_cons in Hz as [Hz|Hz]; [contradiction|].
  apply Exists_cons in Hz as [Hz|Hz]; [contradiction|].
  apply Exists_cons in Hz as [Hz|Hz]; [contradiction|].
  apply Exists_cons in Hz as [Hz|Hz]; [contradiction|].
  apply Exists_nil in Hz. exact Hz.
Qed.

(** The two forms of the codec's message. *)
Lemma bind_str_surrogates :
  bind_str (lit "a" ++ [0xDC80%N])
  = raise UnicodeEncodeError
      (lit "'utf-8' codec can't encode character '\udc80' in position 1: surrogates not allowed")
  /\ bind_str (lit "f" ++ [0xDC80%N; 0xDC81%N] ++ lit "x")
     = raise UnicodeEncodeError
         (lit "'utf-8' codec can't encode characters in position 1-2: surrogates not allowed").
Proof. split; vm_compute; reflexivity. Qed.

(** A batch is written up to the first chunk that cannot be bound: the
    chunk before it is stored, the one after it is not. *)
Lemma batch_stops_at_overflow :
  let c := chunk_of (RetrievalExample.c2, RetrievalExample.row_with (lit "gamma")) in
  let late := chunk_of (lit "doc_chunk_10", RetrievalExample.row_with (lit "delta")) in
  let outcome := try_insert_chunks_batch RetrievalExample.db
                   [c; MoreExamples.oversized_count; late] in
  outcome.2 = raise OverflowError (lit "Python int too large to convert to SQLite INTEGER")
  /\ get_chunk outcome.1 RetrievalExample.c2 = Some c
  /\ get_chunk outcome.1 (lit "doc_chunk_9") = None
  /\ get_chunk outcome.1 (lit "doc_chunk_10") = None.
Proof. repeat split; vm_compute; reflexivity. Qed.

(** X9: [insert_chunk] as it is called is an upsert keyed by [chunk_id] for
    a chunk whose columns bind: it returns normally, the chunk is read back
    unchanged, every other key reads as before, and a second chunk written
    under the same key leaves the table as if only the second had been
    written.  A chunk with a column that cannot be bound raises and nothing
    is written; an integer outside 64 bits raises [OverflowError]. *)
Theorem insert_then_get (db : table) (c : TextChunker.chunk) :
  (bindable c ->
   try_insert_chunk db c = (insert_chunk db c, inr tt)
   /\ get_chunk (try_insert_chunk db c).1 (TextChunker.chunk_id c) = Some c
   /\ (forall id, id <> TextChunker.chunk_id c ->
         get_chunk (try_insert_chunk db c).1 id = get_chunk db id)
   /\ (forall c', TextChunker.chunk_id c' = TextChunker.chunk_id c -> bindable c' ->
         try_insert_chunk (try_insert_chunk db c).1 c' = try_insert_chunk db c'))
  /\ (~ bindable c -> exists e, try_insert_chunk db c = (db, inl e))
  /\ (overflows c ->
      exists m, try_insert_chunk db c = (db, inl {| cls := OverflowError; msg := m |})).
Proof.
  unfold try_insert_chunk. split; [|split].
  - intros Hb. rewrite (bindable_binds c Hb). cbn [fst].
    split; [reflexivity|]. split; [apply get_chunk_insert_eq|].
    split; [apply get_chunk_insert_ne|].
    intros c' Hid Hb'. rewrite (bindable_binds c' Hb').
    unfold insert_chunk. rewrite Hid, insert_insert_eq. reflexivity.
  - intros Hn. destruct (bind_parameters c) as [e|[]] eqn:E; [eauto|].
    contradiction Hn. apply binds_bindable, E.
  - intros Ho. destruct (overflows_raises c Ho) as [m ->]. eauto.
Qed.

Lemma insert_then_get_witness :
  (let c := chunk_of (RetrievalExample.c2, RetrievalExample.row_with (lit "gamma")) in
   get_chunk (try_insert_chunk RetrievalExample.db c).1 RetrievalExample.c2 = Some c
   /\ get_chunk (try_insert_chunk RetrievalExample.db c).1 RetrievalExample.c1
      = get_chunk RetrievalExample.db RetrievalExample.c1)
  /\ exists m,
       try_insert_chunk RetrievalExample.db MoreExamples.oversized_count
       = (RetrievalExample.db, inl {| cls := OverflowError; msg := m |}).
Proof.
  split.
  - intros c.
    destruct (proj1 (insert_then_get RetrievalExample.db c)) as (_ & Hget & Hother & _).
    { apply binds_bindable. vm_compute. reflexivity. }
    split; [exact Hget|]. apply Hother. vm_compute. discriminate.
  - apply (proj2 (proj2 (insert_then_get RetrievalExample.db
                           MoreExamples.oversized_count))).
    refine (conj _ (conj _ (conj _ _))); [vm_compute; reflexivity ..|].
    right. right. right. left. vm_compute. intros [_ H]. discriminate H.
Defined.

Lemma insert_chunk_size (db : table) (c : TextChunker.chunk) :
  get_total_chunks (insert_chunk db c)
  = match get_chunk db (TextChunker.chunk_id c) with
    | Some _ => get_total_chunks db
    | None => get_total_chunks db + 1
    end.
Proof.
  unfold get_total_chunks, get_chunk, insert_chunk.
  destruct (db !! TextChunker.chunk_id c) as [r|] eqn:E.
  - rewrite <- (insert_id db _ _ E) at 2.
    rewrite <- (insert_delete_eq db), <- (insert_delete_eq db (TextChunker.chunk_id c) r).
    rewrite !map_size_insert_None by apply lookup_delete_eq. reflexivity.
  - rewrite map_size_insert_None by exact E. lia.
Qed.

(** X10: a call of [insert_chunk] raises the row count by one when the
    columns bind and the key is new; the count stays the same when the key
    is replaced, and when the call raises. *)
Theorem insert_counts_new_keys (db : table) (c : TextChunker.chunk) :
  (bindable c ->
   get_total_chunks (try_insert_chunk db c).1
   = match get_chunk db (TextChunker.chunk_id c) with
     | Some _ => get_total_chunks db
     | None => get_total_chunks db + 1
     end)
  /\ (~ bindable c ->
      get_total_chunks (try_insert_chunk db c).1 = get_total_chunks db).
Proof.
  unfold try_insert_chunk. split.
  - intros Hb. rewrite (bindable_binds c Hb). apply insert_chunk_size.
  - intros Hn. destruct (bind_parameters c) as [e|[]] eqn:E; [reflexivity|].
    contradiction Hn. apply binds_bindable, E.
Qed.

Lemma insert_counts_new_keys_witness :
  get_total_chunks
    (try_insert_chunk RetrievalExample.db
       (chunk_of (RetrievalExample.c2, RetrievalExample.row_with (lit "gamma")))).1 = 3
  /\ get_total_chunks
       (try_insert_chunk RetrievalExample.db MoreExamples.oversized_count).1 = 2.
Proof.
  split.
  - rewrite (proj1 (insert_counts_new_keys RetrievalExample.db
                      (chunk_of (RetrievalExample.c2,
                                 RetrievalExample.row_with (lit "gamma"))))).
    + vm_compute. reflexivity.
    + apply binds_bindable. vm_compute. reflexivity.
  - rewrite (proj2 (insert_counts_new_keys RetrievalExample.db
                      MoreExamples.oversized_count)).
    + vm_compute. reflexivity.
    + intros Hb. apply bindable_binds in Hb. vm_compute in Hb. discriminate Hb.
Defined.

Lemma get_chunk_batch cs : forall (db : table) id,
  get_chunk (insert_chunks_batch db cs) id
  = match last_with_id id cs with
    | Some c => Some c
    | None => get_chunk db id
    end.
Proof.
  unfold insert_chunks_batch, last_with_id.
  induction cs as [|c cs IH] using rev_ind; intros db id; [reflexivity|].
  rewrite fold_left_app, rev_app_distr. simpl.
  destruct (bool_decide_reflect (TextChunker.chunk_id c = id)) as [<-|Hne].
  - apply get_chunk_insert_eq.
  - rewrite get_chunk_insert_ne by congruence. apply IH.
Qed.

(** The call writes the rows up to the first chunk that cannot be bound. *)
Lemma try_batch_prefix (cs : list TextChunker.chunk) : forall (db : table),
  exists written rest,
    cs = written ++ rest
    /\ Forall bindable written
    /\ (try_insert_chunks_batch db cs).1 = insert_chunks_batch db written
    /\ match rest with
       | [] => (try_insert_chunks_batch db cs).2 = inr tt
       | c :: _ => ~ bindable c
                   /\ exists e, bind_parameters c = inl e
                                /\ (try_insert_chunks_batch db cs).2 = inl e
       end.
Proof.
  induction cs as [|c cs IH]; intros db.
  - exists [], []. repeat split. constructor.
  - cbn [try_insert_chunks_batch].
    destruct (bind_parameters c) as [e|[]] eqn:E.
    + exists [], (c :: cs). split; [reflexivity|]. split; [constructor|].
      split; [reflexivity|]. split; [|eauto].
      intros Hb. rewrite (bindable_binds c Hb) in E. discriminate.
    + destruct (IH (insert_chunk db c)) as (written & rest & -> & Hw & Ht & Hr).
      exists (c :: written), rest. split; [reflexivity|].
      split; [constructor; [apply binds_bindable, E | exact Hw]|].
      split; [exact Ht | exact Hr].
Qed.

(** X11: a call of [insert_chunks_batch] on chunks that all bind returns
    normally, and a key then reads as the last chunk of the batch written
    under it, or as before when the batch has none.  In general the call
    writes the chunks before the first one that cannot be bound, raises
    the error of binding that one, and the keys read as after a batch of
    the chunks written. *)
Theorem batch_last_write_wins (db : table) (cs : list TextChunker.chunk) :
  (Forall bindable cs ->
   try_insert_chunks_batch db cs = (insert_chunks_batch db cs, inr tt)
   /\ forall id,
        get_chunk (try_insert_chunks_batch db cs).1 id
        = match last_with_id id cs with
          | Some c => Some c
          | None => get_chunk db id
          end)
  /\ exists written rest,
       cs = written ++ rest
       /\ Forall bindable written
       /\ match rest with
          | [] => (try_insert_chunks_batch db cs).2 = inr tt
          | c :: _ => ~ bindable c
                      /\ exists e, bind_parameters c = inl e
                                   /\ (try_insert_chunks_batch db cs).2 = inl e
          end
       /\ forall id,
            get_chunk (try_insert_chunks_batch db cs).1 id
            = match last_with_id id written with
              | Some c => Some c
              | None => get_chunk db id
              end.
Proof.
  destruct (try_batch_prefix cs db) as (written & rest & Hcs & Hw & Ht & Hr).
  split.
  - intros Hall.
    assert (rest = []) as ->.
    { destruct rest as [|c rest]; [reflexivity|]. destruct Hr as [Hn _].
      exfalso. apply Hn. rewrite Hcs in Hall.
      apply List.Forall_app in Hall as [_ Hall].
      apply Forall_cons in Hall as [Hc _]. exact Hc. }
    rewrite app_nil_r in Hcs. subst written.
    split; [|intros id; rewrite Ht; apply get_chunk_batch].
    destruct (try_insert_chunks_batch db cs) as [t o]. simpl in *. congruence.
  - exists written, rest. split; [exact Hcs|]. split; [exact Hw|]. split.
    + exact Hr.
    + intros id. rewrite Ht. apply get_chunk_batch.
Qed.

Lemma batch_last_write_wins_witness :
  let c := chunk_of (RetrievalExample.c2, RetrievalExample.row_with (lit "gamma")) in
  try_insert_chunks_batch RetrievalExample.db [c]
  = (insert_chunks_batch RetrievalExample.db [c], inr tt)
  /\ get_chunk (try_insert_chunks_batch RetrievalExample.db [c]).1 RetrievalExample.c2
     = Some c.
Proof.
  intros c.
  destruct (proj1 (batch_last_write_wins RetrievalExample.db [c])) as [Hcall Hget].
  { constructor; [|constructor]. apply binds_bindable. vm_compute. reflexivity. }
  split; [exact Hcall|]. rewrite Hget. vm_compute. reflexivity.
Defined.





(** *** Reading a document back *)
















End DatabaseExtras.

(** * Further properties of the vector store *)

Module VectorStoreExtras.

Import FAISSVectorStore StoreSpec MoreSpec.

Section WithFloat.

Context {float : Type} (astype_float32 : float -> float).
Variable faiss_search : faiss_index float -> ndarray float -> Z -> exn + list (float * Z).

(** The two checks of [build_index] rule out the width assertion of
    [index.add]: a call that raises has assigned nothing. *)
Lemma build_index_failure (s s' : store float) embeddings ids e :
  build_index float astype_float32 s embeddings ids = (s', inl e) ->
  s' = s /\ cls e = ValueError.
Proof.
  unfold build_index.
  destruct (Z.eqb_spec (Z.of_nat (length (rows float embeddings)))
              (Z.of_nat (length ids))) as [Hl|Hl]; simpl.
  - destruct (Z.eqb_spec (ncols float embeddings) (embedding_dim float s)) as [Hw|Hw];
      simpl.
    + unfold faiss_add, IndexFlatL2, astype. simpl. rewrite Hw, Z.eqb_refl. discriminate.
    + intros [= <- <-]. auto.
  - intros [= <- <-]. auto.
Qed.

Lemma build_index_accepts (s : store float) embeddings ids :
  length (rows float embeddings) = length ids ->
  ncols float embeddings = embedding_dim float s ->
  build_index float astype_float32 s embeddings ids
  = ({| embedding_dim := embedding_dim float s;
        index := Some {| d := embedding_dim float s;
                         xb := map (map astype_float32) (rows float embeddings) |};
        chunk_ids := ids |}, inr tt).
Proof.
  intros Hl Hw. unfold build_index. rewrite Hl, Z.eqb_refl, Hw, Z.eqb_refl. simpl.
  unfold faiss_add, IndexFlatL2, astype. simpl. rewrite Hw, Z.eqb_refl. reflexivity.
Qed.

Lemma add_vectors_failure (s s' : store float) embeddings ids e :
  add_vectors float astype_float32 s embeddings ids = (s', inl e) -> s' = s.
Proof.
  unfold add_vectors. destruct (index float s) as [i|] eqn:Ei.
  - destruct (negb _); [intros [= <- _]; reflexivity|].
    destruct (faiss_add float i _); [intros [= <- _]; reflexivity | discriminate].
  - intros H. apply build_index_failure in H as [H _]. exact H.
Qed.

(** X16: on a store that has an index, [add_vectors] rejects a batch whose
    vectors and identifiers differ in number ([ValueError]) or whose width
    is not that of the index (the assertion of [index.add]; the configured
    [embedding_dim] is not consulted), leaving the store as it was;
    otherwise it appends the vectors and the identifiers, keeping what was
    stored before in place. *)
Theorem add_vectors_appends_or_rejects (s : store float) (i : faiss_index float)
    (embeddings : ndarray float) (ids : list pystr) :
  index float s = Some i ->
  (length (rows float embeddings) <> length ids ->
   exists m, add_vectors float astype_float32 s embeddings ids
             = (s, inl {| cls := ValueError; msg := m |}))
  /\ (length (rows float embeddings) = length ids ->
      ncols float embeddings <> d float i ->
      exists m, add_vectors float astype_float32 s embeddings ids
                = (s, inl {| cls := AssertionError; msg := m |}))
  /\ (length (rows float embeddings) = length ids ->
      ncols float embeddings = d float i ->
      exists s',
        add_vectors float astype_float32 s embeddings ids = (s', inr tt)
        /\ embedding_dim float s' = embedding_dim float s
        /\ index float s'
           = Some {| d := d float i;
                     xb := xb float i ++ map (map astype_float32) (rows float embeddings) |}
        /\ chunk_ids float s' = chunk_ids float s ++ ids
        /\ get_total_vectors float s'
           = get_total_vectors float s + Z.of_nat (length ids)).
Proof.
  intros Hi. unfold add_vectors. rewrite Hi. split; [|split].
  - intros Hl.
    destruct (Z.eqb_spec (Z.of_nat (length (rows float embeddings)))
                (Z.of_nat (length ids))); [lia|].
    simpl. eexists. reflexivity.
  - intros Hl Hw. rewrite Hl, Z.eqb_refl. simpl.
    unfold faiss_add, astype. simpl.
    destruct (Z.eqb_spec (ncols float embeddings) (d float i)); [contradiction|].
    eexists. reflexivity.
  - intros Hl Hw. rewrite Hl, Z.eqb_refl. simpl.
    unfold faiss_add, astype. simpl. rewrite Hw, Z.eqb_refl.
    eexists. split; [reflexivity|]. simpl. repeat split.
    unfold get_total_vectors, ntotal. rewrite Hi. simpl.
    rewrite length_app, length_map. lia.
Qed.

Lemma update_keeps_alignment (s : store float) (u : update float) :
  aligned s -> aligned (apply_update astype_float32 s u).
Proof.
  intros Ha. destruct u as [embeddings ids|embeddings ids]; simpl.
  - destruct (build_index float astype_float32 s embeddings ids) as [s' [e|[]]] eqn:E.
    + apply build_index_failure in E as [-> _]. exact Ha.
    + apply (VectorStoreProofs.build_index_aligned astype_float32 _ _ _ _ E).
  - destruct (add_vectors float astype_float32 s embeddings ids) as [s' [e|[]]] eqn:E.
    + apply add_vectors_failure in E as ->. exact Ha.
    + apply (VectorStoreProofs.add_vectors_aligned astype_float32 _ _ _ _ Ha E).
Qed.

(** X17: a store that starts empty and is changed only through
    [build_index] and [add_vectors] holds one identifier per vector after
    any sequence of calls, whether the calls return or raise. *)
Theorem mutators_keep_ids_paired (embedding_dim : Z) (script : list (update float)) :
  aligned (fold_left (apply_update astype_float32) script (new_store float embedding_dim)).
Proof.
  assert (forall s, aligned s ->
            aligned (fold_left (apply_update astype_float32) script s)) as H.
  { induction script as [|u script IH]; intros s Ha; simpl; [exact Ha|].
    apply IH, update_keeps_alignment, Ha. }
  apply H. reflexivity.
Qed.

(** X18: what [save] writes under two different paths, [load] reads back
    into any store: the saved index and the saved identifiers.  Saved
    under one path, the identifier file replaces the index file and [load]
    raises, leaving the loading store untouched. *)
Theorem save_load_round_trip (s s0 : store float) (fs : filesystem float)
    (ip mp : pystr) (i : faiss_index float) :
  index float s = Some i ->
  (ip <> mp ->
   load float s0 (save float s fs ip mp).1 ip mp
   = ({| embedding_dim := embedding_dim float s0;
         index := Some i;
         chunk_ids := chunk_ids float s |}, inr tt))
  /\ (ip = mp ->
      exists e, load float s0 (save float s fs ip mp).1 ip mp = (s0, inl e)).
Proof.
  intros Hi. split.
  - intros Hne. apply VectorStoreProofs.save_then_load; assumption.
  - intros <-. unfold save, load, read_index, pickle_load. rewrite Hi. simpl.
    unfold filesystem. rewrite !lookup_insert_eq. simpl. eexists. reflexivity.
Qed.

Lemma getitem_member {A} (l : list A) (i : Z) (x : A) : getitem l i = inr x -> In x l.
Proof.
  unfold getitem.
  destruct (_ <? 0); [discriminate|].
  destruct (nth_error l _) as [y|] eqn:E; [|discriminate].
  intros [= <-]. eapply nth_error_In, E.
Qed.

Lemma getitem_last {A} (l : list A) (x : A) : getitem (l ++ [x]) (-1) = inr x.
Proof.
  unfold getitem. rewrite length_app. simpl.
  destruct (Z.ltb_spec (-1) 0); [|lia].
  destruct (Z.ltb_spec (-1 + Z.of_nat (length l + 1)) 0); [lia|].
  replace (Z.to_nat (-1 + Z.of_nat (length l + 1))) with (length l) by lia.
  rewrite nth_error_app2 by lia. rewrite Nat.sub_diag. reflexivity.
Qed.

(** The loop of [search] keeps the hits whose index passes the guard and
    pairs each with the identifier at that index. *)
Lemma collect_results_spec (ids : list pystr) : forall hits results,
  collect_results float ids hits = inr results ->
  Forall2 (fun (r : pystr * float) (h : float * Z) =>
             r.2 = h.1 /\ getitem ids h.2 = inr r.1)
          results
          (List.filter (fun h : float * Z => h.2 <? Z.of_nat (length ids)) hits).
Proof.
  induction hits as [|[distance idx] hits IH]; intros results; simpl.
  - intros [= <-]. constructor.
  - destruct (idx <? Z.of_nat (length ids)); [|apply IH].
    destruct (getitem ids idx) as [e|chunk_id] eqn:Eg; [discriminate|].
    destruct (collect_results float ids hits) as [e|rest]; [discriminate|].
    intros [= <-]. constructor; [split; [reflexivity | exact Eg]|].
    apply IH. reflexivity.
Qed.

Lemma search_results_spec (s : store float) (q : query_vector float) (k : Z)
    (results : list (pystr * float)) :
  search float astype_float32 faiss_search s q k = inr results ->
  exists i hits,
    index float s = Some i
    /\ faiss_search i (as_row float astype_float32 q)
         (Z.min k (Z.of_nat (length (chunk_ids float s)))) = inr hits
    /\ Forall2 (fun (r : pystr * float) (h : float * Z) =>
                  r.2 = h.1 /\ getitem (chunk_ids float s) h.2 = inr r.1)
               results
               (List.filter (fun h : float * Z =>
                               h.2 <? Z.of_nat (length (chunk_ids float s))) hits)
    /\ Forall (fun r : pystr * float => In r.1 (chunk_ids float s)) results
    /\ (length results <= length hits)%nat
    /\ (forall distance l x,
          In (distance, -1) hits -> chunk_ids float s = l ++ [x] ->
          In (x, distance) results).
Proof.
  unfold search. destruct (index float s) as [i|]; [|discriminate].
  destruct (faiss_search i _ _) as [e|hits] eqn:Ek; [discriminate|].
  intros Hc. apply collect_results_spec in Hc.
  exists i, hits. split; [reflexivity|]. split; [exact Ek|].
  split; [exact Hc|]. split; [|split].
  - clear Ek. induction Hc as [|r h results hs [_ Hg] _ IH]; constructor;
      [eapply getitem_member, Hg | exact IH].
  - apply Forall2_length in Hc. rewrite Hc. apply List.filter_length_le.
  - intros distance l x Hin Hids.
    assert (In (distance, -1)
              (List.filter (fun h : float * Z =>
                              h.2 <? Z.of_nat (length (chunk_ids float s))) hits)) as Hf.
    { apply List.filter_In. split; [exact Hin|]. simpl. apply Z.ltb_lt. lia. }
    clear Ek Hin. induction Hc as [|[id dist] h results hs [Hd Hg] _ IH];
      [contradiction|].
    destruct Hf as [->|Hf]; [|right; apply IH, Hf].
    left. simpl in Hd, Hg. rewrite Hids, getitem_last in Hg.
    injection Hg as <-. rewrite Hd. reflexivity.
Qed.

(** X19: when [search] returns, the kernel was asked for [min(k, number of
    identifiers)] neighbours, and the result lists, in the kernel's order,
    each hit whose index is below the number of identifiers, paired with
    the identifier at that index; so every reported identifier is a stored
    one.  A hit index of -1 passes the guard and is reported as the last
    identifier. *)
Theorem search_reports_stored_ids (s : store float) (q : query_vector float) (k : Z)
    (results : list (pystr * float)) :
  search float astype_float32 faiss_search s q k = inr results ->
  exists i hits,
    index float s = Some i
    /\ faiss_search i (as_row float astype_float32 q)
         (Z.min k (Z.of_nat (length (chunk_ids float s)))) = inr hits
    /\ Forall2 (fun (r : pystr * float) (h : float * Z) =>
                  r.2 = h.1 /\ getitem (chunk_ids float s) h.2 = inr r.1)
               results
               (List.filter (fun h : float * Z =>
                               h.2 <? Z.of_nat (length (chunk_ids float s))) hits)
    /\ Forall (fun r : pystr * float => In r.1 (chunk_ids float s)) results
    /\ (length results <= length hits)%nat
    /\ (forall distance l x,
          In (distance, -1) hits -> chunk_ids float s = l ++ [x] ->
          In (x, distance) results).
Proof. apply search_results_spec. Qed.

(** X20: [load] is not atomic.  A call that raises either left the store
    untouched (the index file could not be read) or had already installed
    the index of the file and kept the identifiers held before (the
    identifier file could not be read). *)
Theorem load_failure_modes (s s' : store float) (fs : filesystem float)
    (ip mp : pystr) (e : exn) :
  load float s fs ip mp = (s', inl e) ->
  (s' = s /\ exists e', read_index float fs ip = inl e')
  \/ (exists i,
        fs !! ip = Some (IndexFile float i)
        /\ pickle_load float fs mp = inl e
        /\ index float s' = Some i
        /\ chunk_ids float s' = chunk_ids float s
        /\ embedding_dim float s' = embedding_dim float s).
Proof.
  unfold load, load_from.
  destruct (read_index float fs ip) as [e'|i] eqn:Er.
  - intros H. left. split; [|eauto].
    destruct (cls e'); injection H as <- _; reflexivity.
  - destruct (pickle_load float fs mp) as [e'|ids] eqn:Ep; [|discriminate].
    intros [= <- <-]. right. exists i. split; [|auto].
    unfold read_index in Er.
    destruct (fs !! ip) as [[j|?]|]; try discriminate. injection Er as ->. reflexivity.
Qed.

End WithFloat.

Lemma add_vectors_appends_or_rejects_witness :
  (exists m,
     add_vectors Z Z.succ RetrievalExample.vs Examples.two_rows Examples.two_ids
     = (RetrievalExample.vs, inl {| cls := AssertionError; msg := m |}))
  /\ (exists s',
        add_vectors Z Z.succ RetrievalExample.vs
          {| ncols := 1; rows := [[7]] |} [lit "doc_chunk_3"] = (s', inr tt)
        /\ chunk_ids Z s'
           = chunk_ids Z RetrievalExample.vs ++ [lit "doc_chunk_3"]
        /\ get_total_vectors Z s' = 4).
Proof.
  split.
  - destruct (add_vectors_appends_or_rejects Z.succ RetrievalExample.vs
                {| d := 1; xb := [[1]; [2]; [3]] |}
                Examples.two_rows Examples.two_ids eq_refl) as (_ & Hw & _).
    apply Hw; [reflexivity | simpl; lia].
  - destruct (add_vectors_appends_or_rejects Z.succ RetrievalExample.vs
                {| d := 1; xb := [[1]; [2]; [3]] |}
                {| ncols := 1; rows := [[7]] |} [lit "doc_chunk_3"] eq_refl)
      as (_ & _ & Hok).
    destruct (Hok eq_refl eq_refl) as (s' & Ha & _ & _ & Hc & Ht).
    exists s'. split; [exact Ha|]. split; [exact Hc | exact Ht].
Defined.

Lemma save_load_round_trip_witness :
  load Z (new_store Z 1)
       (save Z RetrievalExample.vs ∅ Examples.index_path Examples.metadata_path).1
       Examples.index_path Examples.metadata_path
  = ({| embedding_dim := 1;
        index := Some {| d := 1; xb := [[1]; [2]; [3]] |};
        chunk_ids := chunk_ids Z RetrievalExample.vs |}, inr tt)
  /\ exists e,
       load Z (new_store Z 1)
            (save Z RetrievalExample.vs ∅ Examples.index_path Examples.index_path).1
            Examples.index_path Examples.index_path
       = (new_store Z 1, inl e).
Proof.
  split.
  - apply (proj1 (save_load_round_trip RetrievalExample.vs (new_store Z 1) ∅
                    Examples.index_path Examples.metadata_path
                    {| d := 1; xb := [[1]; [2]; [3]] |} eq_refl)).
    vm_compute. discriminate.
  - apply (proj2 (save_load_round_trip RetrievalExample.vs (new_store Z 1) ∅
                    Examples.index_path Examples.index_path
                    {| d := 1; xb := [[1]; [2]; [3]] |} eq_refl)).
    reflexivity.
Defined.

Lemma search_reports_stored_ids_witness :
  exists results,
    search Z id RetrievalExample.fixed_hits RetrievalExample.vs (Vec1 Z [1]) 3
    = inr results
    /\ Forall (fun r : pystr * Z => In r.1 (chunk_ids Z RetrievalExample.vs)) results
    /\ (length results <= 3)%nat.
Proof.
  assert (exists results,
            search Z id RetrievalExample.fixed_hits RetrievalExample.vs (Vec1 Z [1]) 3
            = inr results) as [results Hs].
  { eexists. vm_compute. reflexivity. }
  exists results. split; [exact Hs|].
  destruct (search_reports_stored_ids id RetrievalExample.fixed_hits
              RetrievalExample.vs (Vec1 Z [1]) 3 results Hs)
    as (i & hits & _ & Hk & _ & Hin & Hlen & _).
  split; [exact Hin|].
  vm_compute in Hk. injection Hk as <-. exact Hlen.
Defined.

Lemma load_failure_modes_witness :
  exists s' e,
    load Z (new_store Z 2)
         (<[Examples.index_path := IndexFile Z Examples.two_vectors]> ∅)
         Examples.index_path Examples.metadata_path = (s', inl e)
    /\ index Z s' = Some Examples.two_vectors
    /\ chunk_ids Z s' = [].
Proof.
  assert (exists s' e,
            load Z (new_store Z 2)
                 (<[Examples.index_path := IndexFile Z Examples.two_vectors]> ∅)
                 Examples.index_path Examples.metadata_path = (s', inl e))
    as (s' & e & Hl).
  { eexists. eexists. vm_compute. reflexivity. }
  exists s', e. split; [exact Hl|].
  destruct (load_failure_modes (new_store Z 2) s' _ _ _ e Hl)
    as [[_ [e' He']] | (i & Hi & _ & Hs & Hc & _)].
  - vm_compute in He'. discriminate He'.
  - split; [|exact Hc]. rewrite Hs. f_equal.
    vm_compute in Hi. injection Hi as <-. reflexivity.
Defined.

End VectorStoreExtras.

(** * Further properties of the embedder *)

Module EmbedderExtras.

Import BGEEmbedder.

Section WithModel.

Context {float : Type}.
Variable astype_float32 : float -> float.
Variable model_batch : list pystr -> Z -> bool -> list (list float).
Variable hidden_size : Z.

Lemma batches_bounded (batch_size : nat) : forall fuel texts,
  (0 < batch_size)%nat ->
  Forall (fun b : list pystr => b <> [] /\ (length b <= batch_size)%nat)
         (batches fuel batch_size texts).
Proof.
  induction fuel as [|fuel IH]; intros texts Hb; [constructor|].
  destruct texts as [|t texts]; [constructor|].
  cbn [batches]. constructor; [|apply IH, Hb]. split.
  - destruct batch_size; [lia|]. discriminate.
  - apply firstn_le_length.
Qed.

Lemma encode_list_value (texts : list pystr) batch_size max_length normalize :
  0 < batch_size -> texts <> [] ->
  encode float model_batch hidden_size (inr texts) batch_size max_length normalize
  = inr {| FAISSVectorStore.ncols := hidden_size;
           FAISSVectorStore.rows :=
             concat (map (fun b => model_batch b max_length normalize)
                         (batches (length texts) (Z.to_nat batch_size) texts)) |}.
Proof.
  intros Hb Hne. unfold encode.
  destruct (Z.eqb_spec batch_size 0); [lia|].
  destruct (Z.ltb_spec batch_size 0); [lia|].
  unfold vstack. destruct texts as [|t texts]; [congruence|]. reflexivity.
Qed.

(** X21: [encode] returns an array exactly when it is given at least one
    text and a positive [batch_size].  It then hands the texts to the model
    in consecutive slices that cover them in order, never an empty slice
    and never more than [batch_size] texts, and stacks the model's outputs
    in slice order.  An empty list, or a zero or negative [batch_size],
    ends in a [ValueError] (of [range] for zero, of [np.vstack]
    otherwise). *)
Theorem encode_needs_text_and_positive_batch
    (texts : list pystr) (batch_size max_length : Z) (normalize : bool) :
  (0 < batch_size /\ texts <> [] ->
   exists slices,
     concat slices = texts
     /\ Forall (fun b : list pystr => b <> [] /\ Z.of_nat (length b) <= batch_size) slices
     /\ encode float model_batch hidden_size (inr texts) batch_size max_length normalize
        = inr {| FAISSVectorStore.ncols := hidden_size;
                 FAISSVectorStore.rows :=
                   concat (map (fun b => model_batch b max_length normalize) slices) |})
  /\ (batch_size <= 0 \/ texts = [] ->
      exists m,
        encode float model_batch hidden_size (inr texts) batch_size max_length normalize
        = inl {| cls := ValueError; msg := m |}).
Proof.
  split.
  - intros [Hb Hne].
    exists (batches (length texts) (Z.to_nat batch_size) texts).
    split; [apply EmbedderProofs.batches_concat; lia|].
    split; [|apply encode_list_value; assumption].
    eapply List.Forall_impl; [|apply batches_bounded; lia].
    intros b [Hn Hl]. split; [exact Hn|]. lia.
  - intros Hbad. unfold encode.
    destruct (Z.eqb_spec batch_size 0); [eexists; reflexivity|].
    destruct (Z.ltb_spec batch_size 0); [eexists; reflexivity|].
    destruct Hbad as [Hb| ->]; [lia|]. eexists. reflexivity.
Qed.

Lemma stacked_rows_count (f : list pystr -> list (list float)) (slices : list (list pystr)) :
  (forall b, length (f b) = length b) ->
  length (concat (map f slices)) = length (concat slices).
Proof.
  intros Hf. induction slices as [|b slices IH]; simpl; [reflexivity|].
  rewrite !length_app, Hf, IH. reflexivity.
Qed.

(** X22: when the model returns one vector per text, the encoding of a
    list of chunk texts has one row per text, so [build_index] on a store of
    the model's width accepts it together with as many identifiers, and the
    store then holds one vector per text. *)
Theorem encoded_texts_index_cleanly
    (s : FAISSVectorStore.store float) (texts ids : list pystr)
    (batch_size max_length : Z) (normalize : bool) :
  (forall b, length (model_batch b max_length normalize) = length b) ->
  0 < batch_size -> texts <> [] ->
  length ids = length texts ->
  FAISSVectorStore.embedding_dim float s = hidden_size ->
  exists a s',
    encode float model_batch hidden_size (inr texts) batch_size max_length normalize
    = inr a
    /\ length (FAISSVectorStore.rows float a) = length texts
    /\ FAISSVectorStore.build_index float astype_float32 s a ids = (s', inr tt)
    /\ FAISSVectorStore.chunk_ids float s' = ids
    /\ FAISSVectorStore.get_total_vectors float s' = Z.of_nat (length texts).
Proof.
  intros Hmodel Hb Hne Hids Hdim.
  rewrite encode_list_value by assumption.
  set (a := {| FAISSVectorStore.ncols := hidden_size; FAISSVectorStore.rows := _ |}).
  assert (length (FAISSVectorStore.rows float a) = length texts) as Hrows.
  { unfold a. simpl. rewrite stacked_rows_count by exact Hmodel.
    rewrite EmbedderProofs.batches_concat by lia. reflexivity. }
  eexists a, _. split; [reflexivity|]. split; [exact Hrows|].
  split; [apply VectorStoreExtras.build_index_accepts; [congruence | simpl; congruence]|].
  split; [reflexivity|].
  unfold FAISSVectorStore.get_total_vectors, FAISSVectorStore.ntotal.
  cbn [FAISSVectorStore.index FAISSVectorStore.xb].
  rewrite length_map, Hrows. reflexivity.
Qed.

End WithModel.

Lemma encode_needs_text_and_positive_batch_witness :
  (exists slices,
     concat slices = [lit "a"; lit "b"; lit "c"]
     /\ Forall (fun b : list pystr => b <> [] /\ Z.of_nat (length b) <= 2) slices)
  /\ (exists m,
        encode Z Examples.length_model 1 (inr []) 32 512 true
        = inl {| cls := ValueError; msg := m |})
  /\ (exists m,
        encode Z Examples.length_model 1 (inr [lit "ab"; lit "c"]) (-1) 512 true
        = inl {| cls := ValueError; msg := m |}).
Proof.
  split; [|split].
  - destruct (proj1 (encode_needs_text_and_positive_batch Examples.length_model 1
                       [lit "a"; lit "b"; lit "c"] 2 512 true))
      as (slices & Hc & Hb & _); [split; [lia | discriminate]|].
    exists slices. split; [exact Hc | exact Hb].
  - apply (proj2 (encode_needs_text_and_positive_batch Examples.length_model 1
                    [] 32 512 true)).
    right. reflexivity.
  - apply (proj2 (encode_needs_text_and_positive_batch Examples.length_model 1
                    [lit "ab"; lit "c"] (-1) 512 true)).
    left. lia.
Defined.

Lemma encoded_texts_index_cleanly_witness :
  exists a s',
    encode Z Examples.length_model 1 (inr [lit "ab"; lit "c"]) 32 512 true = inr a
    /\ FAISSVectorStore.build_index Z Z.succ (FAISSVectorStore.new_store Z 1) a
         Examples.two_ids = (s', inr tt)
    /\ FAISSVectorStore.get_total_vectors Z s' = 2.
Proof.
  destruct (encoded_texts_index_cleanly Z.succ Examples.length_model 1
              (FAISSVectorStore.new_store Z 1) [lit "ab"; lit "c"] Examples.two_ids
              32 512 true)
    as (a & s' & He & _ & Hb & _ & Ht).
  - intros b. unfold Examples.length_model. apply length_map.
  - lia.
  - discriminate.
  - reflexivity.
  - reflexivity.
  - exists a, s'. split; [exact He|]. split; [exact Hb | exact Ht].
Defined.

End EmbedderExtras.

(** * Further properties of the retriever *)

Module RetrieverExtras.

Import Retriever.

Section WithFloat.

Context {float : Type}.
Variable fle : float -> float -> bool.
Variable inf : float.
Variable astype_float32 : float -> float.
Variable faiss_search :
  FAISSVectorStore.faiss_index float -> FAISSVectorStore.ndarray float -> Z
  -> exn + list (float * Z).
Variable model_batch : list pystr -> Z -> bool -> list (list float).
Variable hidden_size : Z.

(** Every searched identifier has an entry in the distance dict, and the
    entry is a distance the search reported for it. *)
Lemma distance_map_lookup (results : list (pystr * float)) (id : pystr) :
  In id (map fst results) ->
  exists distance,
    distance_map float results !! id = Some distance /\ In (id, distance) results.
Proof.
  unfold distance_map.
  induction results as [|[k v] results IH] using rev_ind; [contradiction|].
  rewrite map_app, fold_left_app. simpl. intros Hin.
  destruct (decide (k = id)) as [->|Hne].
  - exists v. rewrite lookup_insert_eq. split; [reflexivity|].
    apply in_or_app. right. left. reflexivity.
  - rewrite lookup_insert_ne by exact Hne.
    apply in_app_or in Hin as [Hin|[Hin|[]]]; [|simpl in Hin; congruence].
    destruct (IH Hin) as (distance & Hd & Hr). exists distance.
    split; [exact Hd|]. apply in_or_app. left. exact Hr.
Qed.

Lemma found_rows_are_stored (db : ChunkDatabase.table) ids c :
  In c (ChunkDatabase.get_chunks_by_ids db ids) ->
  ChunkDatabase.get_chunk db (TextChunker.chunk_id c) = Some c
  /\ In (TextChunker.chunk_id c) ids.
Proof.
  unfold ChunkDatabase.get_chunks_by_ids. destruct ids as [|i ids]; [contradiction|].
  rewrite List.in_map_iff. intros ([k r] & <- & Hin).
  apply List.filter_In in Hin as [Hin Hk].
  apply bool_decide_eq_true, list_elem_of_In in Hk.
  apply list_elem_of_In, elem_of_map_to_list in Hin.
  split; [|exact Hk]. unfold ChunkDatabase.get_chunk. simpl. rewrite Hin. reflexivity.
Qed.

Lemma retrieve_hits_spec
    (vs : FAISSVectorStore.store float) (db : ChunkDatabase.table) (query : pystr) (k : Z)
    (hits : list (hit float)) :
  retrieve float fle inf astype_float32 faiss_search model_batch hidden_size
    vs db query k = inr hits ->
  exists results,
    FAISSVectorStore.search float astype_float32 faiss_search vs
      (FAISSVectorStore.Vec2 float
         {| FAISSVectorStore.ncols := hidden_size;
            FAISSVectorStore.rows :=
              model_batch [BGEEmbedder.instruction ++ query] 512 true |}) k
    = inr results
    /\ (length hits <= length results)%nat
    /\ Forall (fun h : hit float =>
                 ChunkDatabase.get_chunk db (TextChunker.chunk_id (chunk float h))
                 = Some (chunk float h)
                 /\ In (TextChunker.chunk_id (chunk float h), distance float h) results)
              hits.
Proof.
  unfold retrieve.
  rewrite (EmbedderProofs.encode_query_value model_batch hidden_size query true).
  destruct (FAISSVectorStore.search _ _ _ _ _ _) as [e|results]; [discriminate|].
  intros [= <-]. exists results. split; [reflexivity|].
  set (found := ChunkDatabase.get_chunks_by_ids db (map fst results)).
  set (attach := fun c => {| chunk := c; distance := _ |}).
  pose proof (RetrieverProofs.sort_by_perm fle (map attach found)) as Hperm.
  split.
  - rewrite (Permutation_length Hperm), length_map.
    rewrite <- (length_map TextChunker.chunk_id found), <- (length_map fst results).
    apply NoDup_incl_length; [apply RetrieverProofs.get_chunks_by_ids_keys|].
    intros id Hin. apply RetrieverProofs.get_chunks_by_ids_spec in Hin as [Hin _].
    exact Hin.
  - apply List.Forall_forall. intros h Hh.
    apply (Permutation_in _ Hperm) in Hh.
    apply List.in_map_iff in Hh as (c & <- & Hc).
    apply found_rows_are_stored in Hc as [Hrow Hin]. simpl.
    split; [exact Hrow|].
    destruct (distance_map_lookup results _ Hin) as (distance & -> & Hr). exact Hr.
Qed.

(** X23: every chunk [retrieve] returns is the row the chunk table holds
    under its [chunk_id], and its distance is one the search reported for
    that identifier, so the [float('inf')] default is never used; there are
    no more chunks than search results. *)
Theorem hits_carry_rows_and_reported_distances
    (vs : FAISSVectorStore.store float) (db : ChunkDatabase.table) (query : pystr) (k : Z)
    (hits : list (hit float)) :
  retrieve float fle inf astype_float32 faiss_search model_batch hidden_size
    vs db query k = inr hits ->
  exists results,
    FAISSVectorStore.search float astype_float32 faiss_search vs
      (FAISSVectorStore.Vec2 float
         {| FAISSVectorStore.ncols := hidden_size;
            FAISSVectorStore.rows :=
              model_batch [BGEEmbedder.instruction ++ query] 512 true |}) k
    = inr results
    /\ (length hits <= length results)%nat
    /\ Forall (fun h : hit float =>
                 ChunkDatabase.get_chunk db (TextChunker.chunk_id (chunk float h))
                 = Some (chunk float h)
                 /\ In (TextChunker.chunk_id (chunk float h), distance float h) results)
              hits.
Proof. apply retrieve_hits_spec. Qed.

End WithFloat.

Lemma hits_carry_rows_and_reported_distances_witness :
  exists hits,
    retrieve Z Z.leb 1000000 id RetrievalExample.fixed_hits Examples.length_model 1
      RetrievalExample.vs RetrievalExample.db (lit "steel") 3 = inr hits
    /\ (length hits <= 3)%nat
    /\ Forall (fun h : hit Z =>
                 ChunkDatabase.get_chunk RetrievalExample.db
                   (TextChunker.chunk_id (chunk Z h)) = Some (chunk Z h))
              hits.
Proof.
  assert (exists hits,
            retrieve Z Z.leb 1000000 id RetrievalExample.fixed_hits
              Examples.length_model 1 RetrievalExample.vs RetrievalExample.db
              (lit "steel") 3 = inr hits) as [hits Hr].
  { eexists. vm_compute. reflexivity. }
  exists hits. split; [exact Hr|].
  destruct (hits_carry_rows_and_reported_distances Z.leb 1000000 id
              RetrievalExample.fixed_hits Examples.length_model 1
              RetrievalExample.vs RetrievalExample.db (lit "steel") 3 hits Hr)
    as (results & Hs & Hlen & Hall).
  vm_compute in Hs. injection Hs as <-.
  split; [exact Hlen|].
  eapply List.Forall_impl; [|exact Hall]. intros h [Hrow _]. exact Hrow.
Defined.

End RetrieverExtras.

(** * Further properties of the summarisation helpers *)

Module SummariesExtras.

Import Summaries RetryTrace MoreSpec.

Lemma total_sleep_app (a b : list event) :
  total_sleep (a ++ b) = total_sleep a + total_sleep b.
Proof.
  induction a as [|[n|n] a IH]; simpl; [reflexivity | exact IH | rewrite IH; lia].
Qed.

Section Loop.

Variable post : Z -> attempt_outcome.
Variable max_retries : Z.

(** With [n] attempts left, starting at attempt [a]: nothing happens when
    [n] is zero; otherwise the trace ends with a request and the loop
    sleeps at most [a + ... + (max_retries - 1)] seconds. *)
Lemma retry_loop_sleeps : forall (n : nat) a last,
  1 <= a -> a + Z.of_nat n = max_retries + 1 ->
  let trace := (retry_loop post max_retries (range a (max_retries + 1)) last).1 in
  (n = 0%nat -> trace = [])
  /\ (n <> 0%nat ->
      (exists before k, trace = before ++ [Post k])
      /\ 2 * total_sleep trace + a * (a - 1) <= max_retries * (max_retries - 1)).
Proof.
  induction n as [|n IH]; intros a last Ha Hn; cbv zeta.
  - rewrite SummariesProofs.range_nil by lia. simpl. split; [reflexivity | congruence].
  - split; [discriminate|]. intros _.
    rewrite SummariesProofs.range_cons by lia. simpl.
    destruct (post a) as [t|e|e]; simpl.
    + split; [exists [], a; reflexivity | nia].
    + specialize (IH (a + 1) (Some e) ltac:(lia) ltac:(lia)). cbv zeta in IH.
      destruct (retry_loop post max_retries (range (a + 1) (max_retries + 1)) (Some e))
        as [trace outcome]. simpl in *.
      destruct IH as [IH0 IHS]. destruct n as [|n].
      * rewrite (IH0 eq_refl). destruct (Z.ltb_spec a max_retries); [lia|]. simpl.
        split; [exists [], a; reflexivity | nia].
      * destruct (IHS ltac:(discriminate)) as [(before & k & ->) Hsum].
        destruct (Z.ltb_spec a max_retries); [|lia]. simpl.
        split.
        -- exists (Post a :: Sleep (1 * a) :: before), k. reflexivity.
        -- nia.
    + split; [exists [], a; reflexivity | nia].
Qed.

Lemma call_without_attempts :
  max_retries <= 0 -> call_llm_api post max_retries = ([], inl raise_none).
Proof.
  intros H. unfold call_llm_api. rewrite SummariesProofs.range_nil by lia. reflexivity.
Qed.

(** X24: with at least one attempt allowed, the trace of [call_llm_api]
    ends with a request (the call never sleeps after its last attempt), and
    the seconds slept add up to at most [1 + 2 + ... + (max_retries - 1)],
    whatever the endpoint does. *)
Theorem backoff_is_bounded :
  1 <= max_retries ->
  let trace := (call_llm_api post max_retries).1 in
  (exists before k, trace = before ++ [Post k])
  /\ 2 * total_sleep trace <= max_retries * (max_retries - 1).
Proof.
  intros Hm. cbv zeta. unfold call_llm_api.
  destruct (retry_loop_sleeps (Z.to_nat max_retries) 1 None ltac:(lia) ltac:(lia))
    as [_ H].
  destruct H as [Hend Hsum]; [lia|]. split; [exact Hend | lia].
Qed.

End Loop.

Section Single.

Variable endpoint : pystr -> request -> Z -> attempt_outcome.
Variable seconds : Type.
Variable elapsed : pystr -> seconds.

(** X25: with [max_retries] zero or negative no request is sent; the final
    [raise last_exception] then raises [None], a [TypeError], and the
    summary of a document becomes the error text built from it. *)
Theorem no_attempt_allowed (post : Z -> attempt_outcome) (max_retries : Z)
    (file_id fulltext question system_prompt user_prompt : pystr)
    (get_user_prompt_func : pystr -> pystr -> exn + pystr) (timeout : Z) :
  max_retries <= 0 ->
  call_llm_api post max_retries = ([], inl raise_none)
  /\ cls raise_none = TypeError
  /\ (get_user_prompt_func question fulltext = inr user_prompt ->
      generate_single_literature_summary endpoint seconds elapsed
        file_id fulltext question system_prompt get_user_prompt_func timeout max_retries
      = (file_id,
         lit "生成总结时出错: exceptions must derive from BaseException",
         elapsed file_id)).
Proof.
  intros Hm. split; [apply call_without_attempts, Hm|]. split; [reflexivity|].
  intros Hp.
  assert (lit "生成总结时出错: " ++ str_of_exn raise_none
          = lit "生成总结时出错: exceptions must derive from BaseException") as Hmsg
    by (vm_compute; reflexivity).
  unfold generate_single_literature_summary.
  rewrite Hp, call_without_attempts by exact Hm. cbn [snd]. rewrite Hmsg. reflexivity.
Qed.

End Single.

Lemma backoff_is_bounded_witness :
  (exists before k, (call_llm_api Examples.flaky_post 3).1 = before ++ [Post k])
  /\ 2 * total_sleep (call_llm_api Examples.flaky_post 3).1 <= 6.
Proof.
  apply (backoff_is_bounded Examples.flaky_post 3). lia.
Defined.

Lemma no_attempt_allowed_witness :
  call_llm_api Examples.flaky_post 0 = ([], inl raise_none)
  /\ generate_single_literature_summary Examples.down_for_b Z (fun _ => 0)
       (lit "a") (lit "full text of a") (lit "q") (lit "sys") Examples.prompt_of 300 0
     = (lit "a", lit "生成总结时出错: exceptions must derive from BaseException", 0).
Proof.
  destruct (no_attempt_allowed Examples.down_for_b Z (fun _ => 0) Examples.flaky_post 0
              (lit "a") (lit "full text of a") (lit "q") (lit "sys")
              (lit "qfull text of a") Examples.prompt_of 300) as (Hc & _ & Hs); [lia|].
  split; [exact Hc | apply Hs; reflexivity].
Defined.

End SummariesExtras.

(** * Further properties of the structured query *)

Module ServerExtras.

Import StructuredSearchSystem QuerySpec MoreSpec.

Lemma contains_after_wrap (inner : json) :
  contains (lit "tables")
    (JObj [(lit "tables",
            JArr [JObj [(lit "table_name", DEFAULT_TABLE); (lit "filters", inner)]])])
  = inr true.
Proof. reflexivity. Qed.

Lemma wrap_legacy_shape (filters filters' : json) :
  wrap_legacy filters = inr filters' ->
  contains (lit "tables") filters' = inr true
  \/ (filters' = filters
      /\ contains (lit "tables") filters = inr false
      /\ contains (lit "filters") filters = inr false
      /\ contains (lit "type") filters = inr false).
Proof.
  unfold wrap_legacy.
  destruct (contains (lit "tables") filters) as [e|[|]] eqn:Et; [discriminate| |].
  - intros [= <-]. left. exact Et.
  - destruct (contains (lit "filters") filters) as [e|[|]] eqn:Ef; [discriminate| |].
    + destruct (get _ _ _) as [e|inner]; [discriminate|].
      intros [= <-]. left. apply contains_after_wrap.
    + destruct (contains (lit "type") filters) as [e|[|]] eqn:Ety; [discriminate| |].
      * destruct (get _ _ _) as [e|inner]; [discriminate|].
        intros [= <-]. left. apply contains_after_wrap.
      * intros [= <-]. right. auto.
Qed.

Lemma wrap_legacy_fixed (filters filters' : json) :
  wrap_legacy filters = inr filters' -> wrap_legacy filters' = inr filters'.
Proof.
  intros H. destruct (wrap_legacy_shape _ _ H) as [Ht|(-> & _)]; [|exact H].
  unfold wrap_legacy. rewrite Ht. reflexivity.
Qed.

(** X26: the filters [_convert_query_to_filters] returns are in normal
    form: either they carry a [tables] entry, or they carry none of
    [tables], [filters] and [type] and are the reply itself; converting them
    again changes nothing. *)
Theorem converted_filters_are_normal (reply : exn + json) (filters : json) :
  _convert_query_to_filters reply = Some filters ->
  _convert_query_to_filters (inr filters) = Some filters
  /\ (contains (lit "tables") filters = inr true
      \/ (reply = inr filters
          /\ contains (lit "tables") filters = inr false
          /\ contains (lit "filters") filters = inr false
          /\ contains (lit "type") filters = inr false)).
Proof.
  unfold _convert_query_to_filters.
  destruct reply as [e|j]; [discriminate|].
  destruct (wrap_legacy j) as [e|f] eqn:E; [discriminate|].
  intros [= ->]. split.
  - rewrite (wrap_legacy_fixed _ _ E). reflexivity.
  - destruct (wrap_legacy_shape _ _ E) as [Ht|(-> & H)]; [left; exact Ht | right; auto].
Qed.

Lemma converted_filters_are_normal_witness :
  exists filters,
    _convert_query_to_filters QueryExample.legacy_reply = Some filters
    /\ _convert_query_to_filters (inr filters) = Some filters
    /\ contains (lit "tables") filters = inr true.
Proof.
  assert (exists filters, _convert_query_to_filters QueryExample.legacy_reply = Some filters)
    as [filters Hc].
  { eexists. vm_compute. reflexivity. }
  exists filters. split; [exact Hc|].
  destruct (converted_filters_are_normal QueryExample.legacy_reply filters Hc)
    as [Hfix [Ht|(_ & Ht & _)]].
  - split; [exact Hfix | exact Ht].
  - exfalso. vm_compute in Hc. injection Hc as <-. vm_compute in Ht. discriminate Ht.
Defined.

Section WithStore.

Variable query_table : json -> json -> exn + table_reply.
Variable read_literature_fulltext : pystr -> pystr.
Variable _generate_metadata_summary : pystr -> item -> pystr -> pystr.
Variable endpoint : pystr -> Summaries.request -> Z -> Summaries.attempt_outcome.
Variable seconds : Type.
Variable elapsed : pystr -> seconds.
Variable format_seconds : seconds -> pystr.
Variable as_completed : list (Summaries.future seconds) -> list (Summaries.future seconds).
Variable LITERATURE_SUMMARY_SYSTEM_PROMPT : pystr.
Variable get_literature_summary_user_prompt : pystr -> pystr -> exn + pystr.
Variables MAX_WORKERS LLM_API_TIMEOUT LLM_MAX_RETRIES : Z.

Lemma summarise_candidates_reply query_description dois query_data_dict metadata_dict
    epoxy_entries r :
  summarise_candidates query_table read_literature_fulltext _generate_metadata_summary
    endpoint seconds elapsed format_seconds as_completed
    LITERATURE_SUMMARY_SYSTEM_PROMPT get_literature_summary_user_prompt
    MAX_WORKERS LLM_API_TIMEOUT LLM_MAX_RETRIES
    query_description dois query_data_dict metadata_dict epoxy_entries = inr r ->
  well_formed_reply r.
Proof.
  unfold summarise_candidates.
  destruct (fulltext_summaries _ _ _ _ _ _ _ _ _ _ _ _ _) as [e|full]; [discriminate|].
  destruct (refill _ _ _ _) as [e|[q m]]; [discriminate|].
  match goal with |- match ?l with [] => _ | _ => _ end = _ -> _ =>
    destruct l as [|t l'] eqn:El end.
  - intros [= <-]. right. split; [reflexivity|]. right. left. reflexivity.
  - intros [= <-]. left. split; [reflexivity | discriminate].
Qed.

(** X27: whatever the translation, the store and the endpoint do, [query]
    returns a reply: summaries together with [SUCCESS], or no summary
    together with [NO_RESULTS], [NO_LITERATURE] or [OTHER_ERROR];
    [REPORT_FAILED] is never returned.  A translation that raised, or that
    gave a falsy value, ends in [OTHER_ERROR] whatever the store holds. *)
Theorem query_reply_is_well_formed (query_description : pystr) (reply : exn + json) :
  let r := query query_table read_literature_fulltext _generate_metadata_summary
             endpoint seconds elapsed format_seconds as_completed
             LITERATURE_SUMMARY_SYSTEM_PROMPT get_literature_summary_user_prompt
             MAX_WORKERS LLM_API_TIMEOUT LLM_MAX_RETRIES query_description reply in
  well_formed_reply r
  /\ code r <> StatusCode.REPORT_FAILED
  /\ (match _convert_query_to_filters reply with
      | Some filters => truthy filters = false
      | None => True
      end ->
      r = {| summaries := []; code := StatusCode.OTHER_ERROR |}).
Proof.
  cbv zeta.
  assert (forall r, well_formed_reply r -> code r <> StatusCode.REPORT_FAILED) as Hne.
  { intros r [[Hc _] | [_ [Hc | [Hc | Hc]]]]; rewrite Hc; discriminate. }
  assert (well_formed_reply {| summaries := []; code := StatusCode.OTHER_ERROR |}) as Herr.
  { right. split; [reflexivity|]. right. right. reflexivity. }
  assert (well_formed_reply
            (query query_table read_literature_fulltext _generate_metadata_summary
               endpoint seconds elapsed format_seconds as_completed
               LITERATURE_SUMMARY_SYSTEM_PROMPT get_literature_summary_user_prompt
               MAX_WORKERS LLM_API_TIMEOUT LLM_MAX_RETRIES query_description reply))
    as Hwf.
  { unfold query, query_body.
    destruct (_convert_query_to_filters reply) as [filters|]; [|exact Herr].
    destruct (truthy filters); simpl; [|exact Herr].
    destruct (find_candidates query_table filters) as [e|[[dois q] m]]; [exact Herr|].
    destruct (epoxy_entries_of q) as [e|epoxy_entries]; [exact Herr|].
    destruct (negb (nonempty dois) && _).
    - right. split; [reflexivity|]. left. reflexivity.
    - destruct (summarise_candidates _ _ _ _ _ _ _ _ _ _ _ _ _ _ _ _ _ _) as [e|r] eqn:E;
        [exact Herr|].
      apply summarise_candidates_reply in E. exact E. }
  split; [exact Hwf|]. split; [apply Hne, Hwf|].
  unfold query, query_body.
  destruct (_convert_query_to_filters reply) as [filters|]; [|reflexivity].
  intros ->. reflexivity.
Qed.

End WithStore.

Lemma query_reply_is_well_formed_witness :
  query QueryExample.empty_store Examples.fulltext_of QueryExample.no_digest
        Examples.down_for_b Z (fun _ => 0) str_of_int (@rev _)
        (lit "sys") Examples.prompt_of 20 300 3
        (lit "epoxy resins") (inr (JObj []))
  = {| summaries := []; code := 4 |}.
Proof.
  apply (proj2 (proj2 (query_reply_is_well_formed QueryExample.empty_store
                         Examples.fulltext_of QueryExample.no_digest
                         Examples.down_for_b Z (fun _ => 0) str_of_int (@rev _)
                         (lit "sys") Examples.prompt_of 20 300 3
                         (lit "epoxy resins") (inr (JObj []))))).
  reflexivity.
Defined.

End ServerExtras.

(** * Properties of the reply text extraction *)

Module FilterTextExtras.

Import FilterText MoreSpec.

Lemma FENCE_value : FENCE = [backtick; backtick; backtick].
Proof. vm_compute. reflexivity. Qed.

Lemma json_tag_value : lit "json" = [106; 115; 111; 110]%N.
Proof. vm_compute. reflexivity. Qed.

Lemma re_split_aux_nonempty matcher capture : forall s skip cur,
  exists piece more, re_split_aux matcher capture s skip cur = piece :: more.
Proof.
  induction s as [|c s IH]; intros skip cur; simpl; [eauto|].
  destruct skip as [|k]; [|apply IH].
  destruct (matcher (c :: s)) as [[|m]|]; eauto.
Qed.

Lemma startswith_prefix : forall pre s,
  startswith s pre = true -> exists rest, s = pre ++ rest.
Proof.
  induction pre as [|p pre IH]; intros s H; [exists s; reflexivity|].
  destruct s as [|c s]; [discriminate|]. simpl in H.
  apply andb_prop in H as [Hc Hs]. apply N.eqb_eq in Hc. subst c.
  destruct (IH s Hs) as [rest ->]. exists rest. reflexivity.
Qed.

Lemma startswith_app (pre rest : pystr) : startswith (pre ++ rest) pre = true.
Proof.
  induction pre as [|p pre IH]; [destruct rest; reflexivity|].
  cbn [app startswith]. unfold char_eqb. rewrite N.eqb_refl. exact IH.
Qed.

Lemma no_fence_at (c : char) (s : pystr) :
  c <> backtick -> literal_matcher FENCE (c :: s) = None.
Proof.
  intros Hc. unfold literal_matcher. rewrite FENCE_value. cbn [startswith].
  unfold char_eqb. destruct (N.eqb_spec backtick c) as [E|E]; [congruence | reflexivity].
Qed.

Lemma fence_at (rest : pystr) : literal_matcher FENCE (FENCE ++ rest) = Some 3%nat.
Proof.
  unfold literal_matcher. rewrite startswith_app, FENCE_value. reflexivity.
Qed.

(** At a fence the current piece ends and the next one starts after it. *)
Lemma split_at_fence (rest cur : pystr) :
  re_split_aux (literal_matcher FENCE) false (FENCE ++ rest) 0 cur
  = rev cur :: re_split_aux (literal_matcher FENCE) false rest 0 [].
Proof.
  pose proof (fence_at rest) as Hf.
  assert (FENCE ++ rest = backtick :: backtick :: backtick :: rest) as E
    by (rewrite FENCE_value; reflexivity).
  rewrite E in Hf |- *. cbn [re_split_aux]. rewrite Hf. reflexivity.
Qed.

(** Splitting runs through text without backticks up to the next fence or
    the end. *)
Lemma split_until_fence (tail : pystr) :
  tail = [] \/ (exists rest, tail = FENCE ++ rest) ->
  forall u cur, ~ In backtick u ->
  exists more,
    re_split_aux (literal_matcher FENCE) false (u ++ tail) 0 cur = (rev cur ++ u) :: more.
Proof.
  intros Htail. induction u as [|c u IH]; intros cur Hu.
  - rewrite app_nil_r. cbn [app]. destruct Htail as [->|[rest ->]].
    + exists []. reflexivity.
    + rewrite split_at_fence. eexists. reflexivity.
  - destruct (IH (c :: cur)) as [more Hmore]. { intros Hin. apply Hu. right. exact Hin. }
    exists more. cbn [app re_split_aux].
    rewrite no_fence_at by (intros ->; apply Hu; left; reflexivity).
    rewrite Hmore. simpl. rewrite <- app_assoc. reflexivity.
Qed.

Lemma split_after_fence (s : pystr) :
  split (FENCE ++ s) FENCE = [] :: re_split_aux (literal_matcher FENCE) false s 0 [].
Proof. unfold split, re_split. apply split_at_fence. Qed.

Lemma fenced_piece (x tail : pystr) :
  ~ In backtick x ->
  tail = [] \/ (exists rest, tail = FENCE ++ rest) ->
  FAISSVectorStore.getitem (split (FENCE ++ x ++ tail) FENCE) 1 = inr x.
Proof.
  intros Hx Htail. rewrite split_after_fence.
  destruct (split_until_fence tail Htail x [] Hx) as [more ->]. reflexivity.
Qed.

Lemma slice_after_tag (body : pystr) : slice_from (lit "json" ++ body) 4 = body.
Proof.
  rewrite json_tag_value. unfold slice_from, clamp_index, len.
  change (4 <? 0) with false. cbv iota.
  rewrite Z.min_l by (rewrite length_app; simpl; lia).
  reflexivity.
Qed.

(** X28: the extraction never raises (a text that starts with a fence
    always splits into at least two pieces) and yields a stripped text.  A
    reply wrapped in a markdown fence, tagged [json] or not, closed or not,
    is reduced to its stripped body when the body holds no backtick;
    anything after the closing fence is dropped. *)
Theorem fenced_reply_is_unwrapped (content : pystr) :
  (exists t, filters_text content = inr t /\ strip t = t)
  /\ (startswith (strip content) FENCE = false -> filters_text content = inr (strip content))
  /\ (forall body tail,
        ~ In backtick body ->
        tail = [] \/ (exists rest, tail = FENCE ++ rest) ->
        (strip content = FENCE ++ lit "json" ++ body ++ tail ->
         filters_text content = inr (strip body))
        /\ (strip content = FENCE ++ body ++ tail ->
            startswith body (lit "json") = false ->
            filters_text content = inr (strip body))).
Proof.
  split; [|split].
  - unfold filters_text. destruct (startswith (strip content) FENCE) eqn:Ef.
    + apply startswith_prefix in Ef as [rest ->]. rewrite split_after_fence.
      destruct (re_split_aux_nonempty (literal_matcher FENCE) false rest 0%nat [])
        as (piece & more & ->).
      change (FAISSVectorStore.getitem ([] :: piece :: more) 1) with (@inr exn _ piece).
      eexists. split; [reflexivity | apply ChunkerExtras.strip_idem].
    + eexists. split; [reflexivity | apply ChunkerExtras.strip_idem].
  - intros Hf. unfold filters_text. rewrite Hf. reflexivity.
  - intros body tail Hbody Htail. split.
    + intros Hc. unfold filters_text. rewrite Hc.
      rewrite startswith_app.
      rewrite (app_assoc (lit "json")), fenced_piece; [| |exact Htail].
      * rewrite startswith_app, slice_after_tag. reflexivity.
      * rewrite json_tag_value. intros Hin.
        apply in_app_or in Hin as [Hin|Hin]; [|contradiction].
        unfold backtick in Hin. simpl in Hin.
        destruct Hin as [H|[H|[H|[H|[]]]]]; discriminate H.
    + intros Hc Htag. unfold filters_text. rewrite Hc.
      rewrite startswith_app.
      rewrite fenced_piece by assumption. rewrite Htag. reflexivity.
Qed.

Lemma fenced_reply_is_unwrapped_witness :
  filters_text (lit "```json
{}
```") = inr (lit "{}")
  /\ filters_text (lit " {} ") = inr (lit "{}").
Proof.
  split.
  - destruct (fenced_reply_is_unwrapped (lit "```json
{}
```")) as (_ & _ & H).
    destruct (H (lit "
{}
") (lit "```")) as [Htagged _].
    + vm_compute. intros Hin. repeat (destruct Hin as [Hin|Hin]; [discriminate Hin|]).
      exact Hin.
    + right. exists []. vm_compute. reflexivity.
    + rewrite Htagged; [|vm_compute; reflexivity]. vm_compute. reflexivity.
  - destruct (fenced_reply_is_unwrapped (lit " {} ")) as (_ & H & _).
    rewrite H; [|vm_compute; reflexivity]. vm_compute. reflexivity.
Defined.

End FilterTextExtras.

(** * Properties of the stainless-steel question answering service *)

Module SteelExtras.

Import RAGSystem.

Lemma literature_data_readable (file_ids : list pystr) (read : pystr -> pystr) :
  map fst (Summaries.literature_data file_ids read)
  = List.filter (fun f => nonempty (read f)) file_ids.
Proof.
  unfold Summaries.literature_data.
  induction file_ids as [|f file_ids IH]; [reflexivity|].
  cbn [flat_map List.filter]. destruct (nonempty (read f)); simpl; rewrite IH; reflexivity.
Qed.

Section WithComponents.

Context {float : Type}.
Variable fle : float -> float -> bool.
Variable inf : float.
Variable astype_float32 : float -> float.
Variable faiss_search :
  FAISSVectorStore.faiss_index float -> FAISSVectorStore.ndarray float -> Z
  -> exn + list (float * Z).
Variable model_batch : list pystr -> Z -> bool -> list (list float).
Variable hidden_size : Z.
Variable endpoint : pystr -> Summaries.request -> Z -> Summaries.attempt_outcome.
Variable seconds : Type.
Variable elapsed : pystr -> seconds.
Variable format_seconds : seconds -> pystr.
Variable as_completed : list (Summaries.future seconds) -> list (Summaries.future seconds).
Variable LITERATURE_SUMMARY_SYSTEM_PROMPT : pystr.
Variable get_literature_summary_user_prompt : pystr -> pystr -> exn + pystr.
Variable read_literature_fulltext : pystr -> pystr.
Variables MAX_WORKERS LLM_API_TIMEOUT LLM_MAX_RETRIES : Z.
Variable vector_store : FAISSVectorStore.store float.
Variable database : ChunkDatabase.table.

(** Every submitted future completes, once. *)
Hypothesis as_completed_permutes : forall futures, Permutation (as_completed futures) futures.

Local Abbreviation retrieved question top_k :=
  (Retriever.retrieve float fle inf astype_float32 faiss_search model_batch hidden_size
     vector_store database question top_k).

Local Abbreviation readable chunks :=
  (List.filter (fun f => nonempty (read_literature_fulltext f))
               (unique_file_ids float chunks)).

Local Abbreviation answer question top_k :=
  (query float fle inf astype_float32 faiss_search model_batch hidden_size
     endpoint seconds elapsed format_seconds as_completed
     LITERATURE_SUMMARY_SYSTEM_PROMPT get_literature_summary_user_prompt
     read_literature_fulltext MAX_WORKERS LLM_API_TIMEOUT LLM_MAX_RETRIES
     vector_store database question top_k).

Lemma unique_file_ids_length (chunks : list (Retriever.hit float)) :
  (length (unique_file_ids float chunks) <= length chunks)%nat.
Proof.
  unfold unique_file_ids.
  rewrite <- (length_map (fun chunk => TextChunker.file_id (Retriever.chunk float chunk))
                chunks).
  apply submseteq_length, NoDup_submseteq; [apply NoDup_elements|].
  intros f Hf. apply elem_of_elements, elem_of_list_to_set in Hf. exact Hf.
Qed.

Lemma summaries_count (file_ids : list pystr) (question : pystr)
    (out : list Summaries.summary_entry) :
  Summaries.generate_literature_summaries_parallel
    endpoint seconds elapsed format_seconds as_completed file_ids question
    LITERATURE_SUMMARY_SYSTEM_PROMPT get_literature_summary_user_prompt
    read_literature_fulltext MAX_WORKERS LLM_API_TIMEOUT LLM_MAX_RETRIES = inr out ->
  length out
  = length (List.filter (fun f => nonempty (read_literature_fulltext f)) file_ids).
Proof using as_completed_permutes.
  rewrite <- literature_data_readable, length_map.
  unfold Summaries.generate_literature_summaries_parallel.
  destruct (Summaries.literature_data file_ids read_literature_fulltext) as [|d data].
  - intros [= <-]. reflexivity.
  - destruct (MAX_WORKERS <=? 0); [discriminate|]. intros [= <-].
    rewrite !length_map.
    rewrite (Permutation_length (as_completed_permutes _)).
    simpl. rewrite ?length_map. reflexivity.
Qed.

Lemma summaries_need_workers (file_ids : list pystr) (question : pystr) :
  List.filter (fun f => nonempty (read_literature_fulltext f)) file_ids <> [] ->
  match Summaries.generate_literature_summaries_parallel
          endpoint seconds elapsed format_seconds as_completed file_ids question
          LITERATURE_SUMMARY_SYSTEM_PROMPT get_literature_summary_user_prompt
          read_literature_fulltext MAX_WORKERS LLM_API_TIMEOUT LLM_MAX_RETRIES with
  | inl _ => MAX_WORKERS <= 0
  | inr _ => 0 < MAX_WORKERS
  end.
Proof.
  rewrite <- literature_data_readable.
  unfold Summaries.generate_literature_summaries_parallel.
  destruct (Summaries.literature_data file_ids read_literature_fulltext) as [|d data];
    [intros H; contradiction H; reflexivity|].
  intros _. destruct (Z.leb_spec MAX_WORKERS 0); simpl; lia.
Qed.

Lemma reply_spec (question : pystr) (top_k : Z) :
  match retrieved question top_k with
  | inl _ => answer question top_k = {| summaries := []; code := StatusCode.OTHER_ERROR |}
  | inr chunks =>
    match chunks, readable chunks with
    | [], _ => answer question top_k = {| summaries := []; code := StatusCode.NO_RESULTS |}
    | _ :: _, [] =>
      answer question top_k = {| summaries := []; code := StatusCode.NO_LITERATURE |}
    | _ :: _, _ :: _ =>
      (0 < MAX_WORKERS ->
       code (answer question top_k) = StatusCode.SUCCESS
       /\ length (summaries (answer question top_k)) = length (readable chunks)
       /\ (length (readable chunks) <= length chunks)%nat)
      /\ (MAX_WORKERS <= 0 ->
          answer question top_k = {| summaries := []; code := StatusCode.OTHER_ERROR |})
    end
  end.
Proof using as_completed_permutes.
  unfold query, query_try.
  destruct (retrieved question top_k) as [e|[|c chunks]]; [reflexivity | reflexivity|].
  cbn [nonempty negb].
  pose proof (summaries_count (unique_file_ids float (c :: chunks)) question) as Hlen.
  pose proof (summaries_need_workers (unique_file_ids float (c :: chunks)) question)
    as Hwork.
  destruct (Summaries.generate_literature_summaries_parallel _ _ _ _ _ _ _ _ _ _ _ _ _)
    as [e|out] eqn:Eb.
  - destruct (readable (c :: chunks)) as [|f fs] eqn:Er.
    + exfalso. revert Eb. unfold Summaries.generate_literature_summaries_parallel.
      rewrite <- literature_data_readable in Er.
      destruct (Summaries.literature_data _ _); [discriminate | discriminate Er].
    + specialize (Hwork ltac:(discriminate)).
      split; [intros Hw; lia | intros _; reflexivity].
  - specialize (Hlen out eq_refl).
    destruct out as [|s l].
    + destruct (readable (c :: chunks)); [reflexivity | discriminate Hlen].
    + destruct (readable (c :: chunks)) as [|f fs] eqn:Er; [discriminate Hlen|].
      specialize (Hwork ltac:(discriminate)).
      split; [|intros Hw; lia]. intros _.
      cbn [nonempty negb summaries code]. split; [reflexivity|].
      split; [rewrite length_map; exact Hlen|].
      rewrite <- Er.
      etransitivity; [apply List.filter_length_le | apply unique_file_ids_length].
Qed.

(** X29: the reply of the stainless-steel [query] is decided by the
    retrieval: [OTHER_ERROR] when it raises, [NO_RESULTS] when it finds no
    chunk, [NO_LITERATURE] when none of the documents of the chunks found
    has a readable full text.  Otherwise, run with a worker pool
    ([0 < MAX_WORKERS]) it answers [SUCCESS] with one summary for each
    distinct document that has a full text, so at most one per chunk; with
    [MAX_WORKERS <= 0] the pool cannot be created and the reply is
    [OTHER_ERROR]. *)
Theorem steel_reply_follows_retrieval (question : pystr) (top_k : Z) :
  match retrieved question top_k with
  | inl _ => answer question top_k = {| summaries := []; code := StatusCode.OTHER_ERROR |}
  | inr chunks =>
    match chunks, readable chunks with
    | [], _ => answer question top_k = {| summaries := []; code := StatusCode.NO_RESULTS |}
    | _ :: _, [] =>
      answer question top_k = {| summaries := []; code := StatusCode.NO_LITERATURE |}
    | _ :: _, _ :: _ =>
      (0 < MAX_WORKERS ->
       code (answer question top_k) = StatusCode.SUCCESS
       /\ length (summaries (answer question top_k)) = length (readable chunks)
       /\ (length (readable chunks) <= length chunks)%nat)
      /\ (MAX_WORKERS <= 0 ->
          answer question top_k = {| summaries := []; code := StatusCode.OTHER_ERROR |})
    end
  end.
Proof using as_completed_permutes. apply reply_spec. Qed.

(** X30: when the search kernel reports at most [k] neighbours, the tool
    [query_steelkb_literature] returns at most [min(top_k, 20)] summaries,
    so never more than twenty, whatever [top_k] is asked for. *)
Theorem tool_returns_at_most_twenty (question : pystr) (top_k : Z) :
  (forall i q k hits, faiss_search i q k = inr hits -> Z.of_nat (length hits) <= Z.max 0 k) ->
  Z.of_nat (length (summaries
                      (query_steelkb_literature float fle inf astype_float32 faiss_search
                         model_batch hidden_size endpoint seconds elapsed format_seconds
                         as_completed LITERATURE_SUMMARY_SYSTEM_PROMPT
                         get_literature_summary_user_prompt read_literature_fulltext
                         MAX_WORKERS LLM_API_TIMEOUT LLM_MAX_RETRIES
                         vector_store database question top_k)))
  <= Z.max 0 (Z.min top_k 20) <= 20.
Proof using as_completed_permutes.
  intros Hkernel. split; [|lia].
  unfold query_steelkb_literature. cbv zeta.
  pose proof (reply_spec question (Z.min top_k 20)) as Hr.
  destruct (retrieved question (Z.min top_k 20)) as [e|chunks] eqn:Eret.
  - rewrite Hr. simpl. lia.
  - destruct chunks as [|c chunks]; [rewrite Hr; simpl; lia|].
    destruct (readable (c :: chunks)) as [|f fs] eqn:Er; [rewrite Hr; simpl; lia|].
    destruct Hr as [Hpool Hnone].
    destruct (Z.le_gt_cases MAX_WORKERS 0) as [Hw|Hw];
      [rewrite (Hnone Hw); simpl; lia|].
    destruct (Hpool ltac:(lia)) as (_ & -> & Hle).
    destruct (RetrieverExtras.retrieve_hits_spec fle inf astype_float32 faiss_search
                model_batch hidden_size vector_store database question _ _ Eret)
      as (results & Hs & Hres & _).
    destruct (VectorStoreExtras.search_results_spec astype_float32 faiss_search _ _ _ _ Hs)
      as (i & hits & _ & Hk & _ & _ & Hhits & _).
    apply Hkernel in Hk. lia.
Qed.

End WithComponents.

Lemma steel_reply_follows_retrieval_witness :
  (code (query Z Z.leb 1000000 id RetrievalExample.fixed_hits Examples.length_model 1
           Examples.down_for_b Z (fun _ => 0) str_of_int (@rev _)
           (lit "sys") Examples.prompt_of Examples.fulltext_of 20 300 3
           RetrievalExample.vs RetrievalExample.db (lit "steel") 3) = 0
   /\ length (summaries
                (query Z Z.leb 1000000 id RetrievalExample.fixed_hits
                   Examples.length_model 1
                   Examples.down_for_b Z (fun _ => 0) str_of_int (@rev _)
                   (lit "sys") Examples.prompt_of Examples.fulltext_of 20 300 3
                   RetrievalExample.vs RetrievalExample.db (lit "steel") 3)) = 1%nat)
  /\ query Z Z.leb 1000000 id RetrievalExample.fixed_hits Examples.length_model 1
        Examples.down_for_b Z (fun _ => 0) str_of_int (@rev _)
        (lit "sys") Examples.prompt_of Examples.fulltext_of 0 300 3
        RetrievalExample.vs RetrievalExample.db (lit "steel") 3
     = {| summaries := []; code := 4 |}.
Proof.
  assert (Retriever.retrieve Z Z.leb 1000000 id RetrievalExample.fixed_hits
            Examples.length_model 1 RetrievalExample.vs RetrievalExample.db
            (lit "steel") 3
          = inr [ {| Retriever.chunk :=
                       ChunkDatabase.chunk_of
                         (RetrievalExample.c0, RetrievalExample.row_with (lit "alpha"));
                     Retriever.distance := 2 |};
                  {| Retriever.chunk :=
                       ChunkDatabase.chunk_of
                         (RetrievalExample.c1, RetrievalExample.row_with (lit "beta"));
                     Retriever.distance := 5 |} ]) as E
    by (vm_compute; reflexivity).
  split.
  - pose proof (steel_reply_follows_retrieval Z.leb 1000000 id
                  RetrievalExample.fixed_hits
                  Examples.length_model 1 Examples.down_for_b Z (fun _ => 0) str_of_int
                  (@rev _) (lit "sys") Examples.prompt_of Examples.fulltext_of 20 300 3
                  RetrievalExample.vs RetrievalExample.db
                  (fun l => Permutation_sym (Permutation_rev l)) (lit "steel") 3) as H.
    rewrite E in H.
    match type of H with
    | match ?l with [] => _ | _ :: _ => _ end =>
      let v := eval vm_compute in l in change l with v in H
    end.
    cbv iota in H. destruct H as [H _].
    destruct (H ltac:(lia)) as (Hc & Hl & _). split; [exact Hc | exact Hl].
  - pose proof (steel_reply_follows_retrieval Z.leb 1000000 id
                  RetrievalExample.fixed_hits
                  Examples.length_model 1 Examples.down_for_b Z (fun _ => 0) str_of_int
                  (@rev _) (lit "sys") Examples.prompt_of Examples.fulltext_of 0 300 3
                  RetrievalExample.vs RetrievalExample.db
                  (fun l => Permutation_sym (Permutation_rev l)) (lit "steel") 3) as H.
    rewrite E in H.
    match type of H with
    | match ?l with [] => _ | _ :: _ => _ end =>
      let v := eval vm_compute in l in change l with v in H
    end.
    cbv iota in H. destruct H as [_ H]. apply H. lia.
Defined.

Lemma tool_returns_at_most_twenty_witness :
  Z.of_nat (length (summaries
                      (query_steelkb_literature Z Z.leb 1000000 id MoreExamples.nearest_hits
                         Examples.length_model 1 Examples.down_for_b Z (fun _ => 0)
                         str_of_int (@rev _) (lit "sys") Examples.prompt_of
                         Examples.fulltext_of 20 300 3
                         RetrievalExample.vs RetrievalExample.db (lit "steel") 50)))
  <= 20.
Proof.
  destruct (tool_returns_at_most_twenty Z.leb 1000000 id MoreExamples.nearest_hits
              Examples.length_model 1 Examples.down_for_b Z (fun _ => 0) str_of_int
              (@rev _) (lit "sys") Examples.prompt_of Examples.fulltext_of 20 300 3
              RetrievalExample.vs RetrievalExample.db
              (fun l => Permutation_sym (Permutation_rev l)) (lit "steel") 50)
    as [H1 H2].
  - intros i q k hits [= <-]. rewrite length_firstn. simpl. lia.
  - lia.
Defined.

End SteelExtras.
